(** * Contract-Intelligence-API: offset bookkeeping, chunking and audit rules

    A shallow embedding of the parts of the service that carry invariants:
    - [app/services/pdf_service.py]  (text extraction with page offsets,
      the offset resolver),
    - [app/services/rag_service.py]  (the chunking loop of [index_document]),
    - [app/services/llm_service.py]  (the rule based part of [audit_contract]
      and [_find_evidence], [extract_fields] with its fallback,
      [answer_question]),
    - [app/routers/audit.py], [app/routers/ask.py], [app/routers/ingest.py]
      (responses, status codes and writes of the routes),
    - [eval/run_eval.py]  (the tally of [main]).

    Modelling conventions.
    - A Python [str] is a [string]; its characters are code points below 256
      and [len] counts them.  [str.lower], [str.isspace] and the regular
      expression classes [\d] and [\s] are the Python ones restricted to that
      range.
    - Python [int]s are [Z]; list indices produced by [enumerate] are [nat].
      [int(s)] refuses a string of more than 4300 digits, the default
      limit of CPython.
    - An exception is a value of [exn]; a call that may raise returns a
      [result].
    - The PDF parsers, the embedding model, the vector index and the LLM are
      outside the program; what they hand back is an input of the model. *)

From Stdlib Require Import Strings.String Strings.Ascii ZArith List Bool Lia
  Arith.PeanoNat Numbers.DecimalString Floats.SpecFloat Sorting.Sorted.
From Stdlib Require Import Numbers.DecimalZ Numbers.DecimalPos.
Import ListNotations.

Local Open Scope string_scope.
Local Open Scope Z_scope.

(** ** Exceptions *)

Inductive exn : Type :=
| FileNotFoundError
| ValueError
| PdfReadError.

Inductive result (A : Type) : Type :=
| Ok (a : A)
| Raise (e : exn).

Arguments Ok {A} a.
Arguments Raise {A} e.

(** ** Python builtins on [str] and [list] *)

Module Py.

Definition len (s : string) : Z := Z.of_nat (String.length s).

Definition llen {A : Type} (l : list A) : Z := Z.of_nat (List.length l).

Fixpoint take (n : nat) (s : string) : string :=
  match n, s with
  | S n', String c s' => String c (take n' s')
  | _, _ => EmptyString
  end.

Fixpoint drop (n : nat) (s : string) : string :=
  match n, s with
  | S n', String _ s' => drop n' s'
  | _, _ => s
  end.

(** Normalisation of one slice bound against a sequence of length [n]:
    a negative bound counts from the end, and every bound is clipped to
    [0 .. n]. *)
Definition bound (n i : Z) : Z :=
  if i <? 0 then Z.max (i + n) 0 else Z.min i n.

(** [s[a:b]] *)
Definition slice (s : string) (a b : Z) : string :=
  let lo := bound (len s) a in
  let hi := bound (len s) b in
  take (Z.to_nat (hi - lo)) (drop (Z.to_nat lo) s).

(** [l[a:b]] *)
Definition lslice {A : Type} (l : list A) (a b : Z) : list A :=
  let lo := bound (llen l) a in
  let hi := bound (llen l) b in
  firstn (Z.to_nat (hi - lo)) (skipn (Z.to_nat lo) l).

Definition code (c : ascii) : nat := nat_of_ascii c.

(** the characters below 256 that [lower] changes *)
Definition isupper (c : ascii) : bool :=
  let n := code c in
  ((65 <=? n) && (n <=? 90) ||
   (192 <=? n) && (n <=? 222) && negb (n =? 215))%nat.

Definition lower_char (c : ascii) : ascii :=
  if isupper c then ascii_of_nat (code c + 32) else c.

(** [s.lower()] *)
Fixpoint lower (s : string) : string :=
  match s with
  | EmptyString => EmptyString
  | String c s' => String (lower_char c) (lower s')
  end.

(** [c.isspace()], also the class [\s] *)
Definition isspace (c : ascii) : bool :=
  let n := code c in
  ((9 <=? n) && (n <=? 13) || (28 <=? n) && (n <=? 32) ||
   (n =? 133) || (n =? 160))%nat.

(** the class [\d] *)
Definition isdigit (c : ascii) : bool :=
  let n := code c in ((48 <=? n) && (n <=? 57))%nat.

Fixpoint lstrip (s : string) : string :=
  match s with
  | EmptyString => EmptyString
  | String c s' => if isspace c then lstrip s' else s
  end.

Fixpoint rstrip (s : string) : string :=
  match s with
  | EmptyString => EmptyString
  | String c s' =>
      match rstrip s' with
      | EmptyString => if isspace c then EmptyString else String c EmptyString
      | r => String c r
      end
  end.

(** [s.strip()] *)
Definition strip (s : string) : string := rstrip (lstrip s).

(** truth value of a [str] *)
Definition nonempty (s : string) : bool :=
  match s with EmptyString => false | String _ _ => true end.

(** [p in s] *)
Fixpoint contains (p s : string) : bool :=
  String.prefix p s ||
  match s with
  | EmptyString => false
  | String _ s' => contains p s'
  end.

Definition newline : ascii := "010"%char.

(** [s.split('\n')] *)
Fixpoint split_lines (s : string) : list string :=
  match s with
  | EmptyString => [EmptyString]
  | String c s' =>
      if Ascii.eqb c newline then EmptyString :: split_lines s'
      else match split_lines s' with
           | l :: ls => String c l :: ls
           | [] => [String c EmptyString]
           end
  end.

(** [sep.join(l)] *)
Definition join (sep : string) (l : list string) : string :=
  String.concat sep l.

(** The value of a string of digits. *)
Definition digit_value (c : ascii) : Z := Z.of_nat (code c - 48).

Fixpoint int_acc (acc : Z) (s : string) : Z :=
  match s with
  | EmptyString => acc
  | String c s' => int_acc (10 * acc + digit_value c) s'
  end.

Definition value (s : string) : Z := int_acc 0 s.

(** [sys.get_int_max_str_digits()], at its default. *)
Definition int_max_str_digits : Z := 4300.

(** [int(s)] for a non-empty string of digits: the conversion raises
    [ValueError] when [s] has more digits than the limit, leading zeros
    included. *)
Definition int (s : string) : result Z :=
  if int_max_str_digits <? len s then Raise ValueError else Ok (value s).

(** [str(n)] *)
Definition str (n : Z) : string := NilZero.string_of_int (Z.to_int n).

(** [range(0, stop, step)]; a zero step raises [ValueError]. *)
Definition range_count (stop step : Z) : Z :=
  if 0 <? step then (stop + step - 1) / step
  else (- stop - step - 1) / (- step).

Definition range0 (stop step : Z) : result (list Z) :=
  if step =? 0 then Raise ValueError
  else Ok (map (fun k => Z.of_nat k * step)
               (seq 0 (Z.to_nat (range_count stop step)))).

(** [s * n] *)
Fixpoint mul (s : string) (n : nat) : string :=
  match n with
  | O => EmptyString
  | S n' => s ++ mul s n'
  end.

(** [s.endswith(suffix)] *)
Definition endswith (s suffix : string) : bool :=
  (String.length suffix <=? String.length s)%nat &&
  String.eqb (drop (String.length s - String.length suffix) s) suffix.

End Py.

(** ** [app/services/pdf_service.py] *)

Module PDFService.

(** One entry of [text_by_page]. *)
Record Page : Type := mkPage {
  page : Z;
  text : string;
  char_start : Z;
  char_end : Z
}.

(** The metadata dictionary written to [<document_id>_metadata.json]. *)
Record Metadata : Type := mkMetadata {
  document_id : string;
  filename : string;
  full : string;            (* key "text" *)
  pages : list Page;
  page_offsets : list Z;
  total_chars : Z
}.

(** What a PDF parser does on a file: it hands over the text of the pages one
    after the other, and either reaches the end or raises after some of
    them. *)
Inductive parse (A : Type) : Type :=
| Pages (texts : list A)
| Breaks (texts : list A).

Arguments Pages {A} texts.
Arguments Breaks {A} texts.

(** An uploaded file, as seen through the two parsers.  [pdfplumber]'s
    [extract_text] may return [None]; [PyPDF2]'s returns a [str]. *)
Record PdfFile : Type := mkPdfFile {
  pdfplumber : parse (option string);
  pypdf2 : parse string
}.

Definition Uploads : Type := string -> option PdfFile.
Definition DataDir : Type := string -> option Metadata.

Definition write (d : DataDir) (id : string) (m : Metadata) : DataDir :=
  fun k => if String.eqb k id then Some m else d k.

(** The four local variables of [extract_text]. *)
Record Acc : Type := mkAcc {
  text_by_page : list Page;
  full_text : string;
  char_offset : Z;
  offsets : list Z
}.

Definition acc0 : Acc := mkAcc [] "" 0 [].

(** Body of the page loop (the same in both branches once [page_text] is
    known). *)
Definition add_page (a : Acc) (page_num : Z) (page_text : string) : Acc :=
  {| text_by_page :=
       text_by_page a ++
       [mkPage page_num page_text (char_offset a)
               (char_offset a + Py.len page_text)];
     full_text := full_text a ++ page_text ++ String Py.newline "";
     char_offset := char_offset a + Py.len page_text + 1;
     offsets := offsets a ++ [char_offset a] |}.

(** [for page_num, page in enumerate(..., page_num)] *)
Fixpoint page_loop (page_num : Z) (texts : list string) (a : Acc) : Acc :=
  match texts with
  | [] => a
  | t :: ts => page_loop (page_num + 1) ts (add_page a page_num t)
  end.

(** [page.extract_text() or ""] *)
Definition or_empty (t : option string) : string :=
  match t with
  | Some s => s
  | None => ""
  end.

Definition delivered {A : Type} (p : parse A) : list A :=
  match p with
  | Pages ts => ts
  | Breaks ts => ts
  end.

(** The [try] / [except] of [extract_text]: the fallback starts from whatever
    the first pass has accumulated. *)
Definition run_parsers (f : PdfFile) : result Acc :=
  let a1 := page_loop 1 (map or_empty (delivered (pdfplumber f))) acc0 in
  match pdfplumber f with
  | Pages _ => Ok a1
  | Breaks _ =>
      match pypdf2 f with
      | Pages ts => Ok (page_loop 1 ts a1)
      | Breaks _ => Raise PdfReadError
      end
  end.

Definition metadata_of (id : string) (a : Acc) : Metadata :=
  {| document_id := id;
     filename := id ++ ".pdf";
     full := full_text a;
     pages := text_by_page a;
     page_offsets := offsets a;
     total_chars := Py.len (full_text a) |}.

Definition extract_text (up : Uploads) (d : DataDir) (id : string)
  : result Metadata * DataDir :=
  match up id with
  | None => (Raise FileNotFoundError, d)
  | Some f =>
      match run_parsers f with
      | Raise e => (Raise e, d)
      | Ok a =>
          let metadata := metadata_of id a in
          (Ok metadata, write d id metadata)
      end
  end.

Definition get_metadata (d : DataDir) (id : string) : result Metadata :=
  match d id with
  | Some m => Ok m
  | None => Raise FileNotFoundError
  end.

(** The [for i, offset in enumerate(page_offsets)] loop; [None] when the loop
    runs to its end without returning. *)
Fixpoint scan_offsets (all : list Z) (i : nat) (rest : list Z) (char_pos : Z)
  : option Z :=
  match rest with
  | [] => None
  | offset :: rest' =>
      if (Z.of_nat i + 1 <? Py.llen all) && (offset <=? char_pos)
         && (char_pos <? nth (S i) all 0)
      then Some (Z.of_nat i + 1)
      else if (Z.of_nat i + 1 =? Py.llen all) && (offset <=? char_pos)
      then Some (Z.of_nat i + 1)
      else scan_offsets all (S i) rest' char_pos
  end.

Definition page_of (table : list Z) (char_pos : Z) : Z :=
  match scan_offsets table 0 table char_pos with
  | Some n => n
  | None => 1
  end.

Definition get_page_for_char_position (d : DataDir) (id : string)
  (char_pos : Z) : result Z :=
  match get_metadata d id with
  | Raise e => Raise e
  | Ok metadata => Ok (page_of (page_offsets metadata) char_pos)
  end.

(** [save_pdf]: the content is written to [<document_id>.pdf], where
    [document_id] is the [uuid4] drawn for this call. *)
Definition save_pdf (up : Uploads) (uuid4 : string) (file_content : PdfFile)
  : string * Uploads :=
  let document_id := uuid4 in
  (document_id,
   fun k => if String.eqb k document_id then Some file_content else up k).

End PDFService.

(** ** [app/core/config.py] *)

Module Config.

Record Settings : Type := mkSettings {
  openai_api_key : option string;
  webhook_url : option string;
  upload_dir : string;
  data_dir : string;
  chunk_size : Z;
  chunk_overlap : Z
}.

Definition or_default {A : Type} (v : option A) (default : A) : A :=
  match v with
  | Some a => a
  | None => default
  end.

(** [Settings()]: every field takes its value from the environment when one
    is given there and its default otherwise; the class declares no
    validator. *)
Definition Settings_init (env_openai_api_key env_webhook_url : option string)
  (env_upload_dir env_data_dir : option string)
  (env_chunk_size env_chunk_overlap : option Z) : result Settings :=
  Ok {| openai_api_key := env_openai_api_key;
        webhook_url := env_webhook_url;
        upload_dir := or_default env_upload_dir "uploads";
        data_dir := or_default env_data_dir "data";
        chunk_size := or_default env_chunk_size 1000;
        chunk_overlap := or_default env_chunk_overlap 200 |}.

End Config.

(** ** [app/services/rag_service.py] *)

Module RAGService.

Import PDFService.

(** One indexed chunk: the entries of the three parallel lists [chunks],
    [chunk_ids] and [chunk_metadatas] at one position. *)
Record Chunk : Type := mkChunk {
  chunk_id : string;
  chunk : string;
  chunk_document_id : string;
  chunk_page : Z;
  chunk_start : Z;
  chunk_end : Z
}.

(** Body of the window loop at offset [i] of one page; [None] is the
    [continue] on a blank window. *)
Definition window (document_id : string) (page_info : Page)
  (chunk_size : Z) (i : Z) : option Chunk :=
  let page_text := text page_info in
  let page_num := page page_info in
  let page_start := char_start page_info in
  let chunk := Py.slice page_text i (i + chunk_size) in
  if negb (Py.nonempty (Py.strip chunk)) then None
  else
    Some {| chunk_id :=
              document_id ++ "_page" ++ Py.str page_num
                          ++ "_chunk" ++ Py.str i;
            chunk := chunk;
            chunk_document_id := document_id;
            chunk_page := page_num;
            chunk_start := page_start + i;
            chunk_end := Z.min (page_start + i + Py.len chunk)
                               (char_end page_info) |}.

Fixpoint window_loop (document_id : string) (page_info : Page)
  (chunk_size : Z) (starts : list Z) (acc : list Chunk) : list Chunk :=
  match starts with
  | [] => acc
  | i :: rest =>
      match window document_id page_info chunk_size i with
      | None => window_loop document_id page_info chunk_size rest acc
      | Some c =>
          window_loop document_id page_info chunk_size rest (acc ++ [c])
      end
  end.

(** [for page_info in pages]; the [range] of the inner loop is evaluated
    once per page and raises on a zero step. *)
Fixpoint chunk_pages (document_id : string) (ps : list Page)
  (chunk_size chunk_overlap : Z) (acc : list Chunk) : result (list Chunk) :=
  match ps with
  | [] => Ok acc
  | page_info :: rest =>
      match Py.range0 (Py.len (text page_info))
                      (chunk_size - chunk_overlap) with
      | Raise e => Raise e
      | Ok starts =>
          chunk_pages document_id rest chunk_size chunk_overlap
            (window_loop document_id page_info chunk_size starts acc)
      end
  end.

(** [index_document] up to the point where the chunks are handed to the
    embedding model and the vector store.  The argument [text] is not
    used by the source either. *)
Definition index_document (d : DataDir) (document_id : string)
  (text : string) (chunk_size chunk_overlap : Z) : result (list Chunk) :=
  match get_metadata d document_id with
  | Raise e => Raise e
  | Ok metadata =>
      chunk_pages document_id (pages metadata) chunk_size chunk_overlap []
  end.

(** *** Retrieval *)

(** [search], seen from its caller: the stored chunks (text and metadata,
    as [index_document] hands them to the collection) found for a query, or
    [None] when the embedding model or the collection raises. *)
Definition Search : Type :=
  string -> option (list string) -> Z -> option (list Chunk).

Record Citation : Type := mkCitation {
  citation_document_id : string;
  citation_page : option Z;
  citation_char_range : option (Z * Z);
  citation_text : string
}.

(** [for result in results] *)
Fixpoint context_loop (results : list Chunk) (context_parts : list string)
  (citations : list Citation) : list string * list Citation :=
  match results with
  | [] => (context_parts, citations)
  | result :: rest =>
      let text := chunk result in
      context_loop rest
        (context_parts ++ [text])
        (citations ++
         [{| citation_document_id := chunk_document_id result;
             citation_page := Some (chunk_page result);
             citation_char_range :=
               Some (chunk_start result, chunk_end result);
             citation_text := Py.slice text 0 200 |}])
  end.

Definition paragraph : string := String Py.newline (String Py.newline "").

Definition get_context_for_question (search : Search) (question : string)
  (document_ids : option (list string)) (top_k : Z)
  : option (string * list Citation) :=
  match search question document_ids top_k with
  | None => None
  | Some results =>
      let (context_parts, citations) := context_loop results [] [] in
      Some (Py.join paragraph context_parts, citations)
  end.

End RAGService.

(** ** [app/services/llm_service.py] *)

Module LLMService.

(** Values of the dictionary [extracted_fields], as [json.loads] builds
    them. *)
#[warnings="-register-all"] Inductive json : Type :=
| JNull
| JBool (b : bool)
| JInt (z : Z)
| JFloat (f : spec_float)
| JStr (s : string)
| JList (l : list json)
| JDict (d : list (string * json)).

Definition dict : Type := list (string * json).

(** [d.get(key, default)] *)
Definition get (d : dict) (key : string) (default : json) : json :=
  match find (fun kv => String.eqb (fst kv) key) d with
  | Some kv => snd kv
  | None => default
  end.

(** truth value of a Python object *)
Definition truthy (v : json) : bool :=
  match v with
  | JNull => false
  | JBool b => b
  | JInt z => negb (z =? 0)
  | JFloat (S754_zero _) => false
  | JFloat _ => true
  | JStr s => Py.nonempty s
  | JList l => match l with [] => false | _ => true end
  | JDict d => match d with [] => false | _ => true end
  end.

Definition isinstance_dict (v : json) : bool :=
  match v with JDict _ => true | _ => false end.

Definition isinstance_str (v : json) : bool :=
  match v with JStr _ => true | _ => false end.

Definition items (v : json) : dict :=
  match v with JDict d => d | _ => [] end.

Definition chars (v : json) : string :=
  match v with JStr s => s | _ => "" end.

(** [v == 0] *)
Definition eq_zero (v : json) : bool :=
  match v with
  | JInt z => z =? 0
  | JFloat (S754_zero _) => true
  | JBool b => negb b
  | _ => false
  end.

(** [v is None] *)
Definition is_none (v : json) : bool :=
  match v with JNull => true | _ => false end.

(** *** The pattern [(\d+)\s*(?:day|days|d)]

    The matcher follows the backtracking search of [re]: a greedy
    quantifier first takes all it can and gives back one character at a
    time, alternatives are tried from left to right, and the first success
    is the match. *)

Fixpoint span (p : ascii -> bool) (s : string) : nat :=
  match s with
  | String c s' => if p c then S (span p s') else O
  | EmptyString => O
  end.

(** tries [f n], [f (n-1)], ..., [f 0] *)
Fixpoint first_down {A : Type} (f : nat -> option A) (n : nat) : option A :=
  match f n with
  | Some r => Some r
  | None =>
      match n with
      | O => None
      | S n' => first_down f n'
      end
  end.

(** the alternation: length of the first alternative that is a prefix *)
Fixpoint alternation (alts : list string) (s : string) : option nat :=
  match alts with
  | [] => None
  | a :: rest =>
      if String.prefix a s then Some (String.length a)
      else alternation rest s
  end.

Definition notice_units : list string := ["day"; "days"; "d"].

(** A match that starts at the head of [s]: group 1 and the length of the
    whole match. *)
Definition match_at (alts : list string) (s : string)
  : option (string * nat) :=
  match span Py.isdigit s with
  | O => None
  | S m =>
      first_down
        (fun j =>
           let k := S j in
           let r := Py.drop k s in
           first_down
             (fun w =>
                match alternation alts (Py.drop w r) with
                | Some u => Some (Py.take k s, (k + w + u)%nat)
                | None => None
                end)
             (span Py.isspace r))
        m
  end.

(** [re.findall]: scan from left to right; after a match the scan resumes
    behind it ([skip] characters are still to be passed over). *)
Fixpoint findall_from (alts : list string) (skip : nat) (s : string)
  : list string :=
  match s with
  | EmptyString => []
  | String _ s' =>
      match skip with
      | S k => findall_from alts k s'
      | O =>
          match match_at alts s with
          | Some (g, n) => g :: findall_from alts (n - 1) s'
          | None => findall_from alts 0 s'
          end
      end
  end.

Definition findall (alts : list string) (s : string) : list string :=
  findall_from alts 0 s.

(** *** Findings *)

Record Finding : Type := mkFinding {
  severity : string;
  category : string;
  description : string;
  evidence : string;
  char_range : option (Z * Z);
  page : option Z
}.

Definition not_found : string := "Evidence not found in text".

Definition has_all (keywords : list string) (line : string) : bool :=
  let line_lower := Py.lower line in
  forallb (fun kw => Py.contains kw line_lower) keywords.

(** [for i, line in enumerate(text.split('\n'))]: index of the line at
    which the loop returns. *)
Fixpoint evidence_line (keywords : list string) (i : nat)
  (rest : list string) : option nat :=
  match rest with
  | [] => None
  | line :: rest' =>
      if has_all keywords line then Some i
      else evidence_line keywords (S i) rest'
  end.

Definition _find_evidence (text : string) (keywords : list string)
  : string :=
  match evidence_line keywords 0 (Py.split_lines text) with
  | Some i =>
      let lines := Py.split_lines text in
      let start := Z.max 0 (Z.of_nat i - 2) in
      let end_ := Z.min (Py.llen lines) (Z.of_nat i + 3) in
      Py.join (String Py.newline "") (Py.lslice lines start end_)
  | None => not_found
  end.

Definition auto_renewal_finding (text m : string) : Finding :=
  {| severity := "high";
     category := "auto_renewal";
     description := "Auto-renewal with only " ++ m ++ " days notice";
     evidence := _find_evidence text ["auto"; "renew"];
     char_range := None;
     page := None |}.

(** [for match in matches: if int(match) < 30: ...; break]: the match at
    which the loop breaks, if any; the loop ends with the exception when a
    conversion raises. *)
Fixpoint notice_loop (matches : list string) : result (option string) :=
  match matches with
  | [] => Ok None
  | m :: rest =>
      match Py.int m with
      | Raise e => Raise e
      | Ok n => if n <? 30 then Ok (Some m) else notice_loop rest
      end
  end.

Definition check_auto_renewal (text : string) (extracted_fields : dict)
  (findings : list Finding) : result (list Finding) :=
  if truthy (get extracted_fields "auto_renewal" JNull) then
    let text_lower := Py.lower text in
    if Py.contains "30" text && Py.contains "day" text_lower then
      let matches := findall notice_units text_lower in
      match notice_loop matches with
      | Raise e => Raise e
      | Ok (Some m) => Ok (findings ++ [auto_renewal_finding text m])%list
      | Ok None => Ok findings
      end
    else Ok findings
  else Ok findings.

Definition unlimited_finding (text : string) : Finding :=
  {| severity := "high";
     category := "liability";
     description := "Unlimited liability clause detected";
     evidence := _find_evidence text ["unlimited"; "liability"];
     char_range := None;
     page := None |}.

Definition check_unlimited_liability (text : string)
  (findings : list Finding) : list Finding :=
  let text_lower := Py.lower text in
  if Py.contains "unlimited" text_lower && Py.contains "liability" text_lower
  then findings ++ [unlimited_finding text]
  else findings.

Definition cap_finding : Finding :=
  {| severity := "medium";
     category := "liability";
     description := "No liability cap specified";
     evidence := "Liability cap field is null or zero";
     char_range := None;
     page := None |}.

Definition check_liability_cap (extracted_fields : dict)
  (findings : list Finding) : list Finding :=
  let liability_cap := get extracted_fields "liability_cap" JNull in
  if truthy liability_cap && isinstance_dict liability_cap then
    let amount := get (items liability_cap) "amount" (JInt 0) in
    if eq_zero amount || is_none amount then findings ++ [cap_finding]
    else findings
  else findings.

Definition indemnity_finding (indemnity : string) : Finding :=
  {| severity := "high";
     category := "indemnity";
     description := "Broad indemnity clause detected";
     evidence := Py.slice indemnity 0 200;
     char_range := None;
     page := None |}.

Definition check_indemnity (extracted_fields : dict)
  (findings : list Finding) : list Finding :=
  let indemnity := get extracted_fields "indemnity" (JStr "") in
  if truthy indemnity && isinstance_str indemnity then
    let indemnity_lower := Py.lower (chars indemnity) in
    if existsb (fun word => Py.contains word indemnity_lower)
               ["all"; "any"; "every"; "unlimited"]
    then findings ++ [indemnity_finding (chars indemnity)]
    else findings
  else findings.

(** The configured client, seen through [_llm_audit]: the list of findings
    it returns for a text and a field set ([_llm_audit] catches what the
    request raises and returns the empty list then).  The findings are
    taken as well typed; a reply that the response model of the route
    rejects is outside the model. *)
Definition Client : Type := string -> dict -> list Finding.

(** The conversion in the first rule may raise; the exception leaves
    [audit_contract], and the rules behind it do not run. *)
Definition audit_contract (client : option Client) (text : string)
  (extracted_fields : dict) : result (list Finding) :=
  let findings := [] in
  match check_auto_renewal text extracted_fields findings with
  | Raise e => Raise e
  | Ok findings =>
      let findings := check_unlimited_liability text findings in
      let findings := check_liability_cap extracted_fields findings in
      let findings := check_indemnity extracted_fields findings in
      match client with
      | Some _llm_audit =>
          Ok (findings ++ _llm_audit text extracted_fields)%list
      | None => Ok findings
      end
  end.

Definition _basic_extraction (text : string) : dict :=
  let text_lower := Py.lower text in
  [ ("parties", JList []);
    ("effective_date", JNull);
    ("term", JNull);
    ("governing_law", JNull);
    ("payment_terms", JNull);
    ("termination", JNull);
    ("auto_renewal",
       if Py.contains "auto" text_lower && Py.contains "renew" text_lower
       then JBool true else JNull);
    ("confidentiality", JNull);
    ("indemnity", JNull);
    ("liability_cap", JNull);
    ("signatories", JList []) ].

(** *** Extraction and answers *)

(** The configured client, seen through the completion of [extract_fields]:
    the object [json.loads] builds from the reply for the text put into the
    prompt, or [None] when the request or the parsing raises.  The reply
    is taken to be a JSON object, as the request asks for. *)
Definition Extraction : Type := string -> option dict.

Definition extract_fields (client : option Extraction) (text : string)
  : dict :=
  match client with
  | None => _basic_extraction text
  | Some create =>
      match create (Py.slice text 0 8000) with
      | Some result => result
      | None => _basic_extraction text
      end
  end.

Definition not_configured : string :=
  "LLM service not configured. Please set OPENAI_API_KEY.".

(** The configured client, seen through the completion of
    [answer_question]: for a question and a context, the content of the
    reply, or the text of the exception that is raised. *)
Definition Chat : Type := string -> string -> string + string.

Definition answer_question (client : option Chat)
  (question context : string) : string :=
  match client with
  | None => not_configured
  | Some create =>
      match create question context with
      | inl content => content
      | inr e => "Error generating answer: " ++ e
      end
  end.

End LLMService.

(** ** [app/routers]

    The routes are modelled up to their response and their writes to the
    upload and data directories; the tasks they schedule in the background
    (indexing, webhook events) and the metrics are left out. *)

Module Http.

(** What leaves a route: the response model, or an [HTTPException]. *)
Inductive response (A : Type) : Type :=
| Returns (a : A)
| HTTPException (status_code : Z).

Arguments Returns {A} a.
Arguments HTTPException {A} status_code.

(** What is raised inside the [try] of a route: an exception of one of the
    services, or an [HTTPException] of the route's own. *)
Inductive raised : Type :=
| Service (e : exn)
| Http (status_code : Z).

Inductive outcome (A : Type) : Type :=
| Done (a : A)
| Raised (r : raised).

Arguments Done {A} a.
Arguments Raised {A} r.

(** [except FileNotFoundError: ... 404] followed by
    [except Exception: ... 500]; an [HTTPException] is an [Exception]. *)
Definition handlers {A : Type} (o : outcome A) : response A :=
  match o with
  | Done a => Returns a
  | Raised (Service FileNotFoundError) => HTTPException 404
  | Raised _ => HTTPException 500
  end.

(** The client of [LLMService], as its three callers see it. *)
Record OpenAI : Type := mkOpenAI {
  extraction : LLMService.Extraction;
  llm_audit : LLMService.Client;
  chat : LLMService.Chat
}.

End Http.

(** *** [app/routers/audit.py] *)

Module AuditRouter.

Import PDFService LLMService Http.

Record AuditResponse : Type := mkAuditResponse {
  response_document_id : string;
  findings : list Finding
}.

(** Body of [for finding_data in findings_data]. *)
Definition format_finding (d : DataDir) (document_id : string)
  (finding_data : Finding) : outcome Finding :=
  let char_range := LLMService.char_range finding_data in
  let with_page (page : option Z) :=
    {| severity := severity finding_data;
       category := category finding_data;
       description := description finding_data;
       evidence := evidence finding_data;
       LLMService.char_range := char_range;
       LLMService.page := page |} in
  match char_range with
  | Some (start, _) =>
      match get_page_for_char_position d document_id start with
      | Raise e => Raised (Service e)
      | Ok page => Done (with_page (Some page))
      end
  | None => Done (with_page None)
  end.

Fixpoint format_findings (d : DataDir) (document_id : string)
  (findings_data : list Finding) (findings : list Finding)
  : outcome (list Finding) :=
  match findings_data with
  | [] => Done findings
  | finding_data :: rest =>
      match format_finding d document_id finding_data with
      | Raised r => Raised r
      | Done finding =>
          format_findings d document_id rest (findings ++ [finding])
      end
  end.

(** The [try] block of the route. *)
Definition audit_body (d : DataDir) (client : option OpenAI)
  (document_id : string) : outcome AuditResponse :=
  match get_metadata d document_id with
  | Raise e => Raised (Service e)
  | Ok metadata =>
      let text := full metadata in
      if negb (Py.nonempty text) then Raised (Http 404)
      else
        let extracted_fields :=
          extract_fields (option_map extraction client) text in
        match LLMService.audit_contract (option_map llm_audit client) text
                                        extracted_fields with
        | Raise e => Raised (Service e)
        | Ok findings_data =>
            match format_findings d document_id findings_data [] with
            | Raised r => Raised r
            | Done findings =>
                Done {| response_document_id := document_id;
                        findings := findings |}
            end
        end
  end.

Definition audit_contract (d : DataDir) (client : option OpenAI)
  (document_id : string) : response AuditResponse :=
  handlers (audit_body d client document_id).

End AuditRouter.

(** *** [app/routers/ask.py] *)

Module AskRouter.

Import RAGService LLMService Http.

Record AskResponse : Type := mkAskResponse {
  answer : string;
  citations : list Citation
}.

Definition no_information : string :=
  "No relevant information found in the uploaded documents.".

Definition ask_question (search : Search) (client : option OpenAI)
  (question : string) (document_ids : option (list string))
  : response AskResponse :=
  match get_context_for_question search question document_ids 5 with
  | None => HTTPException 500
  | Some (context, citations_data) =>
      if negb (Py.nonempty context) then
        Returns {| answer := no_information; citations := [] |}
      else
        let answer :=
          answer_question (option_map chat client) question context in
        Returns {| answer := answer; citations := citations_data |}
  end.

End AskRouter.

(** *** [app/routers/ingest.py] *)

Module IngestRouter.

Import PDFService Http.

Record UploadFile : Type := mkUploadFile {
  upload_filename : string;
  content : PdfFile
}.

(** The two directories, and the number of [uuid4]s drawn so far. *)
Record Store : Type := mkStore {
  uploads : Uploads;
  data : DataDir;
  drawn : nat
}.

Record DocumentIngestResponse : Type := mkDocumentIngestResponse {
  document_ids : list string;
  message : string
}.

(** [for file in files]; [uuid4 n] is the [n]-th identifier drawn. *)
Fixpoint ingest_loop (uuid4 : nat -> string) (files : list UploadFile)
  (st : Store) (document_ids : list string)
  : response (list string) * Store :=
  match files with
  | [] => (Returns document_ids, st)
  | file :: rest =>
      if negb (Py.endswith (upload_filename file) ".pdf")
      then (HTTPException 400, st)
      else
        let (document_id, up) :=
          save_pdf (uploads st) (uuid4 (drawn st)) (content file) in
        match extract_text up (data st) document_id with
        | (Raise _, d) =>
            (HTTPException 500,
             {| uploads := up; data := d; drawn := S (drawn st) |})
        | (Ok _, d) =>
            ingest_loop uuid4 rest
              {| uploads := up; data := d; drawn := S (drawn st) |}
              (document_ids ++ [document_id])
        end
  end.

Definition ingest_documents (uuid4 : nat -> string)
  (files : list UploadFile) (st : Store)
  : response DocumentIngestResponse * Store :=
  match files with
  | [] => (HTTPException 400, st)
  | _ =>
      match ingest_loop uuid4 files st [] with
      | (HTTPException status_code, st') => (HTTPException status_code, st')
      | (Returns document_ids, st') =>
          (Returns
             {| document_ids := document_ids;
                message := "Successfully ingested "
                           ++ Py.str (Py.llen document_ids)
                           ++ " document(s)" |},
           st')
      end
  end.

End IngestRouter.

(** ** [eval/run_eval.py]

    [main] on the rows [load_jsonl] yields for the two files; the tally it
    prints is its result here. *)

Module RunEval.

Record GoldRow : Type := mkGoldRow {
  gold_id : string;
  expected_substring : string
}.

(** A prediction; the key "answer" may be missing. *)
Record PredRow : Type := mkPredRow {
  pred_id : string;
  pred_answer : option string
}.

(** [d[k] = v] on a [dict], kept in insertion order. *)
Fixpoint setitem {V : Type} (d : list (string * V)) (k : string) (v : V)
  : list (string * V) :=
  match d with
  | [] => [(k, v)]
  | (k', v') :: d' =>
      if String.eqb k' k then (k', v) :: d'
      else (k', v') :: setitem d' k v
  end.

(** [{row["id"]: row for row in rows}] *)
Definition by_id {V : Type} (id : V -> string) (rows : list V)
  : list (string * V) :=
  fold_left (fun d row => setitem d (id row) row) rows [].

(** [d.get(k)] *)
Definition lookup {V : Type} (d : list (string * V)) (k : string)
  : option V :=
  match find (fun kv => String.eqb (fst kv) k) d with
  | Some kv => Some (snd kv)
  | None => None
  end.

(** [preds.get(qid, {}).get("answer", "")] *)
Definition answer_of (p : option PredRow) : string :=
  match p with
  | Some row =>
      match pred_answer row with
      | Some a => a
      | None => ""
      end
  | None => ""
  end.

(** [for qid, g in gold.items()] *)
Fixpoint score_loop (preds : list (string * PredRow))
  (items : list (string * GoldRow)) (hits : Z) (missing : list string)
  : Z * list string :=
  match items with
  | [] => (hits, missing)
  | (qid, g) :: rest =>
      let p := lookup preds qid in
      let ans := Py.lower (answer_of p) in
      if Py.contains (Py.lower (expected_substring g)) ans
      then score_loop preds rest (hits + 1) missing
      else score_loop preds rest hits (missing ++ [qid])
  end.

Record Tally : Type := mkTally {
  total : Z;
  hits : Z;
  missing : list string
}.

Definition main (gold_rows : list GoldRow) (pred_rows : list PredRow)
  : Tally :=
  let gold := by_id gold_id gold_rows in
  let preds := by_id pred_id pred_rows in
  let total := Py.llen gold in
  let (hits, missing) := score_loop preds gold 0 [] in
  {| total := total; hits := hits; missing := missing |}.

End RunEval.


(** * Vocabulary of the properties *)

Module Spec.

Import PDFService.

(** [sum(len(page.text) for page in pages)] *)
Fixpoint sum_len (ps : list Page) : Z :=
  match ps with
  | [] => 0
  | p :: ps' => Py.len (text p) + sum_len ps'
  end.

(** Every page text followed by the separator. *)
Fixpoint flat (ps : list Page) : string :=
  match ps with
  | [] => ""
  | p :: ps' => text p ++ String Py.newline "" ++ flat ps'
  end.

(** The pages lie one behind the other from offset [start] on, one
    separator character after each. *)
Fixpoint laid_out (start : Z) (ps : list Page) : Prop :=
  match ps with
  | [] => True
  | p :: ps' =>
      char_start p = start /\
      char_end p = start + Py.len (text p) /\
      laid_out (char_end p + 1) ps'
  end.

(** Number of table entries that are at most [pos]. *)
Definition count_le (table : list Z) (pos : Z) : Z :=
  Py.llen (filter (fun o => o <=? pos) table).

(** The first parser did not raise after it had delivered pages. *)
Definition one_pass (f : PdfFile) : Prop :=
  match pdfplumber f with
  | Pages _ => True
  | Breaks ts => ts = []
  end.

(** Every page carries its position in the list as its number. *)
Definition numbered (ps : list Page) : Prop :=
  forall i p, nth_error ps i = Some p -> page p = Z.of_nat i + 1.

(** The accumulator of [extract_text] is consistent. *)
Definition consistent (a : Acc) : Prop :=
  laid_out 0 (text_by_page a) /\
  full_text a = flat (text_by_page a) /\
  char_offset a = sum_len (text_by_page a) + Py.llen (text_by_page a) /\
  offsets a = map char_start (text_by_page a).

(** *** Findings *)

Definition is_kind (sev cat : string) (f : LLMService.Finding) : bool :=
  String.eqb (LLMService.severity f) sev
  && String.eqb (LLMService.category f) cat.

(** Number of findings with the given severity and category. *)
Definition count_kind (sev cat : string) (fs : list LLMService.Finding)
  : nat :=
  List.length (filter (is_kind sev cat) fs).

(** The token [kw] appears in [text], in whatever case. *)
Definition occurs_ci (kw text : string) : Prop :=
  exists pre w post,
    text = pre ++ w ++ post /\ Py.lower w = Py.lower kw.

(** *** Numbers with a unit *)

Fixpoint all_chars (p : ascii -> bool) (s : string) : bool :=
  match s with
  | EmptyString => true
  | String c s' => p c && all_chars p s'
  end.

(** The character in front of a position is a digit: the last character of
    [pre] if there is one, and [b] at the start. *)
Fixpoint digit_before (b : bool) (pre : string) : bool :=
  match pre with
  | EmptyString => b
  | String c pre' => digit_before (Py.isdigit c) pre'
  end.

(** [g] is a number of [s] (a run of digits with no digit in front of it)
    that is followed, after optional white space, by the letter d.  The
    flag [b] tells whether a digit stands in front of [s]. *)
Definition number_with_d (b : bool) (s g : string) : Prop :=
  exists pre ws post,
    s = pre ++ g ++ ws ++ "d" ++ post /\
    g <> "" /\
    all_chars Py.isdigit g = true /\
    all_chars Py.isspace ws = true /\
    digit_before b pre = false.

Definition notice_number (s g : string) : Prop := number_with_d false s g.

(** The digits at the head of [s] are followed, after optional white
    space, by the letter d. *)
Definition followed_by_d (s : string) : bool :=
  let r := Py.drop (LLMService.span Py.isdigit s) s in
  String.prefix "d" (Py.drop (LLMService.span Py.isspace r) r).

(** The numbers of [s] that are followed by the letter d, from left to
    right. *)
Fixpoint numbers_with_d (b : bool) (s : string) : list string :=
  match s with
  | EmptyString => []
  | String c s' =>
      if Py.isdigit c && negb b && followed_by_d s
      then Py.take (LLMService.span Py.isdigit s) s :: numbers_with_d true s'
      else numbers_with_d (Py.isdigit c) s'
  end.

(** The condition of claim C1, in its words: the text has a number
    followed by "day" or "days", in whatever case, whose value is below
    30. *)
Definition claimed_short_notice (text : string) : bool :=
  existsb (fun m => Py.value m <? 30)
          (LLMService.findall ["day"; "days"] (Py.lower text)).

(** A string of digits that [int] converts, and its value is at least
    30. *)
Definition long_notice (x : string) : Prop :=
  Py.len x <= Py.int_max_str_digits /\ 30 <= Py.value x.

(** First element of a list with a value below 30, all elements in front
    of it being converted to values of at least 30. *)
Definition first_below_30 (l : list string) (m : string) : Prop :=
  exists before after,
    l = (before ++ m :: after)%list /\
    Py.len m <= Py.int_max_str_digits /\
    Py.value m < 30 /\
    forall x, In x before -> long_notice x.

(** The list has an element with more digits than [int] converts, all
    elements in front of it being converted to values of at least 30. *)
Definition overlong (l : list string) : Prop :=
  exists before m after,
    l = (before ++ m :: after)%list /\
    Py.int_max_str_digits < Py.len m /\
    forall x, In x before -> long_notice x.

(** What the client adds to the findings of the rules. *)
Definition llm_findings (client : option LLMService.Client) (text : string)
  (fields : LLMService.dict) : list LLMService.Finding :=
  match client with
  | Some _llm_audit => _llm_audit text fields
  | None => []
  end.

(** The condition under which the auto-renewal rule raises. *)
Definition notice_raises (text : string) (fields : LLMService.dict) : Prop :=
  LLMService.truthy (LLMService.get fields "auto_renewal" LLMService.JNull)
  = true /\
  Py.contains "30" text = true /\ occurs_ci "day" text /\
  overlong (LLMService.findall LLMService.notice_units (Py.lower text)).

(** A line contains all keywords, in whatever case. *)
Definition line_has_all (keywords : list string) (line : string) : Prop :=
  forall kw, In kw keywords -> occurs_ci kw line.

End Spec.

(** * Sample inputs *)

Module Sample.

Import PDFService.

Definition no_data : DataDir := fun _ => None.

Definition file_on_disk (id : string) (f : PdfFile) : Uploads :=
  fun k => if String.eqb k id then Some f else None.

(** The second page of the contract of the scenarios. *)
Definition renewal_clause : string :=
  "This agreement auto-renews every year with 10 days notice.".

(** The two page contract of the scenarios. *)
Definition contract : PdfFile :=
  {| pdfplumber :=
       Pages [Some "Alice agrees to pay Bob $100.";
              Some renewal_clause];
     pypdf2 := Pages [] |}.

Definition contract_metadata : Metadata :=
  {| document_id := "c1";
     filename := "c1.pdf";
     full := "Alice agrees to pay Bob $100." ++ String Py.newline
             (renewal_clause ++ String Py.newline "");
     pages :=
       [mkPage 1 "Alice agrees to pay Bob $100." 0 29;
        mkPage 2 renewal_clause 30 88];
     page_offsets := [0; 30];
     total_chars := 89 |}.

Definition contract_data : DataDir := write no_data "c1" contract_metadata.

(** A file with a single page "ab". *)
Definition short : PdfFile :=
  {| pdfplumber := Pages [Some "ab"]; pypdf2 := Pages [] |}.

Definition short_metadata : Metadata :=
  {| document_id := "s1";
     filename := "s1.pdf";
     full := "ab" ++ String Py.newline "";
     pages := [mkPage 1 "ab" 0 2];
     page_offsets := [0];
     total_chars := 3 |}.

(** A file without pages. *)
Definition blank : PdfFile :=
  {| pdfplumber := Pages []; pypdf2 := Pages [] |}.

Definition blank_metadata : Metadata :=
  {| document_id := "b1";
     filename := "b1.pdf";
     full := "";
     pages := [];
     page_offsets := [];
     total_chars := 0 |}.

Definition blank_data : DataDir := write no_data "b1" blank_metadata.

(** A text with a 30 day notice period and a fee in dollars, and one with
    a second, shorter period. *)
Definition fee_clause : string :=
  "Auto-renewal notice: 30 days. Late fee: 5 dollars.".

Definition short_notice_clause : string :=
  "Auto-renewal: cancel within 30 days, notice 10 days before.".

(** A text with a number of 4301 digits between a period of 30 days and
    one of 5 days. *)
Definition digits_4301 : string := Py.mul "1" 4301.

Definition overlong_clause : string :=
  "Auto-renewal notice: 30 days, then " ++ digits_4301
  ++ " days, then 5 days.".

Definition two_lines : string :=
  "Unlimited damages." ++ String Py.newline "Liability.".

Definition renews : LLMService.dict :=
  [("auto_renewal", LLMService.JBool true)].

(** The chunks of the contract for windows of 20 characters that overlap
    by 5. *)
Definition contract_chunks : list RAGService.Chunk :=
  [ RAGService.mkChunk "c1_page1_chunk0" "Alice agrees to pay " "c1" 1 0 20;
    RAGService.mkChunk "c1_page1_chunk15" " pay Bob $100." "c1" 1 15 29;
    RAGService.mkChunk "c1_page2_chunk0" "This agreement auto-" "c1" 2 30 50;
    RAGService.mkChunk "c1_page2_chunk15" "auto-renews every ye" "c1" 2 45 65;
    RAGService.mkChunk "c1_page2_chunk30" "ry year with 10 days" "c1" 2 60 80;
    RAGService.mkChunk "c1_page2_chunk45" " days notice." "c1" 2 75 88 ].

(** Field sets: an indemnity clause that names the company, and a
    liability cap without an amount. *)
Definition company_indemnity : LLMService.dict :=
  [("indemnity", LLMService.JStr "The Company is held harmless.")].

Definition cap_without_amount : LLMService.dict :=
  [("liability_cap",
    LLMService.JDict [("currency", LLMService.JStr "USD")])].

(** A client whose findings carry a character range, and one whose
    completions fail. *)
Definition located_finding : LLMService.Finding :=
  {| LLMService.severity := "low";
     LLMService.category := "termination";
     LLMService.description := "Termination at will";
     LLMService.evidence := "with 10 days notice";
     LLMService.char_range := Some (69, 88);
     LLMService.page := None |}.

Definition analyst : Http.OpenAI :=
  {| Http.extraction := fun _ => Some renews;
     Http.llm_audit := fun _ _ => [located_finding];
     Http.chat := fun _ _ => inl "Ten days." |}.

Definition unreachable : LLMService.Extraction := fun _ => None.

(** A client that reports an uncapped liability for every text. *)
Definition alarm : LLMService.Finding :=
  {| LLMService.severity := "high";
     LLMService.category := "liability";
     LLMService.description := "Liability is not capped";
     LLMService.evidence := "";
     LLMService.char_range := None;
     LLMService.page := None |}.

Definition alarmist : LLMService.Client := fun _ _ => [alarm].

(** The chunks of the contract for the windows of the ingest route, and a
    search that finds them. *)
Definition contract_index : list RAGService.Chunk :=
  [ RAGService.mkChunk "c1_page1_chunk0" "Alice agrees to pay Bob $100."
                       "c1" 1 0 29;
    RAGService.mkChunk "c1_page2_chunk0" renewal_clause "c1" 2 30 88 ].

Definition librarian : RAGService.Search :=
  fun _ _ _ => Some contract_index.

(** Uploads, an empty store and a supply of identifiers. *)
Definition upload_contract : IngestRouter.UploadFile :=
  {| IngestRouter.upload_filename := "contract.pdf";
     IngestRouter.content := contract |}.

Definition upload_notes : IngestRouter.UploadFile :=
  {| IngestRouter.upload_filename := "notes.txt";
     IngestRouter.content := short |}.

Definition empty_store : IngestRouter.Store :=
  {| IngestRouter.uploads := fun _ => None;
     IngestRouter.data := no_data;
     IngestRouter.drawn := 0 |}.

Definition uuids (n : nat) : string :=
  match n with
  | O => "c1"
  | S O => "s1"
  | _ => "b1"
  end.

(** Questions of an evaluation, the first one asked twice, and
    predictions for them. *)
Definition questions : list RunEval.GoldRow :=
  [ RunEval.mkGoldRow "q1" "thirty days";
    RunEval.mkGoldRow "q2" "Delaware";
    RunEval.mkGoldRow "q1" "10 days" ].

Definition predictions : list RunEval.PredRow :=
  [ RunEval.mkPredRow "q1" (Some "Notice is due 10 DAYS before renewal.");
    RunEval.mkPredRow "q3" None ].

(** A file whose only page is the clause with the long number. *)
Definition overlong : PdfFile :=
  {| pdfplumber := Pages [Some overlong_clause]; pypdf2 := Pages [] |}.

(** A file on which [pdfplumber] raises behind the first page. *)
Definition broken : PdfFile :=
  {| pdfplumber := Breaks [Some "ab"]; pypdf2 := Pages ["ab"; "cd"] |}.

Definition broken_metadata : Metadata :=
  {| document_id := "p1";
     filename := "p1.pdf";
     full := "ab" ++ String Py.newline
               ("ab" ++ String Py.newline ("cd" ++ String Py.newline ""));
     pages := [mkPage 1 "ab" 0 2; mkPage 1 "ab" 3 5; mkPage 2 "cd" 6 8];
     page_offsets := [0; 3; 6];
     total_chars := 9 |}.

End Sample.

(** * Vocabulary of further properties *)

Module Props.

Import PDFService RAGService.

(** The chunks the window loop emits for one page. *)
Definition page_chunks (document_id : string) (chunk_size step : Z)
  (page_info : Page) : list Chunk :=
  flat_map
    (fun k =>
       match window document_id page_info chunk_size (Z.of_nat k * step) with
       | Some c => [c]
       | None => []
       end)
    (seq 0 (Z.to_nat (Py.range_count (Py.len (text page_info)) step))).

(** A finding with the page the offset table gives for the start of its
    character range. *)
Definition located (table : list Z) (f : LLMService.Finding)
  : LLMService.Finding :=
  {| LLMService.severity := LLMService.severity f;
     LLMService.category := LLMService.category f;
     LLMService.description := LLMService.description f;
     LLMService.evidence := LLMService.evidence f;
     LLMService.char_range := LLMService.char_range f;
     LLMService.page :=
       match LLMService.char_range f with
       | Some (start, _) => Some (page_of table start)
       | None => None
       end |}.

(** A chunk that [index_document], called as the ingest route calls it,
    hands to the collection for some stored document. *)
Definition indexed (d : DataDir) (c : Chunk) : Prop :=
  exists document_id text chunks,
    index_document d document_id text 1000 200 = Ok chunks /\ In c chunks.

(** Metadata is stored for the document, under its own identifier. *)
Definition stored (d : DataDir) (id : string) : Prop :=
  exists md, d id = Some md /\ document_id md = id.

(** An upload the ingest route accepts: its name ends in ".pdf" and one of
    the two parsers reads it to the end. *)
Definition ingestible (file : IngestRouter.UploadFile) : Prop :=
  Py.endswith (IngestRouter.upload_filename file) ".pdf" = true /\
  exists a, run_parsers (IngestRouter.content file) = Ok a.

(** The test of the evaluation loop on one entry of the gold
    dictionary. *)
Definition hit (preds : list (string * RunEval.PredRow))
  (kv : string * RunEval.GoldRow) : bool :=
  Py.contains (Py.lower (RunEval.expected_substring (snd kv)))
    (Py.lower (RunEval.answer_of (RunEval.lookup preds (fst kv)))).

End Props.

(** * Facts about the builtins *)

Module PyFacts.

Import Py.

Lemma append_assoc (a b c : string) : (a ++ b) ++ c = a ++ b ++ c.
Proof. induction a as [|x a IH]; simpl; [reflexivity | now rewrite IH]. Qed.

Lemma append_empty_r (a : string) : a ++ "" = a.
Proof. induction a as [|x a IH]; simpl; [reflexivity | now rewrite IH]. Qed.

Lemma length_append (a b : string) :
  String.length (a ++ b) = (String.length a + String.length b)%nat.
Proof. induction a as [|x a IH]; simpl; [reflexivity | now rewrite IH]. Qed.

Lemma len_append (a b : string) : len (a ++ b) = len a + len b.
Proof. unfold len. rewrite length_append. lia. Qed.

Lemma len_nonneg (s : string) : 0 <= len s.
Proof. unfold len. lia. Qed.

Lemma len_String (c : ascii) (s : string) : len (String c s) = 1 + len s.
Proof. unfold len. cbn [String.length]. lia. Qed.

Lemma llen_cons {A : Type} (x : A) (l : list A) : llen (x :: l) = 1 + llen l.
Proof. unfold llen. cbn [List.length]. lia. Qed.

Lemma llen_app {A : Type} (l k : list A) : llen (l ++ k) = llen l + llen k.
Proof. unfold llen. rewrite length_app. lia. Qed.

Lemma llen_nonneg {A : Type} (l : list A) : 0 <= llen l.
Proof. unfold llen. lia. Qed.


Lemma take_drop (n : nat) (s : string) : take n s ++ drop n s = s.
Proof.
  revert s. induction n as [|n IH]; intros [|c s]; simpl; try reflexivity.
  now rewrite IH.
Qed.

Lemma length_take (n : nat) (s : string) :
  String.length (take n s) = Nat.min n (String.length s).
Proof.
  revert s. induction n as [|n IH]; intros [|c s]; simpl; try reflexivity.
  now rewrite IH.
Qed.

Lemma length_drop (n : nat) (s : string) :
  String.length (drop n s) = (String.length s - n)%nat.
Proof.
  revert s. induction n as [|n IH]; intros [|c s]; simpl; try reflexivity.
  now rewrite IH.
Qed.

Lemma drop_append_length (a b : string) : drop (String.length a) (a ++ b) = b.
Proof. induction a as [|x a IH]; simpl; [now destruct b | exact IH]. Qed.

Lemma take_append_length (a b : string) : take (String.length a) (a ++ b) = a.
Proof.
  induction a as [|x a IH]; simpl; [now destruct b | now rewrite IH].
Qed.

Lemma drop_append_le (n : nat) (a b : string) :
  (n <= String.length a)%nat -> drop n (a ++ b) = drop n a ++ b.
Proof.
  revert a. induction n as [|n IH]; intros [|x a] H; simpl in *;
    try reflexivity; try lia.
  apply IH. lia.
Qed.

Lemma take_append_le (n : nat) (a b : string) :
  (n <= String.length a)%nat -> take n (a ++ b) = take n a.
Proof.
  revert a. induction n as [|n IH]; intros [|x a] H; simpl in *;
    try reflexivity; try lia.
  rewrite IH; [reflexivity | lia].
Qed.

Lemma drop_drop (n m : nat) (s : string) :
  drop n (drop m s) = drop (m + n) s.
Proof.
  revert s. induction m as [|m IH]; intros s; simpl.
  - reflexivity.
  - destruct s as [|c s]; simpl; [now destruct n | apply IH].
Qed.

Lemma take_all (n : nat) (s : string) :
  (String.length s <= n)%nat -> take n s = s.
Proof.
  revert s. induction n as [|n IH]; intros [|c s] H; simpl in *;
    try reflexivity; try lia.
  rewrite IH; [reflexivity | lia].
Qed.

(** A slice with bounds inside the string is a [take] of a [drop]. *)
Lemma slice_inside (s : string) (a b : Z) :
  0 <= a -> a <= b -> b <= len s ->
  slice s a b = take (Z.to_nat (b - a)) (drop (Z.to_nat a) s).
Proof.
  intros Ha Hab Hb. unfold slice, bound.
  destruct (Z.ltb_spec a 0); [lia|].
  destruct (Z.ltb_spec b 0); [lia|].
  rewrite !Z.min_l by lia. reflexivity.
Qed.

(** A slice that starts inside the string starts at its lower bound and is
    as long as it is. *)
Lemma slice_from (s : string) (a b : Z) :
  0 <= a -> a <= len s ->
  slice s a b =
  take (String.length (slice s a b)) (drop (Z.to_nat a) s).
Proof.
  intros Ha Hal. unfold slice at 2.
  assert (Hlo : bound (len s) a = a).
  { unfold bound. destruct (Z.ltb_spec a 0); lia. }
  unfold slice. rewrite Hlo.
  set (k := Z.to_nat (bound (len s) b - a)).
  rewrite length_take.
  destruct (Nat.le_ge_cases k (String.length (drop (Z.to_nat a) s))) as [H|H].
  - now rewrite Nat.min_l.
  - rewrite Nat.min_r by exact H.
    rewrite (take_all k) by exact H. symmetry. now apply take_all.
Qed.

Lemma length_slice_from (s : string) (a b : Z) :
  0 <= a -> a <= len s -> a + len (slice s a b) <= len s.
Proof.
  intros Ha Hal. unfold slice.
  assert (Hlo : bound (len s) a = a).
  { unfold bound. destruct (Z.ltb_spec a 0); lia. }
  rewrite Hlo. unfold len in *. rewrite length_take, length_drop. lia.
Qed.

(** The window [take m (drop i t)] of a text [t] that sits in a longer
    string behind [pre] is the slice of the longer string at the shifted
    bounds. *)
Lemma slice_embedded (pre t post : string) (i m : nat) :
  (i + m <= String.length t)%nat ->
  slice (pre ++ t ++ post) (len pre + Z.of_nat i)
        (len pre + Z.of_nat i + Z.of_nat m)
  = take m (drop i t).
Proof.
  intros H.
  rewrite slice_inside.
  - replace (Z.to_nat (len pre + Z.of_nat i + Z.of_nat m
                       - (len pre + Z.of_nat i))) with m by lia.
    replace (Z.to_nat (len pre + Z.of_nat i))
      with (String.length pre + i)%nat by (unfold len; lia).
    rewrite <- drop_drop, drop_append_length.
    rewrite drop_append_le by lia.
    apply take_append_le. rewrite length_drop. lia.
  - unfold len. lia.
  - lia.
  - rewrite !len_append. unfold len. lia.
Qed.

(** **** Lower case and containment *)

Lemma lower_append (a b : string) : lower (a ++ b) = lower a ++ lower b.
Proof. induction a as [|x a IH]; simpl; [reflexivity | now rewrite IH]. Qed.

Lemma length_lower (s : string) : String.length (lower s) = String.length s.
Proof. induction s as [|x s IH]; simpl; [reflexivity | now rewrite IH]. Qed.

Lemma lower_take (n : nat) (s : string) : lower (take n s) = take n (lower s).
Proof.
  revert s. induction n as [|n IH]; intros [|c s]; simpl; try reflexivity.
  now rewrite IH.
Qed.

Lemma lower_drop (n : nat) (s : string) : lower (drop n s) = drop n (lower s).
Proof.
  revert s. induction n as [|n IH]; intros [|c s]; simpl; try reflexivity.
  apply IH.
Qed.

Lemma lower_char_idempotent (c : ascii) :
  lower_char (lower_char c) = lower_char c.
Proof. destruct c as [[] [] [] [] [] [] [] []]; reflexivity. Qed.

Lemma lower_idempotent (s : string) : lower (lower s) = lower s.
Proof.
  induction s as [|c s IH]; simpl; [reflexivity|].
  now rewrite lower_char_idempotent, IH.
Qed.

Lemma prefix_append (p r : string) : String.prefix p (p ++ r) = true.
Proof.
  induction p as [|c p IH]; simpl.
  - now destruct r.
  - destruct (ascii_dec c c); [exact IH | contradiction].
Qed.

Lemma prefix_split (p s : string) :
  String.prefix p s = true -> exists r, s = p ++ r.
Proof.
  revert s. induction p as [|c p IH]; intros s H.
  - now exists s.
  - destruct s as [|x s]; simpl in H; [discriminate|].
    destruct (ascii_dec c x) as [->|]; [|discriminate].
    destruct (IH _ H) as (r & ->). now exists r.
Qed.

Lemma contains_split (p s : string) :
  contains p s = true <-> exists a b, s = a ++ p ++ b.
Proof.
  split.
  - induction s as [|x s IH]; cbn [contains]; intros H.
    + rewrite orb_false_r in H. apply prefix_split in H as (r & E).
      now exists "", r.
    + apply orb_true_iff in H as [H|H].
      * apply prefix_split in H as (r & E). now exists "", r.
      * destruct (IH H) as (a & b & ->). now exists (String x a), b.
  - intros (a & b & ->). induction a as [|x a IH].
    + change ("" ++ p ++ b) with (p ++ b).
      destruct (p ++ b) eqn:E; cbn [contains]; rewrite <- E, prefix_append;
        reflexivity.
    + change (String x a ++ p ++ b) with (String x (a ++ p ++ b)).
      cbn [contains]. rewrite IH. apply orb_true_r.
Qed.

End PyFacts.

(** * Text extraction and the offset resolver *)

Module PDFFacts.

Import Py PyFacts PDFService Spec.

(** Weakens a [Forall] hypothesis to the [Forall] of the goal, pointwise by
    linear arithmetic. *)
Ltac forall_by H :=
  eapply Forall_impl; [|exact H]; simpl; intros;
  rewrite ?llen_cons;
  repeat match goal with
         | p : Page |- _ =>
             lazymatch goal with
             | _ : 0 <= len (text p) |- _ => fail
             | _ => pose proof (len_nonneg (text p))
             end
         end;
  lia.

Lemma sum_len_app (ps qs : list Page) :
  sum_len (ps ++ qs) = sum_len ps + sum_len qs.
Proof. induction ps as [|p ps IH]; simpl; lia. Qed.

Lemma flat_app (ps qs : list Page) : flat (ps ++ qs) = flat ps ++ flat qs.
Proof.
  induction ps as [|p ps IH]; simpl; [reflexivity|].
  now rewrite IH, append_assoc.
Qed.

Lemma len_flat (ps : list Page) : len (flat ps) = sum_len ps + llen ps.
Proof.
  induction ps as [|p ps IH]; simpl; [reflexivity|].
  rewrite len_append, len_String, IH, llen_cons. lia.
Qed.

Lemma laid_out_app (s : Z) (ps qs : list Page) :
  laid_out s (ps ++ qs) <->
  laid_out s ps /\ laid_out (s + sum_len ps + llen ps) qs.
Proof.
  revert s. induction ps as [|p ps IH]; intros s; simpl.
  - change (llen (@nil Page)) with 0.
    replace (s + 0 + 0) with s by lia. tauto.
  - rewrite IH, llen_cons.
    split.
    + intros (H1 & H2 & H3 & H4). repeat split; try assumption.
      replace (s + (len (text p) + sum_len ps) + (1 + llen ps))
        with (char_end p + 1 + sum_len ps + llen ps) by lia.
      exact H4.
    + intros ((H1 & H2 & H3) & H4). repeat split; try assumption.
      replace (char_end p + 1 + sum_len ps + llen ps)
        with (s + (len (text p) + sum_len ps) + (1 + llen ps)) by lia.
      exact H4.
Qed.

Lemma consistent_acc0 : consistent acc0.
Proof. unfold consistent, acc0; simpl. repeat split. Qed.

Lemma consistent_add_page (a : Acc) (n : Z) (t : string) :
  consistent a -> consistent (add_page a n t).
Proof.
  intros (L & F & C & O). unfold consistent, add_page; simpl.
  repeat split.
  - apply laid_out_app. split; [exact L|]. simpl. rewrite <- C.
    repeat split; lia.
  - rewrite flat_app, F. reflexivity.
  - rewrite sum_len_app, llen_app, C. simpl sum_len.
    change (llen [_]) with 1. lia.
  - rewrite map_app, O. reflexivity.
Qed.

(** Induction principle of the page loop. *)
Lemma page_loop_preserves (P : Acc -> Prop) :
  (forall a n t, P a -> P (add_page a n t)) ->
  forall ts n a, P a -> P (page_loop n ts a).
Proof.
  intros step ts. induction ts as [|t ts IH]; intros n a Pa; simpl.
  - exact Pa.
  - apply IH, step, Pa.
Qed.

Lemma run_parsers_preserves (P : Acc -> Prop) (f : PdfFile) (a : Acc) :
  P acc0 ->
  (forall a n t, P a -> P (add_page a n t)) ->
  run_parsers f = Ok a -> P a.
Proof.
  intros P0 step. unfold run_parsers.
  destruct (pdfplumber f) as [ts|ts]; simpl.
  - intros [= <-]. now apply page_loop_preserves.
  - destruct (pypdf2 f) as [us|us]; [|discriminate].
    intros [= <-]. apply page_loop_preserves; [exact step|].
    now apply page_loop_preserves.
Qed.

Lemma run_parsers_consistent (f : PdfFile) (a : Acc) :
  run_parsers f = Ok a -> consistent a.
Proof.
  apply run_parsers_preserves;
    [exact consistent_acc0 | exact consistent_add_page].
Qed.

(** What a successful [extract_text] leaves behind. *)
Lemma extract_text_ok (up : Uploads) (d d' : DataDir) (id : string)
  (md : Metadata) :
  extract_text up d id = (Ok md, d') ->
  exists f a,
    up id = Some f /\ run_parsers f = Ok a /\
    md = metadata_of id a /\ d' = write d id md.
Proof.
  unfold extract_text. destruct (up id) as [f|]; [|discriminate].
  destruct (run_parsers f) as [a|e] eqn:R; [|discriminate].
  intros [= <- <-]. now exists f, a.
Qed.

Lemma get_metadata_write (d : DataDir) (id : string) (md : Metadata) :
  get_metadata (write d id md) id = Ok md.
Proof. unfold get_metadata, write. now rewrite String.eqb_refl. Qed.

(** **** The offset resolver on a sorted table *)

Lemma scan_offsets_none (all rest : list Z) (i : nat) (pos : Z) :
  Forall (fun o => pos < o) rest -> scan_offsets all i rest pos = None.
Proof.
  revert i. induction rest as [|o rest IH]; intros i H; simpl.
  - reflexivity.
  - inversion H as [|? ? Ho Hrest]; subst.
    destruct (Z.leb_spec o pos); [lia|].
    rewrite !andb_false_r. simpl. now apply IH.
Qed.

Lemma count_le_none (l : list Z) (pos : Z) :
  Forall (fun o => pos < o) l -> count_le l pos = 0.
Proof.
  unfold count_le. induction 1 as [|o l Ho _ IH]; simpl.
  - reflexivity.
  - destruct (Z.leb_spec o pos); [lia | exact IH].
Qed.

Lemma count_le_cons (o : Z) (l : list Z) (pos : Z) :
  count_le (o :: l) pos = (if o <=? pos then 1 else 0) + count_le l pos.
Proof.
  unfold count_le. simpl. destruct (o <=? pos).
  - now rewrite llen_cons.
  - lia.
Qed.

Lemma count_le_nonneg (l : list Z) (pos : Z) : 0 <= count_le l pos.
Proof. apply llen_nonneg. Qed.

Lemma count_le_mono (l : list Z) (a b : Z) :
  a <= b -> count_le l a <= count_le l b.
Proof.
  intros Hab. induction l as [|o l IH].
  - reflexivity.
  - rewrite !count_le_cons.
    destruct (Z.leb_spec o a), (Z.leb_spec o b); lia.
Qed.

Lemma scan_offsets_cons (all rest : list Z) (i : nat) (o pos : Z) :
  scan_offsets all i (o :: rest) pos =
  if (Z.of_nat i + 1 <? llen all) && (o <=? pos)
     && (pos <? nth (S i) all 0)
  then Some (Z.of_nat i + 1)
  else if (Z.of_nat i + 1 =? llen all) && (o <=? pos)
  then Some (Z.of_nat i + 1)
  else scan_offsets all (S i) rest pos.
Proof. reflexivity. Qed.

Lemma scan_offsets_sorted (rest pre : list Z) (o pos : Z) :
  StronglySorted Z.le (o :: rest) -> o <= pos ->
  scan_offsets (pre ++ o :: rest) (List.length pre) (o :: rest) pos
  = Some (llen pre + count_le (o :: rest) pos).
Proof.
  revert pre o. induction rest as [|o' rest IH]; intros pre o Srt Ho.
  - rewrite scan_offsets_cons, llen_app, llen_cons.
    change (llen (@nil Z)) with 0. fold (llen pre).
    destruct (Z.ltb_spec (llen pre + 1) (llen pre + (1 + 0))); [lia|].
    cbn [andb].
    destruct (Z.eqb_spec (llen pre + 1) (llen pre + (1 + 0))); [|lia].
    destruct (Z.leb_spec o pos); [|lia]. cbn [andb].
    rewrite count_le_cons. destruct (Z.leb_spec o pos); [|lia].
    reflexivity.
  - rewrite scan_offsets_cons, llen_app, !llen_cons. fold (llen pre).
    assert (N : nth (S (List.length pre)) (pre ++ o :: o' :: rest) 0 = o').
    { rewrite app_nth2 by lia.
      replace (S (List.length pre) - List.length pre)%nat with 1%nat by lia.
      reflexivity. }
    rewrite N.
    pose proof (llen_nonneg rest) as Hr.
    destruct (Z.ltb_spec (llen pre + 1) (llen pre + (1 + (1 + llen rest))));
      [|lia].
    destruct (Z.leb_spec o pos); [|lia]. cbn [andb].
    inversion Srt as [|? ? S' F]; subst.
    destruct (Z.ltb_spec pos o') as [Hlt|Hge].
    + rewrite count_le_cons. destruct (Z.leb_spec o pos); [|lia].
      rewrite count_le_none; [reflexivity|].
      constructor; [exact Hlt|].
      inversion S' as [|? ? _ F']; subst.
      forall_by F'.
    + destruct (Z.eqb_spec (llen pre + 1)
                  (llen pre + (1 + (1 + llen rest)))); [lia|].
      cbn [andb].
      replace (pre ++ o :: o' :: rest)%list
        with ((pre ++ [o]) ++ o' :: rest)%list
        by (rewrite <- app_assoc; reflexivity).
      replace (S (List.length pre)) with (List.length (pre ++ [o]))
        by (rewrite length_app; simpl; lia).
      rewrite IH by assumption.
      rewrite llen_app, (count_le_cons o).
      change (llen [o]) with 1.
      destruct (Z.leb_spec o pos); [|lia]. f_equal. lia.
Qed.

(** On a sorted table the resolver returns the number of entries that are
    at most [char_pos], and 1 when there is none. *)
Lemma page_of_sorted (table : list Z) (pos : Z) :
  StronglySorted Z.le table ->
  page_of table pos = Z.max 1 (count_le table pos).
Proof.
  intros Srt. unfold page_of. destruct table as [|o rest].
  - reflexivity.
  - destruct (Z.leb_spec o pos) as [Ho|Ho].
    + pose proof (scan_offsets_sorted rest [] o pos Srt Ho) as E.
      cbn [app List.length] in E. rewrite E.
      change (llen (@nil Z)) with 0.
      rewrite count_le_cons. destruct (Z.leb_spec o pos); [|lia].
      pose proof (count_le_nonneg rest pos). lia.
    + rewrite scan_offsets_none, count_le_none; [reflexivity| |].
      * constructor; [exact Ho|].
        inversion Srt as [|? ? _ F]; subst.
        forall_by F.
      * constructor; [exact Ho|].
        inversion Srt as [|? ? _ F]; subst.
        forall_by F.
Qed.

(** **** Tables built by [extract_text] *)

Lemma laid_out_lower (s : Z) (ps : list Page) :
  laid_out s ps -> Forall (fun p => s <= char_start p) ps.
Proof.
  revert s. induction ps as [|p ps IH]; intros s H; constructor.
  - destruct H as (H1 & _). lia.
  - destruct H as (H1 & H2 & H3). apply IH in H3.
    forall_by H3.
Qed.

Lemma laid_out_sorted (s : Z) (ps : list Page) :
  laid_out s ps -> StronglySorted Z.le (map char_start ps).
Proof.
  revert s. induction ps as [|p ps IH]; intros s H; simpl.
  - constructor.
  - destruct H as (H1 & H2 & H3). constructor.
    + eapply IH, H3.
    + apply Forall_map. apply laid_out_lower in H3.
      forall_by H3.
Qed.

Lemma laid_out_upper (s : Z) (ps : list Page) :
  laid_out s ps ->
  Forall (fun p => char_end p < s + sum_len ps + llen ps) ps.
Proof.
  revert s. induction ps as [|p ps IH]; intros s H; constructor.
  - destruct H as (H1 & H2 & _). simpl. rewrite llen_cons.
    assert (0 <= sum_len ps).
    { clear. induction ps as [|q ps IH]; simpl;
        [lia | pose proof (len_nonneg (text q)); lia]. }
    pose proof (llen_nonneg ps). lia.
  - destruct H as (H1 & H2 & H3). apply IH in H3.
    forall_by H3.
Qed.

(** Entries at most [pos], when [pos] lies on the page at index [i] or on
    the separator behind it (or anywhere behind the start of the last
    page). *)
Lemma count_le_on_page (ps : list Page) (s : Z) (i : nat) (p : Page)
  (pos : Z) :
  laid_out s ps -> nth_error ps i = Some p -> char_start p <= pos ->
  pos <= char_end p \/ S i = List.length ps ->
  count_le (map char_start ps) pos = Z.of_nat i + 1.
Proof.
  revert s i. induction ps as [|q ps IH]; intros s i L N Hs He.
  - destruct i; discriminate.
  - destruct L as (L1 & L2 & L3). simpl map. rewrite count_le_cons.
    destruct i as [|i]; simpl in N.
    + injection N as ->.
      destruct (Z.leb_spec (char_start p) pos); [|lia].
      rewrite count_le_none; [reflexivity|].
      apply Forall_map. destruct He as [He|He].
      * apply laid_out_lower in L3.
        forall_by L3.
      * simpl in He. destruct ps; [constructor | discriminate].
    + pose proof (laid_out_lower _ _ L3) as Low.
      assert (In p ps) as Hin by (eapply nth_error_In; exact N).
      rewrite Forall_forall in Low. specialize (Low p Hin).
      pose proof (len_nonneg (text q)).
      destruct (Z.leb_spec (char_start q) pos); [|lia].
      rewrite (IH _ i L3 N Hs).
      * lia.
      * destruct He as [He|He]; [now left | right; simpl in He; lia].
Qed.




Lemma page_loop_numbered (ts : list string) (n : Z) (a : Acc) :
  numbered (text_by_page a) -> n = llen (text_by_page a) + 1 ->
  numbered (text_by_page (page_loop n ts a)).
Proof.
  revert n a. induction ts as [|t ts IH]; intros n a Hn E; simpl.
  - exact Hn.
  - apply IH.
    + intros i p. simpl.
      destruct (Nat.lt_ge_cases i (List.length (text_by_page a))) as [Hi|Hi].
      * rewrite nth_error_app1 by exact Hi. apply Hn.
      * rewrite nth_error_app2 by exact Hi.
        destruct (i - List.length (text_by_page a))%nat as [|k] eqn:K.
        -- simpl. intros [= <-]. simpl. unfold llen in E. lia.
        -- simpl. destruct k; discriminate.
    + simpl. rewrite llen_app. change (llen [_]) with 1. lia.
Qed.

Lemma run_parsers_numbered (f : PdfFile) (a : Acc) :
  one_pass f -> run_parsers f = Ok a -> numbered (text_by_page a).
Proof.
  unfold one_pass, run_parsers.
  assert (N0 : numbered (text_by_page acc0)).
  { intros i p. destruct i; discriminate. }
  destruct (pdfplumber f) as [ts|ts]; simpl.
  - intros _ [= <-]. now apply page_loop_numbered.
  - intros ->. destruct (pypdf2 f) as [us|us]; [|discriminate].
    intros [= <-]. now apply page_loop_numbered.
Qed.

(** The resolver on a document that [extract_text] has stored. *)
Lemma resolver_after_extract (up : Uploads) (d d' : DataDir) (id : string)
  (md : Metadata) (pos : Z) :
  extract_text up d id = (Ok md, d') ->
  laid_out 0 (pages md) /\
  page_offsets md = map char_start (pages md) /\
  total_chars md = sum_len (pages md) + llen (pages md) /\
  full md = flat (pages md) /\
  get_page_for_char_position d' id pos
  = Ok (Z.max 1 (count_le (page_offsets md) pos)).
Proof.
  intros E. apply extract_text_ok in E as (f & a & Hf & R & -> & ->).
  destruct (run_parsers_consistent f a R) as (L & F & C & O).
  unfold get_page_for_char_position. rewrite get_metadata_write.
  simpl. rewrite F, len_flat. repeat split; try assumption.
  rewrite page_of_sorted; [reflexivity|].
  rewrite O. eapply laid_out_sorted, L.
Qed.

(** **** Length of the full text *)

(** C3, as stated, fails: for the one page file "ab" the stored text is
    "ab" followed by the separator, of length 3, whereas the sum of the page
    lengths plus (number of pages - 1) is 2. *)
Lemma full_text_length_joined_fails :
  extract_text (Sample.file_on_disk "s1" Sample.short) Sample.no_data "s1"
  = (Ok Sample.short_metadata,
     write Sample.no_data "s1" Sample.short_metadata) /\
  pages Sample.short_metadata <> [] /\
  len (full Sample.short_metadata)
  <> sum_len (pages Sample.short_metadata)
     + (llen (pages Sample.short_metadata) - 1).
Proof.
  split; [reflexivity|]. split; [discriminate|].
  vm_compute. discriminate.
Qed.

(** C3 (amended): for every document produced by [extract_text] the length
    of the stored full text is the sum of the page text lengths plus the
    number of pages (each page text, the last one too, is followed by one
    separator character), and [total_chars] is the length of the full
    text. *)
Theorem full_text_length (up : Uploads) (d d' : DataDir) (id : string)
  (md : Metadata) :
  extract_text up d id = (Ok md, d') ->
  len (full md) = sum_len (pages md) + llen (pages md) /\
  total_chars md = len (full md).
Proof.
  intros E. apply extract_text_ok in E as (f & a & Hf & R & -> & _).
  destruct (run_parsers_consistent f a R) as (L & F & C & O).
  simpl. rewrite F, len_flat. split; reflexivity.
Qed.

Lemma full_text_length_witness :
  extract_text (Sample.file_on_disk "c1" Sample.contract) Sample.no_data "c1"
  = (Ok Sample.contract_metadata, Sample.contract_data) /\
  len (full Sample.contract_metadata)
  = sum_len (pages Sample.contract_metadata)
    + llen (pages Sample.contract_metadata) /\
  total_chars Sample.contract_metadata = len (full Sample.contract_metadata).
Proof.
  split; [reflexivity|].
  apply (full_text_length (Sample.file_on_disk "c1" Sample.contract)
           Sample.no_data Sample.contract_data "c1").
  reflexivity.
Defined.

(** **** The offset resolver *)




(** Why the page's own number needs the condition on the first parser:
    when [pdfplumber] raises behind the first page, the fallback adds all
    pages again behind the one already there, numbered from 1.  Position 3
    then lies on the second entry, and the resolver returns 2, while that
    entry carries the number 1. *)
Example fallback_after_partial_pass :
  run_parsers {| pdfplumber := Breaks [Some "ab"];
                 pypdf2 := Pages ["ab"; "cd"] |}
  = Ok {| text_by_page :=
            [mkPage 1 "ab" 0 2; mkPage 1 "ab" 3 5; mkPage 2 "cd" 6 8];
          full_text := "ab" ++ String newline
                         ("ab" ++ String newline ("cd" ++ String newline ""));
          char_offset := 9;
          offsets := [0; 3; 6] |} /\
  page_of [0; 3; 6] 3 = 2.
Proof. split; reflexivity. Qed.

(** The resolver is monotone on every sorted table. *)
Lemma page_of_monotone (table : list Z) (a b : Z) :
  StronglySorted Z.le table -> a <= b -> page_of table a <= page_of table b.
Proof.
  intros Srt Hab. rewrite !page_of_sorted by exact Srt.
  pose proof (count_le_mono table a b Hab). lia.
Qed.

(** Sortedness is needed: on a table that is not sorted a later position
    can resolve to an earlier entry. *)
Example page_of_unsorted :
  page_of [5; 100; 0; 3] 1 = 3 /\ page_of [5; 100; 0; 3] 6 = 1.
Proof. split; reflexivity. Qed.

(** C7: for every stored document and character positions [a <= b] the
    page number returned for [a] is at most the one returned for [b]. *)
Theorem page_for_offset_monotone (up : Uploads) (d d' : DataDir)
  (id : string) (md : Metadata) (a b : Z) :
  extract_text up d id = (Ok md, d') -> a <= b ->
  exists na nb,
    get_page_for_char_position d' id a = Ok na /\
    get_page_for_char_position d' id b = Ok nb /\
    na <= nb.
Proof.
  intros E Hab.
  destruct (resolver_after_extract up d d' id md a E) as (_ & _ & _ & _ & Ga).
  destruct (resolver_after_extract up d d' id md b E) as (_ & _ & _ & _ & Gb).
  eexists _, _. split; [exact Ga|]. split; [exact Gb|].
  pose proof (count_le_mono (page_offsets md) a b Hab). lia.
Qed.

Lemma page_for_offset_monotone_witness :
  extract_text (Sample.file_on_disk "c1" Sample.contract) Sample.no_data "c1"
  = (Ok Sample.contract_metadata, Sample.contract_data) /\
  29 <= 30 /\
  exists na nb,
    get_page_for_char_position Sample.contract_data "c1" 29 = Ok na /\
    get_page_for_char_position Sample.contract_data "c1" 30 = Ok nb /\
    na <= nb.
Proof.
  split; [reflexivity|]. split; [discriminate|].
  apply (page_for_offset_monotone
           (Sample.file_on_disk "c1" Sample.contract)
           Sample.no_data Sample.contract_data "c1" Sample.contract_metadata).
  - reflexivity.
  - discriminate.
Defined.

(** C9: when the stored metadata of a document has an empty offset table,
    the resolver returns page 1 for every character position; if the
    metadata was produced by [extract_text], the document has no page at
    all, so none with that number. *)
Theorem empty_table_gives_page_1 (d : DataDir) (id : string) (md : Metadata)
  (char_pos : Z) :
  d id = Some md -> page_offsets md = [] ->
  get_page_for_char_position d id char_pos = Ok 1 /\
  (forall up d0, extract_text up d0 id = (Ok md, d) -> pages md = []).
Proof.
  intros Hd Hoff. split.
  - unfold get_page_for_char_position, get_metadata.
    rewrite Hd, Hoff. reflexivity.
  - intros up d0 E.
    destruct (resolver_after_extract up d0 d id md 0 E) as (_ & O & _).
    rewrite Hoff in O. symmetry in O. now apply map_eq_nil in O.
Qed.

Lemma empty_table_gives_page_1_witness :
  Sample.blank_data "b1" = Some Sample.blank_metadata /\
  page_offsets Sample.blank_metadata = [] /\
  get_page_for_char_position Sample.blank_data "b1" 7 = Ok 1 /\
  (forall up d0,
      extract_text up d0 "b1" = (Ok Sample.blank_metadata, Sample.blank_data)
      -> pages Sample.blank_metadata = []).
Proof.
  split; [reflexivity|]. split; [reflexivity|].
  apply (empty_table_gives_page_1 Sample.blank_data "b1"
           Sample.blank_metadata 7); reflexivity.
Defined.

End PDFFacts.

(** * The chunking loop *)

Module RAGFacts.

Import Py PyFacts PDFService RAGService Spec PDFFacts.

Lemma window_loop_In (id : string) (p : Page) (size : Z) (starts : list Z)
  (acc : list Chunk) (c : Chunk) :
  In c (window_loop id p size starts acc) ->
  In c acc \/ exists i, In i starts /\ window id p size i = Some c.
Proof.
  revert acc. induction starts as [|i starts IH]; intros acc H; simpl in H.
  - now left.
  - destruct (window id p size i) as [c'|] eqn:W.
    + apply IH in H as [H|(j & Hj & Wj)].
      * apply in_app_or in H as [H|[<-|[]]].
        -- now left.
        -- right. exists i. split; [now left | exact W].
      * right. exists j. split; [now right | exact Wj].
    + apply IH in H as [H|(j & Hj & Wj)].
      * now left.
      * right. exists j. split; [now right | exact Wj].
Qed.

Lemma chunk_pages_In (id : string) (ps : list Page) (size overlap : Z)
  (acc chunks : list Chunk) (c : Chunk) :
  chunk_pages id ps size overlap acc = Ok chunks -> In c chunks ->
  In c acc \/
  exists p starts i,
    In p ps /\ range0 (len (text p)) (size - overlap) = Ok starts /\
    In i starts /\ window id p size i = Some c.
Proof.
  revert acc. induction ps as [|p ps IH]; intros acc H Hc; simpl in H.
  - injection H as <-. now left.
  - destruct (range0 (len (text p)) (size - overlap)) as [starts|e] eqn:R;
      [|discriminate].
    destruct (IH _ H Hc) as [Hin|(q & st & i & Hq & Rq & Hi & W)].
    + apply window_loop_In in Hin as [Hin|(i & Hi & W)].
      * now left.
      * right. exists p, starts, i. repeat split; auto. now left.
    + right. exists q, st, i. repeat split; auto. now right.
Qed.

(** With a non-zero step the page loop runs to its end. *)
Lemma chunk_pages_total (id : string) (ps : list Page) (size overlap : Z)
  (acc : list Chunk) :
  size - overlap <> 0 ->
  exists chunks, chunk_pages id ps size overlap acc = Ok chunks.
Proof.
  intros Hstep. revert acc. induction ps as [|p ps IH]; intros acc; simpl.
  - now exists acc.
  - unfold range0. destruct (Z.eqb_spec (size - overlap) 0); [contradiction|].
    apply IH.
Qed.

(** The window starts produced by a positive step lie on the page. *)
Lemma range0_bounds (stop step : Z) (starts : list Z) (i : Z) :
  0 < step -> range0 stop step = Ok starts -> In i starts -> 0 <= i < stop.
Proof.
  intros Hstep. unfold range0, range_count.
  destruct (Z.eqb_spec step 0); [lia|].
  destruct (Z.ltb_spec 0 step); [|lia].
  intros [= <-] Hin. apply in_map_iff in Hin as (k & <- & Hk).
  apply in_seq in Hk.
  assert (Hc : Z.of_nat k < (stop + step - 1) / step) by lia.
  pose proof (Z.mul_div_le (stop + step - 1) step ltac:(lia)).
  nia.
Qed.

(** A page of a laid out list sits in the flat text at its [char_start]. *)
Lemma laid_out_embedded (s : Z) (ps : list Page) (p : Page) :
  laid_out s ps -> In p ps ->
  exists pre post,
    flat ps = pre ++ text p ++ post /\ len pre = char_start p - s /\
    char_end p = char_start p + len (text p).
Proof.
  revert s. induction ps as [|q ps IH]; intros s L Hin; [destruct Hin|].
  destruct L as (L1 & L2 & L3). destruct Hin as [->|Hin].
  - exists "", (String newline "" ++ flat ps). simpl.
    repeat split; [| lia]. change (len "") with 0. lia.
  - destruct (IH _ L3 Hin) as (pre & post & F & Hpre & Hend).
    exists (text q ++ String newline "" ++ pre), post. simpl.
    rewrite F. repeat split.
    + now rewrite !append_assoc.
    + rewrite len_append, len_String, Hpre. lia.
    + exact Hend.
Qed.

(** One window of a page that sits in the full text. *)
Lemma window_round_trip (id : string) (p : Page) (size i : Z) (c : Chunk)
  (pre post : string) :
  window id p size i = Some c -> 0 <= i < len (text p) ->
  len pre = char_start p -> char_end p = char_start p + len (text p) ->
  chunk c = slice (pre ++ text p ++ post) (chunk_start c) (chunk_end c) /\
  chunk_end c - chunk_start c = len (chunk c) /\
  chunk_page c = page p /\
  char_start p <= chunk_start c /\ chunk_end c <= char_end p.
Proof.
  unfold window. intros W Hi Hpre Hend.
  destruct (negb _); [discriminate|]. injection W as <-. cbn.
  set (w := slice (text p) i (i + size)).
  pose proof (length_slice_from (text p) i (i + size) ltac:(lia) ltac:(lia))
    as Hfit.
  fold w in Hfit.
  rewrite Z.min_l by lia.
  repeat split; try lia.
  rewrite <- Hpre.
  replace (len w) with (Z.of_nat (String.length w)) by reflexivity.
  replace (len pre + i) with (len pre + Z.of_nat (Z.to_nat i)) by lia.
  rewrite slice_embedded.
  - unfold w at 1. apply slice_from; lia.
  - unfold len in Hfit. lia.
Qed.

(** C5: for every document stored by [extract_text] and every stride
    [chunk_size - chunk_overlap >= 1], [index_document] reaches the end of
    its chunking loop, and every chunk it emits satisfies: its text is
    [full_text[char_start:char_end]], [char_end - char_start] is the length
    of its text, and its range lies within the range of a page of the
    document that carries the chunk's page number. *)
Theorem chunk_round_trip (up : Uploads) (d d' : DataDir) (id text : string)
  (md : Metadata) (chunk_size chunk_overlap : Z) :
  extract_text up d id = (Ok md, d') -> chunk_overlap < chunk_size ->
  exists chunks,
    index_document d' id text chunk_size chunk_overlap = Ok chunks /\
    forall c, In c chunks ->
      chunk c = slice (full md) (chunk_start c) (chunk_end c) /\
      chunk_end c - chunk_start c = len (chunk c) /\
      exists p,
        In p (pages md) /\ chunk_page c = page p /\
        char_start p <= chunk_start c /\ chunk_end c <= char_end p.
Proof.
  intros E Hlt.
  destruct (resolver_after_extract up d d' id md 0 E) as (L & _ & _ & F & _).
  apply extract_text_ok in E as (f & a & _ & _ & _ & ->).
  unfold index_document. rewrite get_metadata_write.
  destruct (chunk_pages_total id (pages md) chunk_size chunk_overlap [])
    as (chunks & C); [lia|].
  exists chunks. split; [exact C|]. intros c Hc.
  destruct (chunk_pages_In _ _ _ _ _ _ c C Hc)
    as [[]|(p & starts & i & Hp & R & Hi & W)].
  destruct (laid_out_embedded 0 (pages md) p L Hp)
    as (pre & post & Fl & Hpre & Hend).
  assert (Hb : 0 <= i < len (PDFService.text p)).
  { apply (range0_bounds _ (chunk_size - chunk_overlap) starts);
      [lia | exact R | exact Hi]. }
  destruct (window_round_trip id p chunk_size i c pre post W Hb
              ltac:(lia) Hend) as (H1 & H2 & H3 & H4 & H5).
  rewrite F, Fl. split; [exact H1|]. split; [exact H2|].
  exists p. auto.
Qed.

Lemma chunk_round_trip_witness :
  extract_text (Sample.file_on_disk "c1" Sample.contract) Sample.no_data "c1"
  = (Ok Sample.contract_metadata, Sample.contract_data) /\
  200 < 1000 /\
  exists chunks,
    index_document Sample.contract_data "c1"
      (full Sample.contract_metadata) 1000 200 = Ok chunks /\
    forall c, In c chunks ->
      chunk c = slice (full Sample.contract_metadata)
                      (chunk_start c) (chunk_end c) /\
      chunk_end c - chunk_start c = len (chunk c) /\
      exists p,
        In p (pages Sample.contract_metadata) /\ chunk_page c = page p /\
        char_start p <= chunk_start c /\ chunk_end c <= char_end p.
Proof.
  split; [reflexivity|]. split; [reflexivity|].
  apply (chunk_round_trip (Sample.file_on_disk "c1" Sample.contract)
           Sample.no_data Sample.contract_data "c1"
           (full Sample.contract_metadata) Sample.contract_metadata
           1000 200); reflexivity.
Defined.

(** **** Strides below 1 *)

Lemma range0_backwards (stop step : Z) :
  0 <= stop -> step < 0 -> range0 stop step = Ok [].
Proof.
  intros Hstop Hstep. unfold range0, range_count.
  destruct (Z.eqb_spec step 0); [lia|].
  destruct (Z.ltb_spec 0 step); [lia|].
  assert (Hq : (- stop - step - 1) / - step < 1).
  { apply Z.div_lt_upper_bound; lia. }
  replace (Z.to_nat ((- stop - step - 1) / - step)) with 0%nat by lia.
  reflexivity.
Qed.

Lemma chunk_pages_backwards (id : string) (ps : list Page)
  (size overlap : Z) (acc : list Chunk) :
  size - overlap < 0 -> chunk_pages id ps size overlap acc = Ok acc.
Proof.
  intros Hstep. induction ps as [|p ps IH]; simpl; [reflexivity|].
  rewrite range0_backwards; [exact IH | apply len_nonneg | exact Hstep].
Qed.

(** C4, as stated, fails: the settings accept [chunk_size = 100] with
    [chunk_overlap = 200], and with these values [index_document] raises
    nothing and hands on an empty list of chunks; with
    [chunk_overlap = chunk_size = 100] it raises [ValueError]. *)
Lemma config_error_never_raised :
  (exists s,
      Config.Settings_init None None None None (Some 100) (Some 200) = Ok s /\
      Config.chunk_size s = 100 /\ Config.chunk_overlap s = 200) /\
  index_document Sample.contract_data "c1"
    (full Sample.contract_metadata) 100 200 = Ok [] /\
  index_document Sample.contract_data "c1"
    (full Sample.contract_metadata) 100 100 = Raise ValueError.
Proof.
  split; [eexists; split; [reflexivity | split; reflexivity]|].
  split; reflexivity.
Qed.

(** C4 (amended): the settings accept every pair of integers, also with
    [chunk_overlap >= chunk_size].  For such a pair the window loop of
    [index_document] runs on no page (its [range] raises or is empty) and
    no chunk is emitted: with [chunk_overlap = chunk_size] and at least one
    page, [index_document] fails with [ValueError]; with
    [chunk_overlap > chunk_size], or without pages, it reaches the end of
    the chunking loop with an empty list of chunks. *)
Theorem stride_below_one (d : DataDir) (id text : string) (md : Metadata)
  (chunk_size chunk_overlap : Z) :
  d id = Some md -> chunk_size <= chunk_overlap ->
  (forall k w u dd, exists s,
      Config.Settings_init k w u dd (Some chunk_size) (Some chunk_overlap)
      = Ok s /\
      Config.chunk_size s = chunk_size /\
      Config.chunk_overlap s = chunk_overlap) /\
  (forall p, In p (pages md) ->
      range0 (len (PDFService.text p)) (chunk_size - chunk_overlap)
      = Raise ValueError \/
      range0 (len (PDFService.text p)) (chunk_size - chunk_overlap)
      = Ok []) /\
  (chunk_overlap = chunk_size -> pages md <> [] ->
   index_document d id text chunk_size chunk_overlap = Raise ValueError) /\
  (chunk_size < chunk_overlap \/ pages md = [] ->
   index_document d id text chunk_size chunk_overlap = Ok []).
Proof.
  intros Hd Hle. unfold index_document, get_metadata. rewrite Hd.
  split; [|split; [|split]].
  - intros k w u dd. eexists. split; [reflexivity|]. split; reflexivity.
  - intros p _. destruct (Z.eq_dec chunk_size chunk_overlap) as [->|Hne].
    + left. unfold range0. now rewrite Z.sub_diag.
    + right. apply range0_backwards; [apply len_nonneg | lia].
  - intros -> Hne. destruct (pages md) as [|p ps]; [contradiction|].
    simpl. unfold range0. now rewrite Z.sub_diag.
  - intros [Hlt| ->].
    + apply chunk_pages_backwards. lia.
    + reflexivity.
Qed.

Lemma stride_below_one_witness :
  Sample.contract_data "c1" = Some Sample.contract_metadata /\
  100 <= 200 /\
  (forall k w u dd, exists s,
      Config.Settings_init k w u dd (Some 100) (Some 200) = Ok s /\
      Config.chunk_size s = 100 /\
      Config.chunk_overlap s = 200) /\
  (forall p, In p (pages Sample.contract_metadata) ->
      range0 (len (PDFService.text p)) (100 - 200) = Raise ValueError \/
      range0 (len (PDFService.text p)) (100 - 200) = Ok []) /\
  (200 = 100 -> pages Sample.contract_metadata <> [] ->
   index_document Sample.contract_data "c1" "" 100 200 = Raise ValueError) /\
  (100 < 200 \/ pages Sample.contract_metadata = [] ->
   index_document Sample.contract_data "c1" "" 100 200 = Ok []).
Proof.
  split; [reflexivity|]. split; [discriminate|].
  apply (stride_below_one Sample.contract_data "c1" ""
           Sample.contract_metadata 100 200).
  - reflexivity.
  - discriminate.
Defined.

(** The sample contract with the default window: one chunk per page. *)
Example one_chunk_per_page :
  index_document Sample.contract_data "c1"
    (full Sample.contract_metadata) 1000 200
  = Ok [ {| chunk_id := "c1_page1_chunk0";
            chunk := "Alice agrees to pay Bob $100.";
            chunk_document_id := "c1";
            chunk_page := 1;
            chunk_start := 0;
            chunk_end := 29 |};
         {| chunk_id := "c1_page2_chunk0";
            chunk := Sample.renewal_clause;
            chunk_document_id := "c1";
            chunk_page := 2;
            chunk_start := 30;
            chunk_end := 88 |} ].
Proof. reflexivity. Qed.

End RAGFacts.

(** * The audit rules *)

Module AuditFacts.

Import Py PyFacts LLMService Spec.

(** [kw in text.lower()] says that the token occurs in whatever case,
    provided the keyword itself is in lower case. *)
Lemma contains_lower_occurs (kw text : string) :
  contains (lower kw) (lower text) = true <-> occurs_ci kw text.
Proof.
  rewrite contains_split. split.
  - intros (a & b & E).
    exists (take (String.length a) text),
           (take (String.length (lower kw)) (drop (String.length a) text)),
           (drop (String.length (lower kw)) (drop (String.length a) text)).
    split.
    + now rewrite !take_drop.
    + rewrite lower_take, lower_drop, E, drop_append_length.
      apply take_append_length.
  - intros (pre & w & post & -> & E).
    exists (lower pre), (lower post). now rewrite !lower_append, E.
Qed.

Lemma contains_occurs (kw text : string) :
  lower kw = kw ->
  contains kw (lower text) = true <-> occurs_ci kw text.
Proof. intros E. rewrite <- E at 1. apply contains_lower_occurs. Qed.

Lemma occurs_ci_left (a b text : string) :
  occurs_ci (a ++ b) text -> occurs_ci a text.
Proof.
  intros H. apply contains_lower_occurs in H. apply contains_lower_occurs.
  apply contains_split in H as (x & y & E). apply contains_split.
  exists x, (lower b ++ y). now rewrite E, lower_append, append_assoc.
Qed.

Lemma occurs_ci_right (a b text : string) :
  occurs_ci (a ++ b) text -> occurs_ci b text.
Proof.
  intros H. apply contains_lower_occurs in H. apply contains_lower_occurs.
  apply contains_split in H as (x & y & E). apply contains_split.
  exists (x ++ lower a), y.
  now rewrite E, lower_append, !append_assoc.
Qed.

(** **** Each rule appends at most one finding *)

(** **** Each rule appends at most one finding *)

(** The loop over the matches of the auto-renewal rule. *)

Lemma int_ok (x : string) :
  len x <= int_max_str_digits -> int x = Ok (value x).
Proof.
  intros H. unfold int. now destruct (Z.ltb_spec int_max_str_digits (len x)); [lia|].
Qed.

Lemma int_raise (x : string) :
  int_max_str_digits < len x -> int x = Raise ValueError.
Proof.
  intros H. unfold int. now destruct (Z.ltb_spec int_max_str_digits (len x)); [|lia].
Qed.

Lemma int_cases (x : string) :
  (len x <= int_max_str_digits /\ int x = Ok (value x)) \/
  (int_max_str_digits < len x /\ int x = Raise ValueError).
Proof.
  destruct (Z.le_gt_cases (len x) int_max_str_digits) as [H|H].
  - left. split; [exact H | now apply int_ok].
  - right. split; [exact H | now apply int_raise].
Qed.

(** The three ways in which the loop ends. *)
Lemma notice_loop_cases (l : list string) :
  match notice_loop l with
  | Ok (Some m) => first_below_30 l m
  | Ok None => forall x, In x l -> long_notice x
  | Raise e => e = ValueError /\ overlong l
  end.
Proof.
  induction l as [|x l IH]; cbn [notice_loop]; [intros ? []|].
  destruct (int_cases x) as [(Hx & ->)|(Hx & ->)].
  - destruct (Z.ltb_spec (value x) 30) as [Hv|Hv].
    + exists [], l. split; [reflexivity|]. split; [exact Hx|].
      split; [exact Hv|]. intros ? [].
    + assert (Lx : long_notice x) by (split; assumption).
      destruct (notice_loop l) as [[m|]|e].
      * destruct IH as (before & after & -> & Hm & Hv' & Hb).
        exists (x :: before), after. split; [reflexivity|].
        split; [exact Hm|]. split; [exact Hv'|].
        intros y [<-|Hy]; [exact Lx | now apply Hb].
      * intros y [<-|Hy]; [exact Lx | now apply IH].
      * destruct IH as (-> & before & m & after & -> & Hm & Hb).
        split; [reflexivity|]. exists (x :: before), m, after.
        split; [reflexivity|]. split; [exact Hm|].
        intros y [<-|Hy]; [exact Lx | now apply Hb].
  - split; [reflexivity|]. exists [], x, l. split; [reflexivity|].
    split; [exact Hx|]. intros ? [].
Qed.

Lemma notice_loop_prefix (before rest : list string) :
  (forall x, In x before -> long_notice x) ->
  notice_loop (before ++ rest) = notice_loop rest.
Proof.
  induction before as [|x before IH]; intros H; [reflexivity|].
  cbn [app notice_loop]. destruct (H x (or_introl eq_refl)) as (Hx & Hv).
  rewrite (int_ok x Hx).
  destruct (Z.ltb_spec (value x) 30) as [Hlt|_]; [lia|].
  apply IH. intros y Hy. apply H. now right.
Qed.

Lemma notice_loop_raise (l : list string) :
  overlong l -> notice_loop l = Raise ValueError.
Proof.
  intros (before & m & after & -> & Hm & Hb).
  rewrite (notice_loop_prefix before _ Hb). cbn [notice_loop].
  now rewrite (int_raise m Hm).
Qed.

Lemma notice_loop_some (l : list string) (m : string) :
  first_below_30 l m -> notice_loop l = Ok (Some m).
Proof.
  intros (before & after & -> & Hm & Hv & Hb).
  rewrite (notice_loop_prefix before _ Hb). cbn [notice_loop].
  rewrite (int_ok m Hm).
  now destruct (Z.ltb_spec (value m) 30) as [_|H]; [|lia].
Qed.

Lemma check_auto_renewal_raises (text : string) (fields : dict)
  (fs : list Finding) (e : exn) :
  check_auto_renewal text fields fs = Raise e <->
  e = ValueError /\ notice_raises text fields.
Proof.
  unfold check_auto_renewal, notice_raises.
  rewrite <- (contains_occurs "day" text) by reflexivity.
  pose proof (notice_loop_cases (findall notice_units (lower text))) as C.
  split.
  - destruct (truthy _); [|discriminate].
    destruct (contains "30" text); [|discriminate].
    destruct (contains "day" (lower text)); [|discriminate]. cbn [andb].
    destruct (notice_loop _) as [[m|]|e']; try discriminate.
    intros [= <-]. destruct C as (-> & O). now repeat split.
  - intros (-> & -> & -> & -> & O). cbn [andb].
    now rewrite (notice_loop_raise _ O).
Qed.

Lemma check_auto_renewal_app (text : string) (fields : dict)
  (fs : list Finding) :
  check_auto_renewal text fields fs
  = match check_auto_renewal text fields [] with
    | Ok a => Ok (fs ++ a)%list
    | Raise e => Raise e
    end.
Proof.
  unfold check_auto_renewal.
  destruct (truthy _); [|now rewrite app_nil_r].
  destruct (_ && _); [|now rewrite app_nil_r].
  destruct (notice_loop _) as [[m|]|e];
    [reflexivity | now rewrite app_nil_r | reflexivity].
Qed.

Lemma check_unlimited_liability_app (text : string) (fs : list Finding) :
  check_unlimited_liability text fs
  = (fs ++ check_unlimited_liability text [])%list.
Proof.
  unfold check_unlimited_liability.
  destruct (_ && _); [reflexivity | now rewrite app_nil_r].
Qed.

Lemma check_liability_cap_app (fields : dict) (fs : list Finding) :
  check_liability_cap fields fs = (fs ++ check_liability_cap fields [])%list.
Proof.
  unfold check_liability_cap.
  destruct (_ && _); [|now rewrite app_nil_r].
  destruct (_ || _); [reflexivity | now rewrite app_nil_r].
Qed.

Lemma check_indemnity_app (fields : dict) (fs : list Finding) :
  check_indemnity fields fs = (fs ++ check_indemnity fields [])%list.
Proof.
  unfold check_indemnity.
  destruct (_ && _); [|now rewrite app_nil_r].
  destruct (existsb _ _); [reflexivity | now rewrite app_nil_r].
Qed.

(** The rule findings are the findings of the four rules, in order. *)
Lemma audit_contract_rules (text : string) (fields : dict) :
  audit_contract None text fields
  = match check_auto_renewal text fields [] with
    | Ok a =>
        Ok (a ++ check_unlimited_liability text []
              ++ check_liability_cap fields []
              ++ check_indemnity fields [])%list
    | Raise e => Raise e
    end.
Proof.
  unfold audit_contract.
  destruct (check_auto_renewal text fields []) as [a|e]; [|reflexivity].
  rewrite check_indemnity_app, check_liability_cap_app,
    check_unlimited_liability_app.
  now rewrite <- !app_assoc.
Qed.

Lemma audit_contract_client (client : option Client) (text : string)
  (fields : dict) :
  audit_contract client text fields
  = match audit_contract None text fields with
    | Ok rules => Ok (rules ++ llm_findings client text fields)%list
    | Raise e => Raise e
    end.
Proof.
  unfold audit_contract, llm_findings.
  destruct (check_auto_renewal text fields []) as [a|e]; [|reflexivity].
  destruct client; [reflexivity | now rewrite app_nil_r].
Qed.

(** [audit_contract] raises exactly when its first rule does; otherwise it
    returns the findings of the four rules, in order, followed by those
    of the client. *)
Lemma audit_contract_outcome (client : option Client) (text : string)
  (fields : dict) :
  match audit_contract client text fields with
  | Raise e => e = ValueError /\ notice_raises text fields
  | Ok fs =>
      ~ notice_raises text fields /\
      exists a,
        check_auto_renewal text fields [] = Ok a /\
        audit_contract None text fields
        = Ok (a ++ check_unlimited_liability text []
                ++ check_liability_cap fields []
                ++ check_indemnity fields [])%list /\
        fs = ((a ++ check_unlimited_liability text []
                 ++ check_liability_cap fields []
                 ++ check_indemnity fields [])
              ++ llm_findings client text fields)%list
  end.
Proof.
  rewrite audit_contract_client, audit_contract_rules.
  destruct (check_auto_renewal text fields []) as [a|e] eqn:E.
  - split; [|now exists a].
    intros R.
    assert (check_auto_renewal text fields [] = Raise ValueError)
      by (apply check_auto_renewal_raises; now split).
    congruence.
  - now apply check_auto_renewal_raises in E.
Qed.

Lemma audit_contract_ok (text : string) (fields : dict)
  (fs : list Finding) :
  audit_contract None text fields = Ok fs ->
  exists a,
    check_auto_renewal text fields [] = Ok a /\
    fs = (a ++ check_unlimited_liability text []
            ++ check_liability_cap fields []
            ++ check_indemnity fields [])%list.
Proof.
  rewrite audit_contract_rules.
  destruct (check_auto_renewal text fields []) as [a|e]; [|discriminate].
  intros [= <-]. now exists a.
Qed.

(** Without the flag the first rule does nothing, and [audit_contract]
    returns. *)
Lemma check_auto_renewal_off (text : string) (fields : dict) :
  truthy (get fields "auto_renewal" JNull) = false ->
  check_auto_renewal text fields [] = Ok [].
Proof. intros H. unfold check_auto_renewal. now rewrite H. Qed.

Lemma count_kind_app (sev cat : string) (a b : list Finding) :
  count_kind sev cat (a ++ b)
  = (count_kind sev cat a + count_kind sev cat b)%nat.
Proof. unfold count_kind. now rewrite filter_app, length_app. Qed.

Lemma count_kind_positive (sev cat : string) (fs : list Finding) :
  (0 < count_kind sev cat fs)%nat <->
  exists f, In f fs /\ severity f = sev /\ category f = cat.
Proof.
  unfold count_kind. split.
  - destruct (filter (is_kind sev cat) fs) as [|f l] eqn:E; simpl; [lia|].
    intros _. assert (Hin : In f (filter (is_kind sev cat) fs))
      by (rewrite E; now left).
    apply filter_In in Hin as (Hin & K). unfold is_kind in K.
    apply andb_true_iff in K as (K1 & K2).
    apply String.eqb_eq in K1, K2. now exists f.
  - intros (f & Hin & <- & <-).
    assert (Hf : In f (filter (is_kind (severity f) (category f)) fs)).
    { apply filter_In. split; [exact Hin|]. unfold is_kind.
      now rewrite !String.eqb_refl. }
    destruct (filter _ fs); [destruct Hf | simpl; lia].
Qed.

Lemma count_kind_one (sev cat : string) (f : Finding) :
  count_kind sev cat [f]
  = if String.eqb (severity f) sev && String.eqb (category f) cat
    then 1%nat else 0%nat.
Proof.
  unfold count_kind, is_kind. cbn [filter].
  now destruct (String.eqb (severity f) sev && String.eqb (category f) cat).
Qed.

(** Reduces the count over the single finding of a rule to the comparison
    of its severity and category. *)
Ltac count_finding :=
  cbn [app]; rewrite count_kind_one;
  cbn [severity category auto_renewal_finding unlimited_finding cap_finding
       indemnity_finding].

Lemma auto_renewal_rule_kind (text : string) (fields : dict)
  (a : list Finding) (sev cat : string) :
  check_auto_renewal text fields [] = Ok a ->
  cat <> "auto_renewal" ->
  count_kind sev cat a = 0%nat.
Proof.
  intros E Hne. unfold check_auto_renewal in E.
  destruct (truthy _); [|now injection E as <-].
  destruct (_ && _); [|now injection E as <-].
  destruct (notice_loop _) as [[m|]|e];
    [|now injection E as <- | discriminate].
  injection E as <-.
  count_finding.
  destruct (String.eqb_spec "auto_renewal" cat) as [E|_];
    [now symmetry in E | now rewrite andb_false_r].
Qed.

Lemma liability_cap_rule_kind (fields : dict) (sev cat : string) :
  sev <> "medium" ->
  count_kind sev cat (check_liability_cap fields []) = 0%nat.
Proof.
  intros Hne. unfold check_liability_cap.
  destruct (_ && _); [|reflexivity].
  destruct (_ || _); [|reflexivity].
  count_finding.
  destruct (String.eqb_spec "medium" sev) as [E|_];
    [now symmetry in E | reflexivity].
Qed.

Lemma indemnity_rule_kind (fields : dict) (sev cat : string) :
  cat <> "indemnity" ->
  count_kind sev cat (check_indemnity fields []) = 0%nat.
Proof.
  intros Hne. unfold check_indemnity.
  destruct (_ && _); [|reflexivity].
  destruct (existsb _ _); [|reflexivity].
  count_finding.
  destruct (String.eqb_spec "indemnity" cat) as [E|_];
    [now symmetry in E | now rewrite andb_false_r].
Qed.

Lemma unlimited_rule_kind (text : string) (sev cat : string) :
  sev <> "high" \/ cat <> "liability" ->
  count_kind sev cat (check_unlimited_liability text []) = 0%nat.
Proof.
  intros Hne. unfold check_unlimited_liability.
  destruct (_ && _); [|reflexivity].
  count_finding.
  destruct (String.eqb_spec "high" sev) as [E1|_]; [|reflexivity].
  destruct (String.eqb_spec "liability" cat) as [E2|_]; [|reflexivity].
  destruct Hne as [H|H]; now subst.
Qed.

(** **** Unlimited liability *)

Lemma unlimited_count (text : string) (fields : dict)
  (fs : list Finding) :
  audit_contract None text fields = Ok fs ->
  count_kind "high" "liability" fs
  = if contains "unlimited" (lower text) && contains "liability" (lower text)
    then 1%nat else 0%nat.
Proof.
  intros E. apply audit_contract_ok in E as (a & Ea & ->).
  rewrite !count_kind_app.
  rewrite (auto_renewal_rule_kind text fields a _ _ Ea) by discriminate.
  rewrite liability_cap_rule_kind by discriminate.
  rewrite indemnity_rule_kind by discriminate.
  unfold check_unlimited_liability.
  destruct (_ && _); reflexivity.
Qed.

(** The claim C8, as stated, fails when a client is configured: what the
    client returns is appended to the rule findings.  With a client that
    reports an uncapped liability, a finding of severity "high" and
    category "liability" is returned for a text without "unlimited", and
    two such findings for a text with "unlimited liability". *)
Lemma unlimited_liability_claim_fails :
  (audit_contract (Some Sample.alarmist) "Net 30." [] = Ok [Sample.alarm] /\
   severity Sample.alarm = "high" /\ category Sample.alarm = "liability" /\
   ~ occurs_ci "unlimited" "Net 30.") /\
  (occurs_ci "unlimited liability" "Seller accepts UNLIMITED LIABILITY." /\
   audit_contract (Some Sample.alarmist)
     "Seller accepts UNLIMITED LIABILITY." []
   = Ok [unlimited_finding "Seller accepts UNLIMITED LIABILITY.";
         Sample.alarm] /\
   count_kind "high" "liability"
     [unlimited_finding "Seller accepts UNLIMITED LIABILITY.";
      Sample.alarm] = 2%nat).
Proof.
  split.
  - split; [reflexivity|]. split; [reflexivity|]. split; [reflexivity|].
    intros H. apply contains_occurs in H; [discriminate | reflexivity].
  - split; [|split; reflexivity].
    exists "Seller accepts ", "UNLIMITED LIABILITY", ".". split; reflexivity.
Qed.

(** C8 (amended): [audit_contract] either raises [ValueError], which it
    does exactly when the conversion of a match raises in the auto-renewal
    rule, or returns the rule findings followed by what the client
    returns (nothing without a client).  Among the rule findings there is
    one with severity "high" and category "liability" if and only if both
    "unlimited" and "liability" occur somewhere in the text, in whatever
    case and at whatever positions; there is never more than one, and for
    a text that contains "unlimited liability" in whatever case there is
    exactly one. *)
Theorem unlimited_liability_rule (client : option Client) (text : string)
  (fields : dict) :
  match audit_contract client text fields with
  | Raise e => e = ValueError /\ notice_raises text fields
  | Ok fs =>
      ~ notice_raises text fields /\
      exists rules,
        audit_contract None text fields = Ok rules /\
        fs = (rules ++ llm_findings client text fields)%list /\
        ((exists f, In f rules /\
                    severity f = "high" /\ category f = "liability")
         <-> occurs_ci "unlimited" text /\ occurs_ci "liability" text) /\
        (count_kind "high" "liability" rules <= 1)%nat /\
        (occurs_ci "unlimited liability" text ->
         count_kind "high" "liability" rules = 1%nat)
  end.
Proof.
  pose proof (audit_contract_outcome client text fields) as O.
  destruct (audit_contract client text fields) as [fs|e]; [|exact O].
  destruct O as (N & a & _ & Erules & ->).
  split; [exact N|]. eexists. split; [exact Erules|].
  split; [reflexivity|].
  rewrite <- count_kind_positive, (unlimited_count text fields _ Erules).
  rewrite <- (contains_occurs "unlimited" text) by reflexivity.
  rewrite <- (contains_occurs "liability" text) by reflexivity.
  split; [|split].
  - destruct (contains "unlimited" (lower text)),
             (contains "liability" (lower text)); simpl;
      split; try lia; try tauto; intros []; discriminate.
  - destruct (_ && _); lia.
  - intros H.
    pose proof (occurs_ci_left "unlimited" " liability" text H) as H1.
    pose proof (occurs_ci_right "unlimited " "liability" text H) as H2.
    apply contains_occurs in H1, H2; try reflexivity.
    now rewrite H1, H2.
Qed.

Lemma unlimited_liability_rule_witness :
  occurs_ci "unlimited liability" "Seller accepts UNLIMITED LIABILITY." /\
  exists rules,
    audit_contract None "Seller accepts UNLIMITED LIABILITY." [] = Ok rules /\
    count_kind "high" "liability" rules = 1%nat.
Proof.
  assert (Occ : occurs_ci "unlimited liability"
                  "Seller accepts UNLIMITED LIABILITY.").
  { exists "Seller accepts ", "UNLIMITED LIABILITY", ".".
    split; reflexivity. }
  split; [exact Occ|].
  pose proof (unlimited_liability_rule None
                "Seller accepts UNLIMITED LIABILITY." []) as H.
  assert (E : audit_contract None "Seller accepts UNLIMITED LIABILITY." []
              = Ok [unlimited_finding "Seller accepts UNLIMITED LIABILITY."])
    by reflexivity.
  rewrite E in H. destruct H as (_ & rules & Er & _ & _ & _ & One).
  exists rules. split; [exact Er|]. apply One, Occ.
Defined.

(** **** Missing liability cap *)

(** When the rule for the liability cap fires. *)
Lemma liability_cap_count (text : string) (fields : dict)
  (fs : list Finding) :
  audit_contract None text fields = Ok fs ->
  count_kind "medium" "liability" fs
  = match get fields "liability_cap" JNull with
    | JDict (kv :: d) =>
        if eq_zero (get (kv :: d) "amount" (JInt 0))
           || is_none (get (kv :: d) "amount" (JInt 0))
        then 1%nat else 0%nat
    | _ => 0%nat
    end.
Proof.
  intros E. apply audit_contract_ok in E as (a & Ea & ->).
  rewrite !count_kind_app.
  rewrite (auto_renewal_rule_kind text fields a _ _ Ea) by discriminate.
  rewrite unlimited_rule_kind by (left; discriminate).
  rewrite indemnity_rule_kind by discriminate.
  unfold check_liability_cap.
  destruct (get fields "liability_cap" JNull) as [|b|z|f|s|l|[|kv d]];
    cbn [isinstance_dict]; rewrite ?andb_false_r; try reflexivity.
  cbn [truthy andb items]. destruct (_ || _); reflexivity.
Qed.

(** No finding on the liability cap when the field is [None], is missing
    or is an empty dictionary. *)
Lemma liability_cap_none_silent (text : string) (fields : dict)
  (fs : list Finding) :
  audit_contract None text fields = Ok fs ->
  get fields "liability_cap" JNull = JNull \/
  get fields "liability_cap" JNull = JDict [] ->
  count_kind "medium" "liability" fs = 0%nat.
Proof.
  intros E. rewrite (liability_cap_count text fields fs E).
  now intros [-> | ->].
Qed.

(** C2: the code at the failing input.  With the fields of the keyword
    based extraction, where [liability_cap] is [None], the audit of the
    first page of the sample contract returns no finding at all, whereas
    the claim asks for one finding of severity "medium" and category
    "liability". *)
Theorem liability_cap_none_gives_no_finding :
  get (_basic_extraction "Alice agrees to pay Bob $100.") "liability_cap"
      JNull = JNull /\
  audit_contract None "Alice agrees to pay Bob $100."
    (_basic_extraction "Alice agrees to pay Bob $100.") = Ok [] /\
  audit_contract None "Alice agrees to pay Bob $100."
    [("liability_cap", JDict [])] = Ok [] /\
  audit_contract None "Alice agrees to pay Bob $100."
    [("liability_cap", JDict [("currency", JStr "USD")])]
  = Ok [cap_finding].
Proof. repeat split; reflexivity. Qed.

(** **** Evidence *)

Lemma has_all_line (keywords : list string) (line : string) :
  (forall kw, In kw keywords -> lower kw = kw) ->
  has_all keywords line = true <-> line_has_all keywords line.
Proof.
  intros Low. unfold has_all, line_has_all. rewrite forallb_forall.
  split; intros H kw Hin.
  - apply contains_occurs; auto.
  - apply contains_occurs; auto.
Qed.

Lemma evidence_line_found (keywords : list string) (rest : list string)
  (i j : nat) (line : string) :
  nth_error rest j = Some line -> has_all keywords line = true ->
  (forall k l, (k < j)%nat -> nth_error rest k = Some l ->
               has_all keywords l = false) ->
  evidence_line keywords i rest = Some (i + j)%nat.
Proof.
  revert i j. induction rest as [|l0 rest IH]; intros i j N H Before.
  - destruct j; discriminate.
  - destruct j as [|j]; simpl in N |- *.
    + injection N as ->. rewrite H. f_equal. lia.
    + rewrite (Before 0%nat l0) by (lia || reflexivity).
      rewrite (IH (S i) j N H).
      * f_equal. lia.
      * intros k l Hk Hl. apply (Before (S k) l); [lia | exact Hl].
Qed.

Lemma evidence_line_missing (keywords : list string) (rest : list string)
  (i : nat) :
  (forall l, In l rest -> has_all keywords l = false) ->
  evidence_line keywords i rest = None.
Proof.
  revert i. induction rest as [|l0 rest IH]; intros i H; simpl.
  - reflexivity.
  - rewrite (H l0) by now left. apply IH. intros l Hl. apply H. now right.
Qed.

(** The slice taken around line [i] consists of the lines [i-2 .. i+2]
    that exist. *)
Lemma lslice_context {A : Type} (l : list A) (i : nat) :
  (i < List.length l)%nat ->
  lslice l (Z.max 0 (Z.of_nat i - 2)) (Z.min (llen l) (Z.of_nat i + 3))
  = skipn (i - 2) (firstn (i + 3) l).
Proof.
  intros Hi. unfold lslice, bound, llen.
  destruct (Z.ltb_spec (Z.max 0 (Z.of_nat i - 2)) 0); [lia|].
  destruct (Z.ltb_spec (Z.min (Z.of_nat (List.length l)) (Z.of_nat i + 3)) 0);
    [lia|].
  rewrite skipn_firstn_comm.
  replace (Z.to_nat (Z.min (Z.max 0 (Z.of_nat i - 2))
                           (Z.of_nat (List.length l))))
    with (i - 2)%nat by lia.
  destruct (Nat.le_ge_cases (i + 3) (List.length l)) as [Hle|Hge].
  - f_equal. lia.
  - rewrite !firstn_all2; [reflexivity | |]; rewrite length_skipn; lia.
Qed.

(** C10, as stated, fails for a keyword that is not in lower case: the
    line "Auto renew" contains the keyword "Auto", yet the search returns
    the placeholder instead of that line. *)
Lemma find_evidence_upper_case_keyword :
  nth_error (split_lines "Auto renew") 0 = Some "Auto renew" /\
  line_has_all ["Auto"] "Auto renew" /\
  join (String newline "")
       (skipn (0 - 2) (firstn (0 + 3) (split_lines "Auto renew")))
  = "Auto renew" /\
  _find_evidence "Auto renew" ["Auto"] = not_found.
Proof.
  split; [reflexivity|]. split; [|split; reflexivity].
  intros kw [<-|[]]. now exists "", "Auto", " renew".
Qed.

(** C10 (amended): for every text and every set of keywords that are in
    lower case (as are all keywords the audit rules pass), the evidence
    search returns the lines [i-2 .. i+2], joined by newlines, around the
    first line [i] that contains all keywords in whatever case, and it
    returns "Evidence not found in text" when no single line contains all
    of them.  So a finding can trigger with that placeholder as its
    evidence: when "unlimited" and "liability" occur in the text but on no
    common line, the finding of the unlimited liability rule carries the
    placeholder, it is among the findings whenever [audit_contract]
    returns, and [audit_contract] does return it for the empty field
    set. *)
Theorem find_evidence_context (text : string) (keywords : list string) :
  (forall kw, In kw keywords -> lower kw = kw) ->
  (forall i line,
      nth_error (split_lines text) i = Some line ->
      line_has_all keywords line ->
      (forall j l, (j < i)%nat -> nth_error (split_lines text) j = Some l ->
                   ~ line_has_all keywords l) ->
      _find_evidence text keywords
      = join (String newline "")
             (skipn (i - 2) (firstn (i + 3) (split_lines text)))) /\
  ((forall line, In line (split_lines text) ->
                 ~ line_has_all keywords line) ->
   _find_evidence text keywords = not_found) /\
  (occurs_ci "unlimited" text -> occurs_ci "liability" text ->
   (forall line, In line (split_lines text) ->
                 ~ line_has_all ["unlimited"; "liability"] line) ->
   exists f,
     severity f = "high" /\ category f = "liability" /\
     evidence f = not_found /\
     (forall client fields fs,
         audit_contract client text fields = Ok fs -> In f fs) /\
     exists fs, audit_contract None text [] = Ok fs /\ In f fs).
Proof.
  intros Low.
  assert (Missing : forall kws,
    (forall kw, In kw kws -> lower kw = kw) ->
    (forall line, In line (split_lines text) -> ~ line_has_all kws line) ->
    _find_evidence text kws = not_found).
  { intros kws Lk H. unfold _find_evidence.
    rewrite evidence_line_missing; [reflexivity|].
    intros l Hl. destruct (has_all kws l) eqn:E; [|reflexivity].
    apply has_all_line in E; [|exact Lk]. now apply H in E. }
  split; [|split].
  - intros i line N Has Before. unfold _find_evidence.
    rewrite (evidence_line_found keywords (split_lines text) 0 i line N).
    + cbn [Nat.add]. rewrite lslice_context; [reflexivity|].
      apply nth_error_Some. now rewrite N.
    + now apply has_all_line.
    + intros k l Hk Hl. destruct (has_all keywords l) eqn:E; [|reflexivity].
      apply has_all_line in E; [|exact Low]. now apply (Before k l Hk Hl) in E.
  - apply Missing, Low.
  - intros U L NoLine.
    assert (Rule : check_unlimited_liability text []
                   = [unlimited_finding text]).
    { unfold check_unlimited_liability.
      apply contains_occurs in U, L; try reflexivity.
      now rewrite U, L. }
    assert (Among : forall client fields fs,
               audit_contract client text fields = Ok fs ->
               In (unlimited_finding text) fs).
    { intros client fields fs E.
      pose proof (audit_contract_outcome client text fields) as O.
      rewrite E in O. destruct O as (_ & a & _ & _ & ->).
      rewrite Rule. apply in_or_app. left. apply in_or_app. right.
      now left. }
    exists (unlimited_finding text).
    split; [reflexivity|]. split; [reflexivity|]. split.
    { cbn [evidence unlimited_finding]. apply Missing; [|exact NoLine].
      intros kw [<-|[<-|[]]]; reflexivity. }
    split; [exact Among|].
    pose proof (audit_contract_outcome None text []) as O.
    destruct (audit_contract None text []) as [fs|e] eqn:E.
    + exists fs. split; [reflexivity|]. now apply (Among None []).
    + destruct O as (_ & (T & _)). discriminate T.
Qed.

Lemma find_evidence_context_witness :
  (forall kw, In kw ["unlimited"; "liability"] -> lower kw = kw) /\
  (forall line, In line (split_lines Sample.two_lines) ->
                ~ line_has_all ["unlimited"; "liability"] line) /\
  _find_evidence Sample.two_lines ["unlimited"; "liability"] = not_found.
Proof.
  assert (Low : forall kw, In kw ["unlimited"; "liability"] -> lower kw = kw).
  { intros kw [<-|[<-|[]]]; reflexivity. }
  assert (NoLine : forall line, In line (split_lines Sample.two_lines) ->
                     ~ line_has_all ["unlimited"; "liability"] line).
  { intros line Hin Has. apply (has_all_line _ line Low) in Has.
    destruct Hin as [<-|[<-|[]]]; discriminate. }
  split; [exact Low|]. split; [exact NoLine|].
  destruct (find_evidence_context Sample.two_lines
              ["unlimited"; "liability"] Low) as (_ & Missing & _).
  apply Missing, NoLine.
Defined.

(** The finding without evidence, computed: both tokens occur, on
    different lines. *)
Example unlimited_liability_without_evidence :
  split_lines Sample.two_lines = ["Unlimited damages."; "Liability."] /\
  audit_contract None Sample.two_lines []
  = Ok [ {| severity := "high";
            category := "liability";
            description := "Unlimited liability clause detected";
            evidence := "Evidence not found in text";
            char_range := None;
            page := None |} ].
Proof. split; reflexivity. Qed.

(** The evidence of the sample contract: the line that has both "auto" and
    "renew", with the line in front of it. *)
Example evidence_of_renewal_clause :
  _find_evidence (PDFService.full Sample.contract_metadata) ["auto"; "renew"]
  = "Alice agrees to pay Bob $100." ++ String newline
      (Sample.renewal_clause ++ String newline "").
Proof. reflexivity. Qed.

End AuditFacts.

(** * The notice pattern *)

Module PatternFacts.

Import Py PyFacts LLMService Spec.

Lemma digit_not_d (c : ascii) : isdigit c = true -> c <> "d"%char.
Proof. intros H ->. discriminate. Qed.

Lemma space_not_d (c : ascii) : isspace c = true -> c <> "d"%char.
Proof. intros H ->. discriminate. Qed.

Lemma digit_not_space (c : ascii) : isdigit c = true -> isspace c = false.
Proof. destruct c as [[] [] [] [] [] [] [] []]; intros H; try reflexivity;
  discriminate. Qed.

Lemma prefix_empty (s : string) : String.prefix "" s = true.
Proof. now destruct s. Qed.

Lemma prefix_d (s : string) :
  String.prefix "d" s = true <-> exists s', s = String "d" s'.
Proof.
  split.
  - intros H. apply prefix_split in H as (r & ->). now exists r.
  - intros (s' & ->). simpl. apply prefix_empty.
Qed.

(** The alternation [(?:day|days|d)] matches exactly when the letter d is
    next, and then takes "day" if it can and "d" otherwise. *)
Lemma alternation_units (s : string) :
  alternation notice_units s
  = if String.prefix "d" s
    then Some (if String.prefix "day" s then 3%nat else 1%nat)
    else None.
Proof.
  unfold notice_units, alternation.
  destruct (String.prefix "day" s) eqn:E3.
  - apply prefix_split in E3 as (r & ->). simpl.
    rewrite ?prefix_empty. reflexivity.
  - destruct (String.prefix "days" s) eqn:E4.
    + apply prefix_split in E4 as (r & ->). simpl in E3.
      rewrite ?prefix_empty in E3. discriminate.
    + destruct (String.prefix "d" s); reflexivity.
Qed.

Lemma first_down_none {A : Type} (f : nat -> option A) (n : nat) :
  (forall j, (j <= n)%nat -> f j = None) -> first_down f n = None.
Proof.
  induction n as [|n IH]; intros H; simpl.
  - now rewrite H.
  - rewrite H by lia. apply IH. intros j Hj. apply H. lia.
Qed.

Lemma first_down_top {A : Type} (f : nat -> option A) (n : nat) (r : A) :
  f n = Some r -> first_down f n = Some r.
Proof. intros H. destruct n; simpl; now rewrite H. Qed.

Lemma span_drop_lt (p : ascii -> bool) (s : string) (k : nat) :
  (k < span p s)%nat ->
  exists c s', drop k s = String c s' /\ p c = true.
Proof.
  revert s. induction k as [|k IH]; intros [|c s] H; simpl in H; try lia.
  - destruct (p c) eqn:E; [|lia]. now exists c, s.
  - destruct (p c) eqn:E; [|lia]. simpl. apply IH. lia.
Qed.

Lemma span_drop_stop (p : ascii -> bool) (s : string) :
  match drop (span p s) s with
  | String c _ => p c = false
  | EmptyString => True
  end.
Proof.
  induction s as [|c s IH]; simpl; [exact I|].
  destruct (p c) eqn:E; simpl; [exact IH | exact E].
Qed.

Lemma prefix_d_other (c : ascii) (s : string) :
  c <> "d"%char -> String.prefix "d" (String c s) = false.
Proof.
  intros H.
  change (String.prefix "d" (String c s))
    with (if ascii_dec "d" c then String.prefix "" s else false).
  destruct (ascii_dec "d" c) as [E|_]; [|reflexivity].
  now symmetry in E.
Qed.

Lemma alternation_other (c : ascii) (s : string) :
  c <> "d"%char -> alternation notice_units (String c s) = None.
Proof. intros H. now rewrite alternation_units, prefix_d_other. Qed.

(** The backtracking search of the pattern at one position succeeds exactly
    when the greedy attempt does: all digits, then all white space, then
    the letter d. *)
Lemma match_at_greedy (s : string) :
  match_at notice_units s
  = if (0 <? span isdigit s)%nat && followed_by_d s
    then Some (take (span isdigit s) s,
               (span isdigit s
                + span isspace (drop (span isdigit s) s)
                + (if String.prefix "day"
                        (drop (span isspace (drop (span isdigit s) s))
                              (drop (span isdigit s) s))
                   then 3 else 1))%nat)
    else None.
Proof.
  unfold match_at, followed_by_d.
  destruct (span isdigit s) as [|m] eqn:Sp; [reflexivity|].
  cbn [Nat.ltb Nat.leb andb].
  set (r := drop (S m) s). set (w0 := span isspace r).
  destruct (String.prefix "d" (drop w0 r)) eqn:D.
  - apply first_down_top. apply first_down_top.
    fold r. fold w0. now rewrite alternation_units, D.
  - apply first_down_none. intros j Hj.
    destruct (Nat.eq_dec j m) as [->|Hne].
    + fold r. fold w0. apply first_down_none. intros w Hw.
      destruct (Nat.eq_dec w w0) as [->|Hw0].
      * now rewrite alternation_units, D.
      * destruct (span_drop_lt isspace r w) as (c & s' & -> & Hc);
          [unfold w0 in *; lia|].
        rewrite alternation_other; [reflexivity | now apply space_not_d].
    + destruct (span_drop_lt isdigit s (S j)) as (c & s' & E & Hc); [lia|].
      rewrite E. cbn [span]. rewrite (digit_not_space c Hc).
      cbn [first_down drop]. rewrite alternation_other;
        [reflexivity | now apply digit_not_d].
Qed.

(** **** [findall] lists the numbers that are followed by d *)

Lemma findall_from_skip (alts : list string) (k : nat) (s : string) :
  findall_from alts k s = findall_from alts 0 (drop k s).
Proof.
  revert k. induction s as [|c s IH]; intros [|k]; try reflexivity.
  cbn [findall_from drop]. apply IH.
Qed.

Lemma findall_step (alts : list string) (c : ascii) (s : string) :
  findall alts (String c s)
  = match match_at alts (String c s) with
    | Some (g, n) => g :: findall alts (drop (n - 1) s)
    | None => findall alts s
    end.
Proof.
  unfold findall. cbn [findall_from].
  destruct (match_at alts (String c s)) as [[g n]|]; [|reflexivity].
  now rewrite findall_from_skip.
Qed.

Lemma followed_by_d_digit (c : ascii) (s : string) :
  isdigit c = true -> followed_by_d (String c s) = followed_by_d s.
Proof. intros H. unfold followed_by_d. cbn [span]. now rewrite H. Qed.

Lemma numbers_skip_digits (s : string) :
  numbers_with_d true s = numbers_with_d true (drop (span isdigit s) s).
Proof.
  induction s as [|c s IH]; [reflexivity|].
  cbn [span]. destruct (isdigit c) eqn:D; [|reflexivity].
  cbn [numbers_with_d drop]. rewrite D. cbn [negb andb]. exact IH.
Qed.

Lemma numbers_skip_other (b : bool) (a r : string) :
  all_chars (fun c => negb (isdigit c)) a = true -> a <> "" ->
  numbers_with_d b (a ++ r) = numbers_with_d false r.
Proof.
  revert b. induction a as [|c a IH]; intros b H Hne; [contradiction|].
  cbn [all_chars] in H. apply andb_true_iff in H as (Hc & Ha).
  apply negb_true_iff in Hc.
  change (String c a ++ r) with (String c (a ++ r)).
  cbn [numbers_with_d]. rewrite Hc. cbn [andb].
  destruct a as [|x a]; [reflexivity|]. apply IH; [exact Ha | discriminate].
Qed.

Lemma all_chars_app (p : ascii -> bool) (a b : string) :
  all_chars p (a ++ b) = all_chars p a && all_chars p b.
Proof.
  induction a as [|c a IH]; simpl; [reflexivity|].
  now rewrite IH, andb_assoc.
Qed.

Lemma all_chars_take_span (p : ascii -> bool) (s : string) :
  all_chars p (take (span p s) s) = true.
Proof.
  induction s as [|c s IH]; [reflexivity|]. cbn [span].
  destruct (p c) eqn:E; [|reflexivity]. cbn [take all_chars].
  now rewrite E, IH.
Qed.

Lemma all_chars_weaken (p q : ascii -> bool) (s : string) :
  (forall c, p c = true -> q c = true) ->
  all_chars p s = true -> all_chars q s = true.
Proof.
  intros W. induction s as [|c s IH]; simpl; [reflexivity|].
  intros H. apply andb_true_iff in H as (Hc & Hs).
  now rewrite (W c Hc), IH.
Qed.

Lemma space_not_digit (c : ascii) :
  isspace c = true -> negb (isdigit c) = true.
Proof.
  intros H. destruct (isdigit c) eqn:D; [|reflexivity].
  apply digit_not_space in D. congruence.
Qed.

(** The text behind a match: what is passed over consists of characters
    that are no digits. *)
Lemma unit_passed (r : string) :
  String.prefix "d" (drop (span isspace r) r) = true ->
  exists a,
    r = a ++ drop (span isspace r
                   + (if String.prefix "day" (drop (span isspace r) r)
                      then 3 else 1)) r /\
    all_chars (fun c => negb (isdigit c)) a = true /\ a <> "".
Proof.
  intros D. set (w := span isspace r) in *.
  assert (Hws : all_chars (fun c => negb (isdigit c)) (take w r) = true).
  { apply (all_chars_weaken isspace); [exact space_not_digit|].
    apply all_chars_take_span. }
  rewrite <- drop_drop.
  destruct (String.prefix "day" (drop w r)) eqn:D3.
  - apply prefix_split in D3 as (r3 & E). exists (take w r ++ "day").
    rewrite E. cbn [drop append]. split; [|split].
    + rewrite append_assoc. cbn [append].
      transitivity (take w r ++ drop w r);
        [symmetry; apply take_drop | f_equal; exact E].
    + now rewrite all_chars_app, Hws.
    + destruct (take w r); discriminate.
  - apply prefix_d in D as (r1 & E). exists (take w r ++ "d").
    rewrite E. cbn [drop append]. split; [|split].
    + rewrite append_assoc. cbn [append].
      transitivity (take w r ++ drop w r);
        [symmetry; apply take_drop | f_equal; exact E].
    + now rewrite all_chars_app, Hws.
    + destruct (take w r); discriminate.
Qed.

Lemma findall_numbers_bounded (n : nat) (s : string) (b : bool) :
  (String.length s <= n)%nat ->
  (b = true -> (0 < span isdigit s)%nat -> followed_by_d s = false) ->
  findall notice_units s = numbers_with_d b s.
Proof.
  revert s b. induction n as [|n IH]; intros [|c s] b Hn Hb;
    try reflexivity; cbn [String.length] in Hn; [lia|].
  rewrite findall_step, match_at_greedy.
  cbn [numbers_with_d]. destruct (isdigit c) eqn:Dc.
  - assert (Hpos : (0 <? span isdigit (String c s))%nat = true).
    { cbn [span]. now rewrite Dc. }
    rewrite Hpos. cbn [andb].
    destruct (followed_by_d (String c s)) eqn:Fd.
    + destruct b.
      * assert (Abs : true = false)
          by (apply Hb; [reflexivity | now apply Nat.ltb_lt]).
        discriminate.
      * cbn [negb andb]. f_equal.
        unfold followed_by_d in Fd. cbn [span] in Fd |- *.
        rewrite Dc in Fd |- *. cbn [drop] in Fd |- *.
        set (r := drop (span isdigit s) s) in *.
        destruct (unit_passed r Fd) as (a & Er & Ha & Hne).
        rewrite numbers_skip_digits. fold r.
        set (u := if String.prefix "day" (drop (span isspace r) r)
                  then 3%nat else 1%nat) in *.
        replace (S (span isdigit s) + span isspace r + u - 1)%nat
          with (span isdigit s + (span isspace r + u))%nat by lia.
        rewrite <- drop_drop. fold r.
        transitivity (numbers_with_d true (a ++ drop (span isspace r + u) r));
          [|now rewrite <- Er].
        rewrite numbers_skip_other by assumption.
        apply IH; [|discriminate].
        unfold r. rewrite !length_drop. lia.
    + rewrite andb_false_r. apply IH; [lia|].
      intros _ _. now rewrite <- (followed_by_d_digit c s Dc).
  - assert (Hz : (0 <? span isdigit (String c s))%nat = false).
    { cbn [span]. now rewrite Dc. }
    rewrite Hz. cbn [andb]. apply IH; [lia | discriminate].
Qed.

(** [re.findall] with the notice pattern lists, from left to right, the
    numbers that are followed by optional white space and the letter d. *)
Lemma findall_numbers (s : string) :
  findall notice_units s = numbers_with_d false s.
Proof.
  apply (findall_numbers_bounded (String.length s)); [lia | discriminate].
Qed.

(** **** The numbers found are the numbers of the text *)

Lemma span_app_all (p : ascii -> bool) (g rest : string) :
  all_chars p g = true ->
  span p (g ++ rest) = (String.length g + span p rest)%nat.
Proof.
  induction g as [|c g IH]; intros H; [reflexivity|].
  cbn [all_chars] in H. apply andb_true_iff in H as (Hc & Hg).
  change (String c g ++ rest) with (String c (g ++ rest)).
  cbn [span String.length]. now rewrite Hc, IH.
Qed.

Lemma span_digit_unit (ws post : string) :
  all_chars isspace ws = true -> span isdigit (ws ++ "d" ++ post) = 0%nat.
Proof.
  intros H. destruct ws as [|c ws]; [reflexivity|].
  cbn [all_chars] in H. apply andb_true_iff in H as (Hc & _).
  apply space_not_digit, negb_true_iff in Hc.
  change (String c ws ++ "d" ++ post) with (String c (ws ++ "d" ++ post)).
  cbn [span]. now rewrite Hc.
Qed.

(** A number at the very start of the text, in terms of the scanner. *)
Lemma number_at_head (s g ws post : string) :
  s = g ++ ws ++ "d" ++ post -> g <> "" ->
  all_chars isdigit g = true -> all_chars isspace ws = true ->
  followed_by_d s = true /\ g = take (span isdigit s) s.
Proof.
  intros -> Hne Hg Hws.
  assert (Sp : span isdigit (g ++ ws ++ "d" ++ post) = String.length g).
  { rewrite span_app_all by exact Hg. rewrite span_digit_unit by exact Hws.
    lia. }
  unfold followed_by_d. rewrite Sp, drop_append_length, take_append_length.
  split; [|reflexivity].
  rewrite span_app_all by exact Hws. cbn [append span].
  change (isspace "d") with false. cbv iota.
  rewrite Nat.add_0_r, drop_append_length. apply prefix_empty.
Qed.

Lemma head_is_number (s : string) :
  (0 < span isdigit s)%nat -> followed_by_d s = true ->
  number_with_d false s (take (span isdigit s) s).
Proof.
  intros Hpos Fd. unfold followed_by_d in Fd.
  set (n := span isdigit s) in *. set (r := drop n s) in *.
  apply prefix_d in Fd as (post & E).
  exists "", (take (span isspace r) r), post. split; [|split; [|split]].
  - cbn [append].
    transitivity (take n s ++ drop n s); [symmetry; apply take_drop|].
    f_equal. fold r.
    transitivity (take (span isspace r) r ++ drop (span isspace r) r);
      [symmetry; apply take_drop|].
    f_equal. exact E.
  - destruct s as [|c s]; [cbn in Hpos; lia|].
    unfold n in *. cbn [span] in *. destruct (isdigit c); [|lia].
    discriminate.
  - apply all_chars_take_span.
  - split; [apply all_chars_take_span | reflexivity].
Qed.

Lemma number_with_d_cons (b : bool) (c : ascii) (s g : string) :
  number_with_d b (String c s) g <->
  (b = false /\ isdigit c = true /\ followed_by_d (String c s) = true /\
   g = take (span isdigit (String c s)) (String c s))
  \/ number_with_d (isdigit c) s g.
Proof.
  split.
  - intros (pre & ws & post & E & Hne & Hg & Hws & Hb).
    destruct pre as [|x pre].
    + left. cbn [append digit_before] in *.
      destruct (number_at_head _ g ws post E Hne Hg Hws) as (Fd & Eg).
      repeat split; try assumption.
      destruct g as [|y g]; [contradiction|].
      cbn [append] in E. injection E as -> _.
      cbn [all_chars] in Hg. now apply andb_true_iff in Hg as (Hy & _).
    + right. cbn [append] in E. injection E as -> ->.
      now exists pre, ws, post.
  - intros [(-> & Dc & Fd & ->)|(pre & ws & post & -> & Hne & Hg & Hws & Hb)].
    + apply head_is_number; [|exact Fd]. cbn [span]. rewrite Dc. lia.
    + now exists (String c pre), ws, post.
Qed.

Lemma number_with_d_empty (b : bool) (g : string) : ~ number_with_d b "" g.
Proof.
  intros (pre & ws & post & E & Hne & _).
  destruct pre; [|discriminate]. destruct g; [contradiction | discriminate].
Qed.

Lemma numbers_with_d_In (s : string) (b : bool) (g : string) :
  In g (numbers_with_d b s) <-> number_with_d b s g.
Proof.
  revert b. induction s as [|c s IH]; intros b.
  - split; [intros [] | intros H; now apply number_with_d_empty in H].
  - rewrite number_with_d_cons. cbn [numbers_with_d].
    destruct (isdigit c) eqn:Dc; destruct b; cbn [negb andb];
      try (rewrite IH; split;
           [now right
           | intros [(H1 & H2 & _)|H]; [discriminate | exact H]]).
    destruct (followed_by_d (String c s)) eqn:Fd.
    + cbn [In]. rewrite IH. split.
      * intros [<-|H]; [left | now right]. now repeat split.
      * intros [(_ & _ & _ & ->)|H]; [now left | now right].
    + rewrite IH. split; [now right|].
      intros [(_ & _ & Abs & _)|H]; [discriminate | exact H].
Qed.

(** The matches of the notice pattern in a text are its numbers followed by
    optional white space and the letter d. *)
Lemma findall_In (s g : string) :
  In g (findall notice_units s) <-> notice_number s g.
Proof. rewrite findall_numbers. apply numbers_with_d_In. Qed.

End PatternFacts.

(** * The auto-renewal rule *)

Module NoticeFacts.

Import Py PyFacts LLMService Spec AuditFacts PatternFacts.

(** What the auto-renewal rule returns when it does not raise: nothing, or
    the finding for the first match below 30. *)
Lemma check_auto_renewal_ok (text : string) (fields : dict)
  (a : list Finding) :
  check_auto_renewal text fields [] = Ok a ->
  a = [] \/
  (truthy (get fields "auto_renewal" JNull) = true /\
   contains "30" text = true /\ contains "day" (lower text) = true /\
   exists m,
     first_below_30 (findall notice_units (lower text)) m /\
     a = [auto_renewal_finding text m]).
Proof.
  unfold check_auto_renewal.
  pose proof (notice_loop_cases (findall notice_units (lower text))) as C.
  destruct (truthy _); [|intros [= <-]; now left].
  destruct (contains "30" text); [|intros [= <-]; now left].
  destruct (contains "day" (lower text)); [|intros [= <-]; now left].
  cbn [andb].
  destruct (notice_loop _) as [[m|]|e];
    [|intros [= <-]; now left | discriminate].
  intros [= <-]. right. repeat split. now exists m.
Qed.

(** When the auto-renewal rule fires. *)
Lemma auto_renewal_fires (text : string) (fields : dict) (m : string) :
  truthy (get fields "auto_renewal" JNull) = true ->
  contains "30" text = true -> contains "day" (lower text) = true ->
  first_below_30 (findall notice_units (lower text)) m ->
  check_auto_renewal text fields [] = Ok [auto_renewal_finding text m].
Proof.
  intros T G30 Gday F. unfold check_auto_renewal.
  rewrite T, G30, Gday. cbn [andb].
  now rewrite (notice_loop_some _ m F).
Qed.

Lemma auto_renewal_finding_origin (text : string) (fields : dict)
  (fs : list Finding) (f : Finding) :
  audit_contract None text fields = Ok fs ->
  In f fs ->
  category f = "auto_renewal" ->
  truthy (get fields "auto_renewal" JNull) = true /\
  exists m,
    first_below_30 (findall notice_units (lower text)) m /\
    f = auto_renewal_finding text m.
Proof.
  intros E Hin Hc. apply audit_contract_ok in E as (a & Ea & ->).
  apply in_app_or in Hin as [Hin|Hin].
  - apply check_auto_renewal_ok in Ea
      as [->|(T & _ & _ & m & F & ->)]; [destruct Hin|].
    destruct Hin as [<-|[]]. split; [exact T|]. now exists m.
  - exfalso. apply in_app_or in Hin as [Hin|Hin].
    { unfold check_unlimited_liability in Hin.
      destruct (_ && _); [|destruct Hin].
      destruct Hin as [<-|[]]. discriminate. }
    apply in_app_or in Hin as [Hin|Hin].
    { unfold check_liability_cap in Hin.
      destruct (_ && _); [|destruct Hin].
      destruct (_ || _); [|destruct Hin].
      destruct Hin as [<-|[]]. discriminate. }
    unfold check_indemnity in Hin.
    destruct (_ && _); [|destruct Hin].
    destruct (existsb _ _); [|destruct Hin].
    destruct Hin as [<-|[]]. discriminate.
Qed.

Lemma auto_renewal_count (text : string) (fields : dict)
  (fs : list Finding) :
  audit_contract None text fields = Ok fs ->
  (count_kind "high" "auto_renewal" fs <= 1)%nat.
Proof.
  intros E. apply audit_contract_ok in E as (a & Ea & ->).
  rewrite !count_kind_app.
  rewrite unlimited_rule_kind by (right; discriminate).
  rewrite liability_cap_rule_kind by discriminate.
  rewrite indemnity_rule_kind by discriminate.
  apply check_auto_renewal_ok in Ea as [->|(_ & _ & _ & m & _ & ->)].
  - cbn. lia.
  - rewrite count_kind_one. destruct (_ && _); lia.
Qed.

(** C1, as stated, fails: the fee clause has no number below 30 followed
    by "day" or "days", yet with [auto_renewal] set an auto-renewal
    finding is emitted, for the 5 in "5 dollars". *)
Lemma auto_renewal_claim_fails :
  truthy (get Sample.renews "auto_renewal" JNull) = true /\
  claimed_short_notice Sample.fee_clause = false /\
  audit_contract None Sample.fee_clause Sample.renews
  = Ok [auto_renewal_finding Sample.fee_clause "5"].
Proof. repeat split; reflexivity. Qed.

(** C1 (amended): whenever [audit_contract] returns, its findings are the
    rule findings followed by what the client returns (nothing without a
    client), and there is among the rule findings one of severity "high"
    and category "auto_renewal" only if [fields.auto_renewal] is true and
    the lower-cased text has a number that is followed, after optional
    white space, by the letter d (as in "day", "days" or "d") and whose
    value is below 30.  There is at most one such finding, and it is built
    from the first match of the pattern, from left to right, whose value
    is below 30. *)
Theorem auto_renewal_rule (client : option Client) (text : string)
  (fields : dict) (fs : list Finding) :
  audit_contract client text fields = Ok fs ->
  exists rules,
    audit_contract None text fields = Ok rules /\
    fs = (rules ++ llm_findings client text fields)%list /\
    ((exists f, In f rules /\
                severity f = "high" /\ category f = "auto_renewal")
     -> truthy (get fields "auto_renewal" JNull) = true /\
        exists g, notice_number (lower text) g /\ value g < 30) /\
    (count_kind "high" "auto_renewal" rules <= 1)%nat /\
    (forall f, In f rules ->
               category f = "auto_renewal" ->
               exists m,
                 first_below_30 (findall notice_units (lower text)) m /\
                 f = auto_renewal_finding text m).
Proof.
  rewrite audit_contract_client.
  destruct (audit_contract None text fields) as [rules|e] eqn:E;
    [|discriminate].
  intros [= <-]. exists rules. split; [reflexivity|].
  split; [reflexivity|]. split; [|split].
  - intros (f & Hin & _ & Hc).
    destruct (auto_renewal_finding_origin text fields rules f E Hin Hc)
      as (T & m & (before & after & El & _ & Hv & _) & _).
    split; [exact T|]. exists m. split; [|exact Hv].
    apply findall_In. rewrite El. apply in_or_app. right. now left.
  - exact (auto_renewal_count text fields rules E).
  - intros f Hin Hc.
    destruct (auto_renewal_finding_origin text fields rules f E Hin Hc)
      as (_ & m & F & ->).
    now exists m.
Qed.

Lemma auto_renewal_rule_witness :
  audit_contract None Sample.short_notice_clause Sample.renews
  = Ok [auto_renewal_finding Sample.short_notice_clause "10"] /\
  truthy (get Sample.renews "auto_renewal" JNull) = true /\
  exists g, notice_number (lower Sample.short_notice_clause) g /\
            value g < 30.
Proof.
  split; [reflexivity|].
  destruct (auto_renewal_rule None Sample.short_notice_clause Sample.renews
              [auto_renewal_finding Sample.short_notice_clause "10"]
              eq_refl) as (rules & Er & _ & H & _).
  injection Er as <-.
  apply H. eexists. split; [now left|]. split; reflexivity.
Defined.

(** The rule on a text that passes its guard: the first match below 30 is
    the 10 of "10 days", behind the 30 of "30 days". *)
Example auto_renewal_short_notice :
  findall notice_units (lower Sample.short_notice_clause) = ["30"; "10"] /\
  audit_contract None Sample.short_notice_clause Sample.renews
  = Ok [auto_renewal_finding Sample.short_notice_clause "10"].
Proof. split; reflexivity. Qed.

(** The rule is only reached on a text that contains "30" and "day": the
    renewal clause of the sample contract, with its 10 days of notice and
    [auto_renewal] set by the keyword extraction, gets no finding. *)
Example auto_renewal_behind_guard :
  truthy (get (_basic_extraction Sample.renewal_clause) "auto_renewal" JNull)
  = true /\
  claimed_short_notice Sample.renewal_clause = true /\
  contains "30" Sample.renewal_clause = false /\
  audit_contract None Sample.renewal_clause
    (_basic_extraction Sample.renewal_clause) = Ok [].
Proof. repeat split; reflexivity. Qed.

(** A number the conversion refuses: [audit_contract] raises at the number
    of 4301 digits, in front of the 5 it would otherwise report. *)
Example audit_of_overlong_number :
  findall notice_units (lower Sample.overlong_clause)
  = ["30"; Sample.digits_4301; "5"] /\
  len Sample.digits_4301 = 4301 /\
  audit_contract None Sample.overlong_clause Sample.renews
  = Raise ValueError.
Proof. vm_compute. repeat split; reflexivity. Qed.

End NoticeFacts.

(** * More on text extraction and the stored documents *)

Module ExtractionFacts.

Import Py PyFacts PDFService Spec PDFFacts.

(** A page of a laid out list sits in the flat text at its [char_start],
    with the separator behind it. *)
Lemma laid_out_embedded_sep (s : Z) (ps : list Page) (p : Page) :
  laid_out s ps -> In p ps ->
  exists pre post,
    flat ps = pre ++ text p ++ String newline "" ++ post /\
    len pre = char_start p - s /\
    char_end p = char_start p + len (text p).
Proof.
  revert s. induction ps as [|q ps IH]; intros s L Hin; [destruct Hin|].
  destruct L as (L1 & L2 & L3). destruct Hin as [->|Hin].
  - exists "", (flat ps). simpl. repeat split; [|lia].
    change (len "") with 0. lia.
  - destruct (IH _ L3 Hin) as (pre & post & F & Hpre & Hend).
    exists (text q ++ String newline "" ++ pre), post. simpl.
    rewrite F. repeat split.
    + now rewrite !append_assoc.
    + rewrite len_append, len_String, Hpre. lia.
    + exact Hend.
Qed.

Lemma laid_out_next (s : Z) (ps : list Page) (i : nat) (p q : Page) :
  laid_out s ps -> nth_error ps i = Some p -> nth_error ps (S i) = Some q ->
  char_start q = char_end p + 1.
Proof.
  revert s i. induction ps as [|x ps IH]; intros s i L Hp Hq.
  - destruct i; discriminate.
  - destruct L as (L1 & L2 & L3). destruct i as [|i]; simpl in Hp, Hq.
    + injection Hp as ->. destruct ps as [|y ps]; [discriminate|].
      injection Hq as ->. now destruct L3 as (L4 & _).
    + exact (IH _ i L3 Hp Hq).
Qed.

(** X1: in every document stored by [extract_text] the offset table lists
    the [char_start] of the pages, the first page starts at 0, each further
    page starts one character behind the end of the page in front of it,
    and every page is the slice [full_text[char_start:char_end]] of the
    full text, with a newline at [char_end]. *)
Theorem stored_pages_layout (up : Uploads) (d d' : DataDir) (id : string)
  (md : Metadata) :
  extract_text up d id = (Ok md, d') ->
  page_offsets md = map char_start (pages md) /\
  (forall p, nth_error (pages md) 0 = Some p -> char_start p = 0) /\
  (forall i p q,
      nth_error (pages md) i = Some p ->
      nth_error (pages md) (S i) = Some q ->
      char_start q = char_end p + 1) /\
  (forall p, In p (pages md) ->
      0 <= char_start p /\
      char_end p = char_start p + len (text p) /\
      slice (full md) (char_start p) (char_end p) = text p /\
      slice (full md) (char_end p) (char_end p + 1) = String newline "").
Proof.
  intros E.
  destruct (resolver_after_extract up d d' id md 0 E) as (L & O & _ & F & _).
  split; [exact O|]. split; [|split].
  - intros p Hp. destruct (pages md) as [|q ps]; [discriminate|].
    injection Hp as ->. now destruct L as (L1 & _).
  - intros i p q Hp Hq. exact (laid_out_next 0 _ i p q L Hp Hq).
  - intros p Hp.
    destruct (laid_out_embedded_sep 0 _ p L Hp) as (pre & post & Fl & Hpre & He).
    pose proof (len_nonneg pre). pose proof (len_nonneg (text p)).
    split; [lia|]. split; [exact He|]. rewrite F, Fl. split.
    + replace (char_start p) with (len pre + Z.of_nat 0) by lia.
      replace (char_end p)
        with (len pre + Z.of_nat 0 + Z.of_nat (String.length (text p)))
        by (unfold len in *; lia).
      rewrite slice_embedded by (simpl; lia).
      cbn [drop]. now apply take_all.
    + rewrite <- (append_assoc pre).
      replace (char_end p) with (len (pre ++ text p) + Z.of_nat 0)
        by (rewrite len_append; lia).
      replace (len (pre ++ text p) + Z.of_nat 0 + 1)
        with (len (pre ++ text p) + Z.of_nat 0 + Z.of_nat 1) by lia.
      rewrite (slice_embedded (pre ++ text p) (String newline "") post 0 1)
        by (simpl; lia).
      reflexivity.
Qed.

Lemma stored_pages_layout_witness :
  extract_text (Sample.file_on_disk "c1" Sample.contract) Sample.no_data "c1"
  = (Ok Sample.contract_metadata, Sample.contract_data) /\
  page_offsets Sample.contract_metadata
  = map char_start (pages Sample.contract_metadata) /\
  (forall p, nth_error (pages Sample.contract_metadata) 0 = Some p ->
             char_start p = 0) /\
  (forall i p q,
      nth_error (pages Sample.contract_metadata) i = Some p ->
      nth_error (pages Sample.contract_metadata) (S i) = Some q ->
      char_start q = char_end p + 1) /\
  (forall p, In p (pages Sample.contract_metadata) ->
      0 <= char_start p /\
      char_end p = char_start p + len (text p) /\
      slice (full Sample.contract_metadata) (char_start p) (char_end p)
      = text p /\
      slice (full Sample.contract_metadata) (char_end p) (char_end p + 1)
      = String newline "").
Proof.
  split; [reflexivity|].
  apply (stored_pages_layout (Sample.file_on_disk "c1" Sample.contract)
           Sample.no_data Sample.contract_data "c1").
  reflexivity.
Defined.

(** **** What [extract_text] leaves in the data directory *)

(** X2: [extract_text] succeeds exactly when the file exists and one of the
    two parsers reads it to the end.  A failure is [FileNotFoundError] for a
    missing file and the parser's error otherwise, and leaves the data
    directory as it was; a success stores the returned metadata under the
    document id, where [get_metadata] finds it, and touches no other
    document. *)
Theorem extract_text_store (up : Uploads) (d d' : DataDir) (id : string)
  (r : result Metadata) :
  extract_text up d id = (r, d') ->
  ((exists md, r = Ok md) <->
   exists f, up id = Some f /\
             ((exists ts, pdfplumber f = Pages ts) \/
              (exists ts, pypdf2 f = Pages ts))) /\
  (forall e, r = Raise e ->
             d' = d /\ (e = FileNotFoundError <-> up id = None)) /\
  (forall md, r = Ok md -> get_metadata d' id = Ok md) /\
  (forall k, k <> id -> get_metadata d' k = get_metadata d k).
Proof.
  unfold extract_text, run_parsers.
  destruct (up id) as [f|].
  - destruct (pdfplumber f) as [ts|ts] eqn:P1.
    + intros [= <- <-]. split; [|split; [|split]].
      * split; [intros _ | intros _; eauto].
        exists f. split; [reflexivity|]. left. now exists ts.
      * discriminate.
      * intros md [= <-]. apply get_metadata_write.
      * intros k Hk. unfold get_metadata, write.
        destruct (String.eqb_spec k id); [contradiction | reflexivity].
    + destruct (pypdf2 f) as [us|us] eqn:P2.
      * intros [= <- <-]. split; [|split; [|split]].
        -- split; [intros _ | intros _; eauto].
           exists f. split; [reflexivity|]. right. now exists us.
        -- discriminate.
        -- intros md [= <-]. apply get_metadata_write.
        -- intros k Hk. unfold get_metadata, write.
           destruct (String.eqb_spec k id); [contradiction | reflexivity].
      * intros [= <- <-]. split; [|split; [|split]].
        -- split; [intros (md & [=])|].
           intros (f' & [= <-] & [(ts' & H)|(ts' & H)]); congruence.
        -- intros e [= <-]. split; [reflexivity|].
           split; discriminate.
        -- discriminate.
        -- reflexivity.
  - intros [= <- <-]. split; [|split; [|split]].
    + split; [intros (md & [=]) | intros (f & [=] & _)].
    + intros e [= <-]. now repeat split.
    + discriminate.
    + reflexivity.
Qed.

Lemma extract_text_store_witness :
  extract_text (Sample.file_on_disk "c1" Sample.contract) Sample.no_data "c1"
  = (Ok Sample.contract_metadata, Sample.contract_data) /\
  ((exists md, Ok Sample.contract_metadata = Ok md) <->
   exists f, Sample.file_on_disk "c1" Sample.contract "c1" = Some f /\
             ((exists ts, pdfplumber f = Pages ts) \/
              (exists ts, pypdf2 f = Pages ts))) /\
  (forall e, Ok Sample.contract_metadata = Raise e ->
             Sample.contract_data = Sample.no_data /\
             (e = FileNotFoundError <->
              Sample.file_on_disk "c1" Sample.contract "c1" = None)) /\
  (forall md, Ok Sample.contract_metadata = Ok md ->
              get_metadata Sample.contract_data "c1" = Ok md) /\
  (forall k, k <> "c1" ->
             get_metadata Sample.contract_data k
             = get_metadata Sample.no_data k).
Proof.
  split; [reflexivity|].
  apply (extract_text_store (Sample.file_on_disk "c1" Sample.contract)
           Sample.no_data Sample.contract_data "c1").
  reflexivity.
Defined.

(** **** The pages of both passes *)

Lemma page_loop_texts (ts : list string) (n : Z) (a : Acc) :
  map text (text_by_page (page_loop n ts a))
  = (map text (text_by_page a) ++ ts)%list /\
  map page (text_by_page (page_loop n ts a))
  = (map page (text_by_page a)
     ++ map (fun k => n + Z.of_nat k) (seq 0 (List.length ts)))%list.
Proof.
  revert n a. induction ts as [|t ts IH]; intros n a; simpl.
  - now rewrite !app_nil_r.
  - destruct (IH (n + 1) (add_page a n t)) as (IH1 & IH2).
    rewrite IH1, IH2. simpl. rewrite !map_app. simpl.
    rewrite <- !app_assoc. simpl. split; [reflexivity|].
    do 2 f_equal; [f_equal; lia|].
    rewrite <- seq_shift, map_map. apply map_ext. intros k. lia.
Qed.

(** X3: the stored pages are the pages [pdfplumber] delivered, numbered
    from 1, followed -- when [pdfplumber] raised -- by all pages of
    [PyPDF2], numbered from 1 again: pages delivered before the first
    parser broke off are kept in front of the fallback's. *)
Theorem stored_page_texts (up : Uploads) (d d' : DataDir) (id : string)
  (md : Metadata) (f : PdfFile) :
  extract_text up d id = (Ok md, d') -> up id = Some f ->
  map text (pages md)
  = (map or_empty (delivered (pdfplumber f))
     ++ match pdfplumber f with
        | Pages _ => []
        | Breaks _ => delivered (pypdf2 f)
        end)%list /\
  map page (pages md)
  = (map (fun k => 1 + Z.of_nat k)
         (seq 0 (List.length (delivered (pdfplumber f))))
     ++ match pdfplumber f with
        | Pages _ => []
        | Breaks _ =>
            map (fun k => 1 + Z.of_nat k)
                (seq 0 (List.length (delivered (pypdf2 f))))
        end)%list.
Proof.
  intros E Hf. apply extract_text_ok in E as (f' & a & Hf' & R & -> & _).
  rewrite Hf in Hf'. injection Hf' as <-. simpl.
  unfold run_parsers in R.
  destruct (page_loop_texts (map or_empty (delivered (pdfplumber f))) 1 acc0)
    as (T1 & N1).
  simpl in T1, N1. rewrite length_map in N1.
  destruct (pdfplumber f) as [ts|ts]; simpl in *.
  - injection R as <-. now rewrite T1, N1, !app_nil_r.
  - destruct (pypdf2 f) as [us|us]; [|discriminate].
    injection R as <-. simpl.
    destruct (page_loop_texts us 1
                (page_loop 1 (map or_empty ts) acc0)) as (T2 & N2).
    now rewrite T2, N2, T1, N1.
Qed.

Lemma stored_page_texts_witness :
  extract_text (Sample.file_on_disk "p1" Sample.broken) Sample.no_data "p1"
  = (Ok Sample.broken_metadata,
     write Sample.no_data "p1" Sample.broken_metadata) /\
  Sample.file_on_disk "p1" Sample.broken "p1" = Some Sample.broken /\
  map text (pages Sample.broken_metadata) = ["ab"; "ab"; "cd"] /\
  map page (pages Sample.broken_metadata) = [1; 1; 2].
Proof.
  split; [reflexivity|]. split; [reflexivity|].
  apply (stored_page_texts (Sample.file_on_disk "p1" Sample.broken)
           Sample.no_data (write Sample.no_data "p1" Sample.broken_metadata)
           "p1" Sample.broken_metadata Sample.broken); reflexivity.
Defined.

(** **** The resolver on any stored table *)

Lemma scan_offsets_range (all rest : list Z) (i : nat) (pos n : Z) :
  scan_offsets all i rest pos = Some n ->
  Z.of_nat i + 1 <= n <= Z.of_nat i + llen rest.
Proof.
  revert i. induction rest as [|o rest IH]; intros i H; [discriminate|].
  rewrite scan_offsets_cons in H. rewrite llen_cons.
  pose proof (llen_nonneg rest).
  destruct (_ && _); [injection H as <-; lia|].
  destruct (_ && _); [injection H as <-; lia|].
  apply IH in H. lia.
Qed.

(** X4: whatever table is stored for a document, sorted or not, the
    resolver returns a number between 1 and the number of table entries (1
    for an empty table); it fails, with [FileNotFoundError], only when no
    metadata is stored for the document. *)
Theorem page_number_in_range (d : DataDir) (id : string) (char_pos : Z) :
  (d id = None ->
   get_page_for_char_position d id char_pos = Raise FileNotFoundError) /\
  (forall md, d id = Some md ->
     exists n,
       get_page_for_char_position d id char_pos = Ok n /\
       1 <= n <= Z.max 1 (llen (page_offsets md))).
Proof.
  unfold get_page_for_char_position, get_metadata. split.
  - now intros ->.
  - intros md ->. eexists. split; [reflexivity|]. unfold page_of.
    destruct (scan_offsets _ 0 _ char_pos) as [n|] eqn:Sc; [|lia].
    apply scan_offsets_range in Sc. simpl in Sc. lia.
Qed.

Lemma page_number_in_range_witness :
  (Sample.contract_data "zz" = None ->
   get_page_for_char_position Sample.contract_data "zz" 5
   = Raise FileNotFoundError) /\
  (forall md, Sample.contract_data "c1" = Some md ->
     exists n,
       get_page_for_char_position Sample.contract_data "c1" 5 = Ok n /\
       1 <= n <= Z.max 1 (llen (page_offsets md))).
Proof.
  split.
  - apply (page_number_in_range Sample.contract_data "zz" 5).
  - apply (page_number_in_range Sample.contract_data "c1" 5).
Defined.

End ExtractionFacts.

(** * More on the chunking loop *)

Module ChunkFacts.

Import Py PyFacts PDFService RAGService Spec Props PDFFacts RAGFacts.

Lemma window_loop_flat (id : string) (p : Page) (size : Z)
  (starts : list Z) (acc : list Chunk) :
  window_loop id p size starts acc
  = (acc ++ flat_map (fun i => match window id p size i with
                               | Some c => [c]
                               | None => []
                               end) starts)%list.
Proof.
  revert acc. induction starts as [|i starts IH]; intros acc; simpl.
  - now rewrite app_nil_r.
  - destruct (window id p size i) as [c|]; rewrite IH.
    + now rewrite <- app_assoc.
    + reflexivity.
Qed.

(** With a non-zero stride the chunk list is the concatenation of the
    chunks of the pages, in page order. *)
Lemma chunk_pages_flat (id : string) (ps : list Page) (size overlap : Z)
  (acc : list Chunk) :
  size - overlap <> 0 ->
  chunk_pages id ps size overlap acc
  = Ok (acc ++ flat_map (page_chunks id size (size - overlap)) ps)%list.
Proof.
  intros Hstep. revert acc. induction ps as [|p ps IH]; intros acc; simpl.
  - now rewrite app_nil_r.
  - unfold range0. destruct (Z.eqb_spec (size - overlap) 0); [contradiction|].
    rewrite IH, window_loop_flat, <- app_assoc. do 3 f_equal.
    unfold page_chunks. now rewrite flat_map_concat_map, map_map,
      <- flat_map_concat_map.
Qed.

Lemma page_chunks_In (id : string) (size step : Z) (p : Page) (c : Chunk) :
  0 < step ->
  In c (page_chunks id size step p) <->
  exists k, 0 <= k /\ k * step < len (text p) /\
            window id p size (k * step) = Some c.
Proof.
  intros Hstep. unfold page_chunks. rewrite in_flat_map. split.
  - intros (k & Hk & Hc). apply in_seq in Hk.
    exists (Z.of_nat k). split; [lia|]. split.
    + unfold range_count in Hk. destruct (Z.ltb_spec 0 step); [|lia].
      assert (Hq : Z.of_nat k < (len (text p) + step - 1) / step) by lia.
      pose proof (Z.mul_div_le (len (text p) + step - 1) step ltac:(lia)).
      nia.
    + destruct (window id p size (Z.of_nat k * step)) as [c'|];
        [destruct Hc as [->|[]]; reflexivity | destruct Hc].
  - intros (k & Hk0 & Hk & W). exists (Z.to_nat k). split.
    + apply in_seq. split; [lia|]. simpl.
      unfold range_count. destruct (Z.ltb_spec 0 step); [|lia].
      pose proof (Z.div_le_lower_bound (len (text p) + step - 1) step
                    (k + 1) Hstep ltac:(nia)).
      lia.
    + rewrite Z2Nat.id by lia. rewrite W. now left.
Qed.

(** **** Blank windows *)

Lemma rstrip_empty (s : string) :
  rstrip s = "" -> all_chars isspace s = true.
Proof.
  induction s as [|c s IH]; simpl; [reflexivity|].
  destruct (rstrip s); [|discriminate].
  destruct (isspace c); [intros _; now apply IH | discriminate].
Qed.

Lemma lstrip_head (s : string) :
  match lstrip s with
  | EmptyString => all_chars isspace s = true
  | String c _ => isspace c = false
  end.
Proof.
  induction s as [|c s IH]; simpl; [reflexivity|].
  destruct (isspace c) eqn:E; simpl; [|exact E].
  destruct (lstrip s); [exact IH | exact IH].
Qed.

(** [not chunk.strip()] holds exactly for a string of white space. *)
Lemma strip_blank (s : string) :
  nonempty (strip s) = negb (all_chars isspace s).
Proof.
  unfold strip. pose proof (lstrip_head s) as H.
  destruct (lstrip s) as [|c r] eqn:E.
  - now rewrite H.
  - destruct (rstrip (String c r)) eqn:R.
    + apply rstrip_empty in R. simpl in R. rewrite H in R. discriminate.
    + simpl. symmetry. apply negb_true_iff.
      destruct (all_chars isspace s) eqn:A; [|reflexivity].
      exfalso. clear R.
      revert E. clear H. revert A.
      induction s as [|x s IH]; simpl; [discriminate|].
      intros A. apply andb_true_iff in A as (Hx & Hs). rewrite Hx.
      now apply IH.
Qed.

Lemma length_slice_le (s : string) (a b : Z) :
  len (slice s a b) <= Z.max 0 (bound (len s) b - bound (len s) a).
Proof. unfold slice, len at 1. rewrite length_take. lia. Qed.

(** What a window that is emitted looks like. *)
Lemma window_some (id : string) (p : Page) (size i : Z) (c : Chunk) :
  window id p size i = Some c ->
  all_chars isspace (slice (text p) i (i + size)) = false /\
  c = {| chunk_id := id ++ "_page" ++ str (page p) ++ "_chunk" ++ str i;
         chunk := slice (text p) i (i + size);
         chunk_document_id := id;
         chunk_page := page p;
         chunk_start := char_start p + i;
         chunk_end := Z.min (char_start p + i
                             + len (slice (text p) i (i + size)))
                            (char_end p) |}.
Proof.
  unfold window. rewrite strip_blank, negb_involutive.
  destruct (all_chars isspace _); [discriminate|].
  intros [= <-]. now split.
Qed.

(** X5: for every stored document, every window size [chunk_size >= 1] and
    every stride [chunk_size - chunk_overlap >= 1], [index_document] reaches
    the end of its chunking loop, and every chunk it emits belongs to the
    document, is not blank, has between 1 and [chunk_size] characters, and
    is the window [page_text[i:i + chunk_size]] of a page at a multiple [i]
    of the stride, with [char_start] the page's [char_start] plus [i]. *)
Theorem chunk_shape (d : DataDir) (id text : string) (md : Metadata)
  (chunk_size chunk_overlap : Z) :
  d id = Some md -> 0 < chunk_size -> chunk_overlap < chunk_size ->
  exists chunks,
    index_document d id text chunk_size chunk_overlap = Ok chunks /\
    forall c, In c chunks ->
      chunk_document_id c = id /\
      1 <= len (chunk c) <= chunk_size /\
      all_chars isspace (chunk c) = false /\
      exists p k,
        In p (pages md) /\ 0 <= k /\
        k * (chunk_size - chunk_overlap) < len (PDFService.text p) /\
        chunk_page c = page p /\
        chunk_start c = char_start p + k * (chunk_size - chunk_overlap) /\
        chunk c = slice (PDFService.text p)
                    (k * (chunk_size - chunk_overlap))
                    (k * (chunk_size - chunk_overlap) + chunk_size).
Proof.
  intros Hd Hsize Hlt. unfold index_document, get_metadata. rewrite Hd.
  rewrite chunk_pages_flat by lia. eexists. split; [reflexivity|].
  intros c Hc. cbn [app] in Hc. apply in_flat_map in Hc as (p & Hp & Hc).
  apply page_chunks_In in Hc as (k & Hk0 & Hk & W); [|lia].
  apply window_some in W as (Hblank & ->). cbn.
  set (i := k * (chunk_size - chunk_overlap)) in *.
  set (w := slice (PDFService.text p) i (i + chunk_size)) in *.
  split; [reflexivity|]. split; [|split; [exact Hblank|]].
  - split.
    + destruct w; [discriminate|]. rewrite len_String.
      pose proof (len_nonneg w). lia.
    + pose proof (length_slice_le (PDFService.text p) i (i + chunk_size))
        as Hle. fold w in Hle. unfold bound in Hle.
      assert (0 <= i) by (unfold i; nia).
      destruct (Z.ltb_spec (i + chunk_size) 0); [lia|].
      destruct (Z.ltb_spec i 0); lia.
  - exists p, k. repeat split; auto.
Qed.

Lemma chunk_shape_witness :
  Sample.contract_data "c1" = Some Sample.contract_metadata /\
  0 < 20 /\ 5 < 20 /\
  exists chunks,
    index_document Sample.contract_data "c1" "" 20 5 = Ok chunks /\
    forall c, In c chunks ->
      chunk_document_id c = "c1" /\
      1 <= len (chunk c) <= 20 /\
      all_chars isspace (chunk c) = false /\
      exists p k,
        In p (pages Sample.contract_metadata) /\ 0 <= k /\
        k * (20 - 5) < len (PDFService.text p) /\
        chunk_page c = page p /\
        chunk_start c = char_start p + k * (20 - 5) /\
        chunk c = slice (PDFService.text p) (k * (20 - 5))
                    (k * (20 - 5) + 20).
Proof.
  split; [reflexivity|]. split; [reflexivity|]. split; [reflexivity|].
  apply (chunk_shape Sample.contract_data "c1" ""
           Sample.contract_metadata 20 5); reflexivity.
Defined.

(** **** The order of the chunks *)

Lemma sorted_app (l1 l2 : list Z) :
  StronglySorted Z.lt l1 -> StronglySorted Z.lt l2 ->
  (forall x y, In x l1 -> In y l2 -> x < y) ->
  StronglySorted Z.lt (l1 ++ l2).
Proof.
  intros S1 S2 H. induction l1 as [|x l1 IH]; [exact S2|].
  inversion S1 as [|? ? S1' F]; subst. simpl. constructor.
  - apply IH; [exact S1'|]. intros a b Ha Hb. apply H; [now right | exact Hb].
  - apply Forall_app. split; [exact F|].
    apply Forall_forall. intros y Hy. apply H; [now left | exact Hy].
Qed.

Lemma page_chunks_starts (id : string) (size step : Z) (p : Page) (c : Chunk) :
  0 < step -> In c (page_chunks id size step p) ->
  char_start p <= chunk_start c < char_start p + len (text p).
Proof.
  intros Hstep Hc. apply page_chunks_In in Hc as (k & Hk0 & Hk & W);
    [|exact Hstep].
  apply window_some in W as (_ & ->). cbn. nia.
Qed.

Lemma windows_sorted (id : string) (size step : Z) (p : Page) (n a : nat) :
  0 < step ->
  StronglySorted Z.lt
    (map chunk_start
       (flat_map (fun k => match window id p size (Z.of_nat k * step) with
                           | Some c => [c]
                           | None => []
                           end) (seq a n))) /\
  Forall (fun x => char_start p + Z.of_nat a * step <= x)
    (map chunk_start
       (flat_map (fun k => match window id p size (Z.of_nat k * step) with
                           | Some c => [c]
                           | None => []
                           end) (seq a n))).
Proof.
  intros Hstep. revert a. induction n as [|n IH]; intros a; simpl.
  - split; constructor.
  - destruct (IH (S a)) as (Srt & Low).
    assert (Low' : Forall (fun x => char_start p + Z.of_nat a * step < x)
              (map chunk_start
                 (flat_map
                    (fun k => match window id p size (Z.of_nat k * step) with
                              | Some c => [c]
                              | None => []
                              end) (seq (S a) n)))).
    { eapply Forall_impl; [|exact Low]. cbv beta. intros x Hx.
      rewrite Nat2Z.inj_succ in Hx. nia. }
    destruct (window id p size (Z.of_nat a * step)) as [c|] eqn:W; simpl.
    + apply window_some in W as (_ & ->). cbn. split.
      * constructor; [exact Srt | exact Low'].
      * constructor; [lia|]. eapply Forall_impl; [|exact Low'].
        simpl. intros; lia.
    + split; [exact Srt|]. eapply Forall_impl; [|exact Low'].
      simpl. intros; lia.
Qed.

Lemma pages_chunks_sorted (id : string) (size step s : Z) (ps : list Page) :
  0 < step -> laid_out s ps ->
  StronglySorted Z.lt
    (map chunk_start (flat_map (page_chunks id size step) ps)) /\
  Forall (fun x => s <= x)
    (map chunk_start (flat_map (page_chunks id size step) ps)).
Proof.
  intros Hstep. revert s. induction ps as [|p ps IH]; intros s L; simpl.
  - split; constructor.
  - destruct L as (L1 & L2 & L3). destruct (IH _ L3) as (Srt & Low).
    rewrite map_app.
    assert (Hp : forall x,
               In x (map chunk_start (page_chunks id size step p)) ->
               s <= x < char_end p).
    { intros x Hx. apply in_map_iff in Hx as (c & <- & Hc).
      apply page_chunks_starts in Hc; [lia | exact Hstep]. }
    split.
    + apply sorted_app; [|exact Srt|].
      * unfold page_chunks.
        apply (windows_sorted id size step p _ 0 Hstep).
      * intros x y Hx Hy. apply Hp in Hx.
        rewrite Forall_forall in Low. apply Low in Hy. lia.
    + apply Forall_app. split.
      * apply Forall_forall. intros x Hx. apply Hp in Hx. lia.
      * eapply Forall_impl; [|exact Low]. simpl. intros x Hx.
        pose proof (len_nonneg (text p)). lia.
Qed.

(** X6: the chunks of a document stored by [extract_text] come in the order
    of the text: along the emitted list [char_start] increases strictly (so
    page by page and, within a page, window by window, and no two chunks
    start at the same offset). *)
Theorem chunk_order (up : Uploads) (d d' : DataDir) (id text : string)
  (md : Metadata) (chunk_size chunk_overlap : Z) (chunks : list Chunk) :
  extract_text up d id = (Ok md, d') -> chunk_overlap < chunk_size ->
  index_document d' id text chunk_size chunk_overlap = Ok chunks ->
  StronglySorted Z.lt (map chunk_start chunks).
Proof.
  intros E Hlt.
  destruct (resolver_after_extract up d d' id md 0 E) as (L & _).
  apply extract_text_ok in E as (f & a & _ & _ & _ & ->).
  unfold index_document. rewrite get_metadata_write.
  rewrite chunk_pages_flat by lia. intros [= <-]. cbn [app].
  apply (pages_chunks_sorted id chunk_size _ 0); [lia | exact L].
Qed.

Lemma chunk_order_witness :
  extract_text (Sample.file_on_disk "c1" Sample.contract) Sample.no_data "c1"
  = (Ok Sample.contract_metadata, Sample.contract_data) /\
  5 < 20 /\
  index_document Sample.contract_data "c1" "" 20 5
  = Ok Sample.contract_chunks /\
  StronglySorted Z.lt (map chunk_start Sample.contract_chunks).
Proof.
  split; [reflexivity|]. split; [reflexivity|]. split; [reflexivity|].
  apply (chunk_order (Sample.file_on_disk "c1" Sample.contract)
           Sample.no_data Sample.contract_data "c1" ""
           Sample.contract_metadata 20 5); reflexivity.
Defined.

(** **** Chunks and the offset resolver *)

(** X9: when the first parser did not break off after delivering pages,
    the offset resolver maps every position of a chunk, from its
    [char_start] to its [char_end], to the page number recorded in the
    chunk: citations and resolved pages agree. *)
Theorem chunk_page_resolves (up : Uploads) (d d' : DataDir) (id text : string)
  (md : Metadata) (f : PdfFile) (chunk_size chunk_overlap : Z)
  (chunks : list Chunk) (c : Chunk) (char_pos : Z) :
  extract_text up d id = (Ok md, d') -> up id = Some f -> one_pass f ->
  chunk_overlap < chunk_size ->
  index_document d' id text chunk_size chunk_overlap = Ok chunks ->
  In c chunks -> chunk_start c <= char_pos <= chunk_end c ->
  get_page_for_char_position d' id char_pos = Ok (chunk_page c).
Proof.
  intros E Hf One Hlt Hix Hc Hpos.
  destruct (resolver_after_extract up d d' id md char_pos E)
    as (L & O & _ & _ & G).
  rewrite G, O. f_equal.
  apply extract_text_ok in E as (f' & a & Hf' & R & -> & ->).
  rewrite Hf in Hf'. injection Hf' as <-.
  unfold index_document in Hix. rewrite get_metadata_write in Hix.
  rewrite chunk_pages_flat in Hix by lia. injection Hix as <-.
  cbn [app] in Hc. apply in_flat_map in Hc as (p & Hp & Hc).
  apply page_chunks_In in Hc as (k & Hk0 & Hk & W); [|lia].
  apply window_some in W as (_ & ->). cbn in Hpos |- *.
  apply In_nth_error in Hp as (i & Hi).
  simpl in L, Hi |- *.
  rewrite (count_le_on_page _ 0 i p char_pos L Hi).
  - pose proof (run_parsers_numbered f a One R i p Hi). lia.
  - nia.
  - left. lia.
Qed.

Lemma chunk_page_resolves_witness :
  extract_text (Sample.file_on_disk "c1" Sample.contract) Sample.no_data "c1"
  = (Ok Sample.contract_metadata, Sample.contract_data) /\
  Sample.file_on_disk "c1" Sample.contract "c1" = Some Sample.contract /\
  one_pass Sample.contract /\ 5 < 20 /\
  index_document Sample.contract_data "c1" "" 20 5
  = Ok Sample.contract_chunks /\
  In (mkChunk "c1_page2_chunk15" "auto-renews every ye" "c1" 2 45 65)
     Sample.contract_chunks /\
  45 <= 50 <= 65 /\
  get_page_for_char_position Sample.contract_data "c1" 50 = Ok 2.
Proof.
  split; [reflexivity|]. split; [reflexivity|]. split; [exact I|].
  split; [reflexivity|]. split; [reflexivity|].
  split; [do 3 right; now left|]. split; [split; discriminate|].
  apply (chunk_page_resolves (Sample.file_on_disk "c1" Sample.contract)
           Sample.no_data Sample.contract_data "c1" ""
           Sample.contract_metadata Sample.contract 20 5
           Sample.contract_chunks
           (mkChunk "c1_page2_chunk15" "auto-renews every ye" "c1" 2 45 65)
           50);
    first [ reflexivity | exact I | do 3 right; now left
          | split; discriminate ].
Defined.

(** **** No text is lost *)

Lemma get_drop (k n : nat) (s : string) :
  String.get n (drop k s) = String.get (k + n) s.
Proof.
  revert s. induction k as [|k IH]; intros s; [reflexivity|].
  destruct s as [|c s]; simpl; [now destruct n | apply IH].
Qed.

Lemma get_take (m n : nat) (s : string) :
  (n < m)%nat -> String.get n (take m s) = String.get n s.
Proof.
  revert n s. induction m as [|m IH]; intros n s H; [lia|].
  destruct s as [|c s]; [reflexivity|]. simpl.
  destruct n as [|n]; [reflexivity | apply IH; lia].
Qed.

Lemma all_chars_get (q : ascii -> bool) (s : string) (n : nat) (c : ascii) :
  all_chars q s = true -> String.get n s = Some c -> q c = true.
Proof.
  revert n. induction s as [|x s IH]; intros n A G; [discriminate|].
  simpl in A. apply andb_true_iff in A as (Ax & As).
  destruct n as [|n]; simpl in G; [now injection G as <- | eauto].
Qed.

Lemma get_length (s : string) (n : nat) (c : ascii) :
  String.get n s = Some c -> (n < String.length s)%nat.
Proof.
  revert n. induction s as [|x s IH]; intros n G; [discriminate|].
  destruct n as [|n]; simpl in *; [lia|]. apply IH in G. lia.
Qed.

(** A window that starts on the page: what it holds and how long it is. *)
Lemma slice_window (s : string) (i n : Z) :
  0 <= i <= len s -> 0 <= n ->
  slice s i (i + n)
  = take (Z.to_nat (Z.min (i + n) (len s) - i)) (drop (Z.to_nat i) s) /\
  len (slice s i (i + n)) = Z.min (i + n) (len s) - i.
Proof.
  intros Hi Hn.
  assert (E : slice s i (i + n)
              = take (Z.to_nat (Z.min (i + n) (len s) - i))
                     (drop (Z.to_nat i) s)).
  { unfold slice, bound. destruct (Z.ltb_spec i 0); [lia|].
    destruct (Z.ltb_spec (i + n) 0); [lia|].
    now rewrite (Z.min_l i) by lia. }
  split; [exact E|]. rewrite E. unfold len in *.
  rewrite length_take, length_drop. lia.
Qed.

Lemma window_emitted (id : string) (p : Page) (size i : Z) :
  all_chars isspace (slice (text p) i (i + size)) = false ->
  exists c, window id p size i = Some c.
Proof.
  intros H. unfold window. rewrite strip_blank, negb_involutive, H.
  eexists. reflexivity.
Qed.

(** X8: with [0 <= chunk_overlap < chunk_size] no text is lost in
    chunking: every character of a page that is not white space lies in the
    range from [char_start] up to [char_end] of a chunk emitted for that
    page. *)
Theorem chunks_cover_text (up : Uploads) (d d' : DataDir) (id text : string)
  (md : Metadata) (chunk_size chunk_overlap : Z) (chunks : list Chunk)
  (p : Page) (j : nat) (ch : ascii) :
  extract_text up d id = (Ok md, d') ->
  0 <= chunk_overlap < chunk_size ->
  index_document d' id text chunk_size chunk_overlap = Ok chunks ->
  In p (pages md) -> String.get j (PDFService.text p) = Some ch ->
  isspace ch = false ->
  exists c,
    In c chunks /\ chunk_page c = page p /\
    chunk_start c <= char_start p + Z.of_nat j < chunk_end c.
Proof.
  intros E Hov Hix Hp Hget Hch.
  destruct (resolver_after_extract up d d' id md 0 E) as (L & _).
  destruct (laid_out_embedded 0 _ p L Hp) as (_ & _ & _ & _ & Hend).
  apply extract_text_ok in E as (f & a & _ & _ & -> & ->).
  unfold index_document in Hix. rewrite get_metadata_write in Hix.
  rewrite chunk_pages_flat in Hix by lia. injection Hix as <-.
  cbn [app]. simpl in Hp.
  set (t := PDFService.text p) in *.
  set (step := chunk_size - chunk_overlap) in *.
  assert (Hstep : 0 < step <= chunk_size) by (unfold step; lia).
  pose proof (get_length _ _ _ Hget) as Hj.
  set (k := Z.of_nat j / step).
  assert (Hk : 0 <= k /\ k * step <= Z.of_nat j < k * step + step).
  { unfold k. pose proof (Z.div_mod (Z.of_nat j) step ltac:(lia)).
    pose proof (Z.mod_pos_bound (Z.of_nat j) step ltac:(lia)).
    split; [apply Z.div_pos; lia | nia]. }
  destruct (slice_window t (k * step) chunk_size) as (Ew & Lw);
    [unfold len; lia | lia|].
  assert (Hblank : all_chars isspace (slice t (k * step) (k * step + chunk_size))
                   = false).
  { destruct (all_chars isspace _) eqn:A; [|reflexivity].
    rewrite Ew in A.
    assert (G : String.get (j - Z.to_nat (k * step))
                  (take (Z.to_nat (Z.min (k * step + chunk_size) (len t)
                                   - k * step))
                        (drop (Z.to_nat (k * step)) t)) = Some ch).
    { rewrite get_take by (unfold len; lia). rewrite get_drop.
      now replace (Z.to_nat (k * step) + (j - Z.to_nat (k * step)))%nat
        with j by lia. }
    rewrite (all_chars_get _ _ _ _ A G) in Hch. discriminate. }
  destruct (window_emitted id p chunk_size (k * step) Hblank) as (c & W).
  exists c. split.
  - apply in_flat_map. exists p. split; [exact Hp|].
    apply page_chunks_In; [lia|]. exists k.
    split; [lia|]. split; [unfold len; fold t; lia | exact W].
  - apply window_some in W as (_ & ->). cbn. fold t.
    split; [reflexivity|]. unfold len in *. lia.
Qed.

Lemma chunks_cover_text_witness :
  extract_text (Sample.file_on_disk "c1" Sample.contract) Sample.no_data "c1"
  = (Ok Sample.contract_metadata, Sample.contract_data) /\
  0 <= 5 < 20 /\
  index_document Sample.contract_data "c1" "" 20 5
  = Ok Sample.contract_chunks /\
  In (mkPage 2 Sample.renewal_clause 30 88)
     (pages Sample.contract_metadata) /\
  String.get 43 Sample.renewal_clause = Some "1"%char /\
  isspace "1" = false /\
  exists c,
    In c Sample.contract_chunks /\ chunk_page c = 2 /\
    chunk_start c <= 30 + Z.of_nat 43 < chunk_end c.
Proof.
  split; [reflexivity|]. split; [split; [discriminate | reflexivity]|].
  split; [reflexivity|]. split; [right; now left|].
  split; [reflexivity|]. split; [reflexivity|].
  apply (chunks_cover_text (Sample.file_on_disk "c1" Sample.contract)
           Sample.no_data Sample.contract_data "c1" ""
           Sample.contract_metadata 20 5 Sample.contract_chunks
           (mkPage 2 Sample.renewal_clause 30 88) 43 "1"%char);
    first [ reflexivity | split; [discriminate | reflexivity]
          | right; now left ].
Defined.

(** **** Chunk ids *)

Lemma string_of_uint_digits (u : Decimal.uint) :
  all_chars isdigit (NilEmpty.string_of_uint u) = true.
Proof. induction u; simpl; auto. Qed.

Lemma string_of_uint_nonnil (u : Decimal.uint) :
  u <> Decimal.Nil ->
  NilZero.string_of_uint u = NilEmpty.string_of_uint u /\
  NilEmpty.string_of_uint u <> "".
Proof. destruct u; intros H; try contradiction; split; easy. Qed.

(** [str(n)] of a natural number is a non-empty string of digits. *)
Lemma str_digits (n : Z) :
  0 <= n -> all_chars isdigit (str n) = true /\ str n <> "".
Proof.
  intros Hn. unfold str.
  destruct n as [|q|q]; [split; [reflexivity | discriminate] | | lia].
  cbn [Z.to_int NilZero.string_of_int].
  destruct (string_of_uint_nonnil (Pos.to_uint q)
              (DecimalPos.Unsigned.to_uint_nonnil q)) as (E & Hne).
  rewrite E. split; [apply string_of_uint_digits | exact Hne].
Qed.

(** [str] is injective. *)
Lemma str_inj (a b : Z) : str a = str b -> a = b.
Proof.
  unfold str. intros H. apply DecimalZ.to_int_inj.
  assert (N : forall z, Z.to_int z <> Decimal.Pos Decimal.Nil /\
                        Z.to_int z <> Decimal.Neg Decimal.Nil).
  { intros [|q|q]; simpl; split; try discriminate;
      intros [= Hq]; now apply DecimalPos.Unsigned.to_uint_nonnil in Hq. }
  destruct (N a) as (A1 & A2). destruct (N b) as (B1 & B2).
  pose proof (NilZero.isi _ A1 A2) as Ia.
  pose proof (NilZero.isi _ B1 B2) as Ib.
  rewrite H in Ia. rewrite Ia in Ib. now injection Ib.
Qed.

Lemma append_inj_l (a x y : string) : a ++ x = a ++ y -> x = y.
Proof.
  induction a as [|c a IH]; simpl; [auto|]. intros [= H]. auto.
Qed.

(** A number and what follows it can be read back from [str n ++ "_" ...]. *)
Lemma number_prefix_inj (a b : Z) (x y : string) :
  0 <= a -> 0 <= b ->
  str a ++ String "_" x = str b ++ String "_" y -> a = b /\ x = y.
Proof.
  intros Ha Hb H.
  destruct (str_digits a Ha) as (Da & _).
  destruct (str_digits b Hb) as (Db & _).
  assert (L : String.length (str a) = String.length (str b)).
  { pose proof (PatternFacts.span_app_all isdigit (str a) (String "_" x) Da)
      as Sa.
    pose proof (PatternFacts.span_app_all isdigit (str b) (String "_" y) Db)
      as Sb.
    rewrite H in Sa. rewrite Sa in Sb. cbn [LLMService.span] in Sb.
    change (isdigit "_") with false in Sb. cbv iota in Sb. lia. }
  assert (E : str a = str b).
  { rewrite <- (take_append_length (str a) (String "_" x)).
    rewrite <- (take_append_length (str b) (String "_" y)).
    now rewrite H, L. }
  split; [now apply str_inj|].
  rewrite E in H. apply append_inj_l in H. now injection H.
Qed.

Lemma NoDup_map_sorted {A B : Type} (f : A -> Z) (g : A -> B) (l : list A) :
  StronglySorted Z.lt (map f l) ->
  (forall x y, In x l -> In y l -> g x = g y -> f x = f y) ->
  NoDup (map g l).
Proof.
  induction l as [|x l IH]; intros Srt H; simpl; [constructor|].
  simpl in Srt. inversion Srt as [|? ? Srt' F]; subst. constructor.
  - intros Hin. apply in_map_iff in Hin as (y & Hy & Hin).
    rewrite Forall_forall in F.
    specialize (F (f y) (in_map f l y Hin)).
    rewrite (H x y) in F; [lia | now left | now right | now symmetry].
  - apply IH; [exact Srt'|]. intros a b Ha Hb. apply H; now right.
Qed.

(** X7: when the first parser did not break off after delivering pages, no
    two chunks of a document get the same id, so all of them can be added
    to the vector store under their ids. *)
Theorem chunk_ids_unique (up : Uploads) (d d' : DataDir) (id text : string)
  (md : Metadata) (f : PdfFile) (chunk_size chunk_overlap : Z)
  (chunks : list Chunk) :
  extract_text up d id = (Ok md, d') -> up id = Some f -> one_pass f ->
  chunk_overlap < chunk_size ->
  index_document d' id text chunk_size chunk_overlap = Ok chunks ->
  NoDup (map chunk_id chunks).
Proof.
  intros E Hf One Hlt Hix.
  destruct (resolver_after_extract up d d' id md 0 E) as (L & _).
  apply extract_text_ok in E as (f' & a & Hf' & R & -> & ->).
  rewrite Hf in Hf'. injection Hf' as <-.
  unfold index_document in Hix. rewrite get_metadata_write in Hix.
  rewrite chunk_pages_flat in Hix by lia. injection Hix as <-.
  cbn [app]. simpl in L |- *.
  pose proof (run_parsers_numbered f a One R) as Num.
  apply (NoDup_map_sorted chunk_start).
  - apply (pages_chunks_sorted id chunk_size _ 0); [lia | exact L].
  - intros x y Hx Hy Hid.
    apply in_flat_map in Hx as (p & Hp & Hx).
    apply in_flat_map in Hy as (q & Hq & Hy).
    apply page_chunks_In in Hx as (k & Hk0 & _ & Wx); [|lia].
    apply page_chunks_In in Hy as (m & Hm0 & _ & Wy); [|lia].
    apply window_some in Wx as (_ & ->).
    apply window_some in Wy as (_ & ->). cbn in Hid |- *.
    apply In_nth_error in Hp as (i & Hi).
    apply In_nth_error in Hq as (j & Hj).
    pose proof (Num i p Hi) as Np. pose proof (Num j q Hj) as Nq.
    apply append_inj_l in Hid.
    apply (append_inj_l "_page") in Hid.
    apply number_prefix_inj in Hid as (Epage & Erest); [|lia|lia].
    apply (append_inj_l "chunk") in Erest. apply str_inj in Erest.
    assert (i = j) by lia. subst j. rewrite Hi in Hj. injection Hj as <-.
    now rewrite Erest.
Qed.

Lemma chunk_ids_unique_witness :
  extract_text (Sample.file_on_disk "c1" Sample.contract) Sample.no_data "c1"
  = (Ok Sample.contract_metadata, Sample.contract_data) /\
  Sample.file_on_disk "c1" Sample.contract "c1" = Some Sample.contract /\
  one_pass Sample.contract /\ 5 < 20 /\
  index_document Sample.contract_data "c1" "" 20 5
  = Ok Sample.contract_chunks /\
  NoDup (map chunk_id Sample.contract_chunks).
Proof.
  split; [reflexivity|]. split; [reflexivity|]. split; [exact I|].
  split; [reflexivity|]. split; [reflexivity|].
  apply (chunk_ids_unique (Sample.file_on_disk "c1" Sample.contract)
           Sample.no_data Sample.contract_data "c1" ""
           Sample.contract_metadata Sample.contract 20 5
           Sample.contract_chunks);
    first [ reflexivity | exact I ].
Defined.

(** Without the condition ids collide: after a first pass that broke off
    behind page 1, two chunks carry the id of page 1, window 0. *)
Example chunk_ids_collide :
  map chunk_id
    match index_document (write Sample.no_data "p1" Sample.broken_metadata)
            "p1" "" 1000 200 with
    | Ok chunks => chunks
    | Raise _ => []
    end
  = ["p1_page1_chunk0"; "p1_page1_chunk0"; "p1_page2_chunk0"].
Proof. reflexivity. Qed.

End ChunkFacts.

(** * More on the audit rules *)

Module RuleFacts.

Import Py PyFacts LLMService Spec AuditFacts PatternFacts.

(** **** Evidence is an excerpt *)

Lemma split_lines_nonempty (s : string) : split_lines s <> [].
Proof.
  destruct s as [|c s]; simpl; [discriminate|].
  destruct (Ascii.eqb c newline); [discriminate|].
  destruct (split_lines s); discriminate.
Qed.

(** ['\n'.join(s.split('\n')) == s] *)
Lemma join_split_lines (s : string) :
  join (String newline "") (split_lines s) = s.
Proof.
  unfold join. induction s as [|c s IH]; [reflexivity|].
  cbn [split_lines]. pose proof (split_lines_nonempty s) as Hne.
  destruct (Ascii.eqb_spec c newline) as [->|_].
  - destruct (split_lines s) as [|l ls]; [contradiction|].
    cbn [String.concat] in *. now rewrite IH.
  - destruct (split_lines s) as [|l ls]; [contradiction|].
    destruct ls as [|l' ls]; cbn [String.concat] in *; now rewrite <- IH.
Qed.

Lemma concat_app (sep : string) (l1 l2 : list string) :
  l1 <> [] -> l2 <> [] ->
  String.concat sep (l1 ++ l2)
  = String.concat sep l1 ++ sep ++ String.concat sep l2.
Proof.
  intros H1 H2. induction l1 as [|x l1 IH]; [contradiction|].
  destruct l1 as [|y l1].
  - destruct l2; [contradiction | reflexivity].
  - change (String.concat sep ((x :: y :: l1) ++ l2))
      with (x ++ sep ++ String.concat sep ((y :: l1) ++ l2)).
    rewrite IH by discriminate.
    change (String.concat sep (x :: y :: l1))
      with (x ++ sep ++ String.concat sep (y :: l1)).
    now rewrite !append_assoc.
Qed.

(** The join of a run of consecutive elements is a substring of the join
    of the whole list. *)
Lemma concat_middle (sep : string) (l1 m l3 : list string) :
  exists a b,
    String.concat sep (l1 ++ m ++ l3) = a ++ String.concat sep m ++ b.
Proof.
  destruct m as [|x m].
  - exists "", (String.concat sep (l1 ++ l3)). reflexivity.
  - destruct l1 as [|y l1]; destruct l3 as [|z l3].
    + exists "", "". rewrite app_nil_r. cbn [app append].
      now rewrite append_empty_r.
    + exists "", (sep ++ String.concat sep (z :: l3)).
      change (([] ++ (x :: m) ++ z :: l3)%list)
        with (((x :: m) ++ z :: l3)%list).
      now rewrite concat_app by discriminate.
    + exists (String.concat sep (y :: l1) ++ sep), "".
      rewrite app_nil_r, concat_app by discriminate.
      now rewrite append_empty_r, append_assoc.
    + exists (String.concat sep (y :: l1) ++ sep),
             (sep ++ String.concat sep (z :: l3)).
      rewrite concat_app by discriminate.
      rewrite (concat_app sep (x :: m)) by discriminate.
      now rewrite !append_assoc.
Qed.

Lemma lslice_middle {A : Type} (l : list A) (a b : Z) :
  exists l1 l3, l = (l1 ++ lslice l a b ++ l3)%list.
Proof.
  unfold lslice.
  set (k := Z.to_nat (bound (llen l) a)).
  set (n := Z.to_nat (bound (llen l) b - bound (llen l) a)).
  exists (firstn k l), (skipn n (skipn k l)).
  now rewrite firstn_skipn, firstn_skipn.
Qed.

(** X10: the evidence of a finding is never made up: [_find_evidence]
    returns either the placeholder "Evidence not found in text" or an
    excerpt of the text (a substring made of whole lines). *)
Theorem evidence_is_excerpt (text : string) (keywords : list string) :
  _find_evidence text keywords = not_found \/
  exists before after,
    text = before ++ _find_evidence text keywords ++ after.
Proof.
  unfold _find_evidence.
  destruct (evidence_line keywords 0 (split_lines text)) as [i|];
    [right | now left].
  cbv zeta.
  destruct (lslice_middle (split_lines text)
              (Z.max 0 (Z.of_nat i - 2))
              (Z.min (llen (split_lines text)) (Z.of_nat i + 3)))
    as (l1 & l3 & E).
  destruct (concat_middle (String newline "") l1
              (lslice (split_lines text) (Z.max 0 (Z.of_nat i - 2))
                 (Z.min (llen (split_lines text)) (Z.of_nat i + 3))) l3)
    as (a & b & C).
  exists a, b. rewrite <- E in C. unfold join.
  rewrite <- C. symmetry. apply join_split_lines.
Qed.

(** **** Matches are numbers *)

Lemma int_acc_nonneg (s : string) (acc : Z) : 0 <= acc -> 0 <= int_acc acc s.
Proof.
  revert acc. induction s as [|c s IH]; intros acc H; cbn [int_acc];
    [exact H|].
  apply IH. unfold digit_value. lia.
Qed.

(** X11: every match that [re.findall] returns for the notice pattern is a
    non-empty string of digits, so [int(match)] can only fail for its
    length: it raises [ValueError] exactly when the match has more than
    4300 digits, and otherwise returns a value that is not negative. *)
Theorem matches_are_numbers (s g : string) :
  In g (findall notice_units s) ->
  g <> "" /\ all_chars isdigit g = true /\
  (len g <= int_max_str_digits -> exists n, int g = Ok n /\ 0 <= n) /\
  (int_max_str_digits < len g -> int g = Raise ValueError).
Proof.
  intros H. apply findall_In in H as (pre & ws & post & _ & Hne & Hg & _).
  split; [exact Hne|]. split; [exact Hg|]. split.
  - intros Hl. exists (value g). split; [now apply AuditFacts.int_ok|].
    apply int_acc_nonneg. lia.
  - apply AuditFacts.int_raise.
Qed.

Lemma matches_are_numbers_witness :
  In "10" (findall notice_units (lower Sample.short_notice_clause)) /\
  "10" <> "" /\ all_chars isdigit "10" = true /\
  exists n, int "10" = Ok n /\ 0 <= n.
Proof.
  split; [right; now left|].
  destruct (matches_are_numbers (lower Sample.short_notice_clause) "10")
    as (Hne & Hd & Hok & _); [right; now left|].
  split; [exact Hne|]. split; [exact Hd|].
  apply Hok. vm_compute. discriminate.
Defined.

(** **** Where a rule finding comes from *)

Lemma rule_finding_origin (text : string) (fields : dict)
  (fs : list Finding) (f : Finding) :
  audit_contract None text fields = Ok fs ->
  In f fs ->
  (exists m, f = auto_renewal_finding text m) \/
  (In f (check_unlimited_liability text []) /\ f = unlimited_finding text) \/
  (In f (check_liability_cap fields []) /\ f = cap_finding) \/
  (In f (check_indemnity fields []) /\
   exists s, get fields "indemnity" (JStr "") = JStr s /\
             f = indemnity_finding s).
Proof.
  intros E Hin. apply audit_contract_ok in E as (a & Ea & ->).
  apply in_app_or in Hin as [Hin|Hin]; [left|right].
  { apply NoticeFacts.check_auto_renewal_ok in Ea
      as [->|(_ & _ & _ & m & _ & ->)]; [destruct Hin|].
    destruct Hin as [<-|[]]. now exists m. }
  apply in_app_or in Hin as [Hin|Hin]; [left|right].
  { split; [exact Hin|]. unfold check_unlimited_liability in Hin.
    destruct (_ && _); [|destruct Hin]. now destruct Hin as [<-|[]]. }
  apply in_app_or in Hin as [Hin|Hin]; [left|right].
  { split; [exact Hin|]. unfold check_liability_cap in Hin.
    destruct (_ && _); [|destruct Hin].
    destruct (_ || _); [|destruct Hin]. now destruct Hin as [<-|[]]. }
  split; [exact Hin|]. unfold check_indemnity in Hin.
  destruct (get fields "indemnity" (JStr "")) as [|b|z|x|s|l|dd];
    cbn [isinstance_str] in Hin; rewrite ?andb_false_r in Hin;
    try destruct Hin.
  destruct (_ && _); [|destruct Hin].
  destruct (existsb _ _); [|destruct Hin].
  destruct Hin as [<-|[]]. now exists s.
Qed.

(** **** Broad indemnity *)

Lemma occurs_ci_nonempty (w s : string) :
  w <> "" -> occurs_ci w s -> nonempty s = true.
Proof.
  intros Hw (pre & x & post & -> & E).
  destruct x as [|c x]; [destruct w; [contradiction | discriminate]|].
  destruct pre; reflexivity.
Qed.

Lemma broad_words (s : string) :
  existsb (fun word => contains word (lower s))
          ["all"; "any"; "every"; "unlimited"] = true <->
  occurs_ci "all" s \/ occurs_ci "any" s \/ occurs_ci "every" s \/
  occurs_ci "unlimited" s.
Proof.
  cbn [existsb]. rewrite orb_false_r, !orb_true_iff.
  rewrite !contains_occurs by reflexivity. tauto.
Qed.

Lemma slice_prefix (s : string) (n : Z) :
  0 <= n ->
  exists rest, s = slice s 0 n ++ rest /\ len (slice s 0 n) = Z.min n (len s).
Proof.
  intros Hn. pose proof (len_nonneg s).
  destruct (ChunkFacts.slice_window s 0 n) as (E & L); [lia | lia|].
  cbn [Z.add] in E, L. exists (drop (Z.to_nat (Z.min n (len s) - 0)) s).
  split; [|lia]. rewrite E. cbn [drop Z.to_nat]. now rewrite take_drop.
Qed.

(** X12: [audit_contract] either raises [ValueError], exactly when the
    conversion of a match raises in the auto-renewal rule, or returns; and
    among the rule findings it returns there is one of category
    "indemnity" exactly when [fields.indemnity] is a string in which
    "all", "any", "every" or "unlimited" occurs, in whatever case and also
    inside a longer word; that finding has severity "high", and its
    evidence is the first 200 characters of the indemnity text (all of it
    when it is shorter). *)
Theorem broad_indemnity_rule (text : string) (fields : dict) :
  match audit_contract None text fields with
  | Raise e => e = ValueError /\ notice_raises text fields
  | Ok fs =>
      ~ notice_raises text fields /\
      ((exists f, In f fs /\ category f = "indemnity")
       <-> exists s, get fields "indemnity" (JStr "") = JStr s /\
                     (occurs_ci "all" s \/ occurs_ci "any" s \/
                      occurs_ci "every" s \/ occurs_ci "unlimited" s)) /\
      (forall f, In f fs ->
                 category f = "indemnity" ->
                 severity f = "high" /\
                 exists s rest,
                   get fields "indemnity" (JStr "") = JStr s /\
                   s = evidence f ++ rest /\
                   len (evidence f) = Z.min 200 (len s))
  end.
Proof.
  pose proof (audit_contract_outcome None text fields) as O.
  destruct (audit_contract None text fields) as [fs|e] eqn:E; [|exact O].
  destruct O as (N & a & _ & _ & Efs).
  split; [exact N|]. split.
  - split.
    + intros (f & Hin & Hc).
      apply (rule_finding_origin text fields fs f E) in Hin
        as [(m & ->)|[(_ & ->)|[(_ & ->)|(Hin & s & Hs & ->)]]];
        try discriminate.
      exists s. split; [exact Hs|]. apply broad_words.
      unfold check_indemnity in Hin. rewrite Hs in Hin.
      cbn [chars] in Hin. destruct (_ && _); [|destruct Hin].
      now destruct (existsb _ _); [|destruct Hin].
    + intros (s & Hs & Hw). exists (indemnity_finding s).
      split; [|reflexivity].
      rewrite Efs. apply in_or_app. left.
      do 3 (apply in_or_app; right).
      unfold check_indemnity. rewrite Hs. cbn [truthy isinstance_str chars].
      assert (Hne : nonempty s = true).
      { destruct Hw as [H|[H|[H|H]]];
          eapply occurs_ci_nonempty; try exact H; discriminate. }
      apply broad_words in Hw. rewrite Hne, Hw. now left.
  - intros f Hin Hc.
    apply (rule_finding_origin text fields fs f E) in Hin
      as [(m & ->)|[(_ & ->)|[(_ & ->)|(Hin & s & Hs & ->)]]];
      try discriminate.
    split; [reflexivity|]. cbn [evidence indemnity_finding].
    destruct (slice_prefix s 200 ltac:(lia)) as (rest & Es & L).
    now exists s, rest.
Qed.

Lemma broad_indemnity_rule_witness :
  (exists s, get Sample.company_indemnity "indemnity" (JStr "") = JStr s /\
             (occurs_ci "all" s \/ occurs_ci "any" s \/
              occurs_ci "every" s \/ occurs_ci "unlimited" s)) /\
  exists fs f,
    audit_contract None "x" Sample.company_indemnity = Ok fs /\
    In f fs /\ category f = "indemnity".
Proof.
  assert (H : exists s,
             get Sample.company_indemnity "indemnity" (JStr "") = JStr s /\
             (occurs_ci "all" s \/ occurs_ci "any" s \/
              occurs_ci "every" s \/ occurs_ci "unlimited" s)).
  { exists "The Company is held harmless.". split; [reflexivity|].
    right. left. now exists "The Comp", "any", " is held harmless.". }
  split; [exact H|].
  pose proof (broad_indemnity_rule "x" Sample.company_indemnity) as R.
  assert (E : audit_contract None "x" Sample.company_indemnity
              = Ok [indemnity_finding "The Company is held harmless."])
    by reflexivity.
  rewrite E in R. destruct R as (_ & Iff & _).
  destruct (proj2 Iff H) as (f & Hin & Hc).
  exists [indemnity_finding "The Company is held harmless."], f.
  split; [reflexivity|]. now split.
Defined.

(** **** The liability cap *)

Lemma zero_or_none (v : json) :
  eq_zero v || is_none v = true <->
  v = JNull \/ v = JInt 0 \/ v = JBool false \/
  exists sign, v = JFloat (S754_zero sign).
Proof.
  split.
  - destruct v as [|[]|z|x|s|l|dd]; simpl; try discriminate; auto.
    + intros H. rewrite orb_false_r in H. apply Z.eqb_eq in H. subst. auto.
    + destruct x; simpl; try discriminate. intros _. do 3 right. eauto.
  - intros [->|[->|[->|(sign & ->)]]]; reflexivity.
Qed.

(** X13: [audit_contract] either raises [ValueError], exactly when the
    conversion of a match raises in the auto-renewal rule, or returns; and
    among the rule findings it returns there is one of severity "medium"
    (the missing liability cap) exactly when [fields.liability_cap] is a
    non-empty dictionary whose "amount" is missing, [None], or equal to
    zero ([0], [0.0] or [False]); a cap that is [None], missing, an empty
    dictionary or not a dictionary gives no such finding. *)
Theorem liability_cap_rule (text : string) (fields : dict) :
  match audit_contract None text fields with
  | Raise e => e = ValueError /\ notice_raises text fields
  | Ok fs =>
      ~ notice_raises text fields /\
      ((exists f, In f fs /\
                  severity f = "medium" /\ category f = "liability")
       <-> exists kv cap,
             get fields "liability_cap" JNull = JDict (kv :: cap) /\
             (get (kv :: cap) "amount" (JInt 0) = JNull \/
              get (kv :: cap) "amount" (JInt 0) = JInt 0 \/
              get (kv :: cap) "amount" (JInt 0) = JBool false \/
              exists sign,
                get (kv :: cap) "amount" (JInt 0)
                = JFloat (S754_zero sign)))
  end.
Proof.
  pose proof (audit_contract_outcome None text fields) as O.
  destruct (audit_contract None text fields) as [fs|e] eqn:E; [|exact O].
  destruct O as (N & _). split; [exact N|].
  rewrite <- count_kind_positive, (liability_cap_count text fields fs E).
  split.
  - destruct (get fields "liability_cap" JNull) as [|b|z|x|s|l|[|kv cap]];
      try (intros H; exfalso; lia).
    destruct (_ || _) eqn:Ez; [|intros H; exfalso; lia].
    intros _. exists kv, cap. split; [reflexivity|]. now apply zero_or_none.
  - intros (kv & cap & -> & H). apply zero_or_none in H. rewrite H. lia.
Qed.

Lemma liability_cap_rule_witness :
  (exists kv cap,
      get Sample.cap_without_amount "liability_cap" JNull = JDict (kv :: cap)
      /\
      (get (kv :: cap) "amount" (JInt 0) = JNull \/
       get (kv :: cap) "amount" (JInt 0) = JInt 0 \/
       get (kv :: cap) "amount" (JInt 0) = JBool false \/
       exists sign,
         get (kv :: cap) "amount" (JInt 0) = JFloat (S754_zero sign))) /\
  exists fs f,
    audit_contract None "x" Sample.cap_without_amount = Ok fs /\
    In f fs /\ severity f = "medium" /\ category f = "liability".
Proof.
  assert (H : exists kv cap,
      get Sample.cap_without_amount "liability_cap" JNull = JDict (kv :: cap)
      /\
      (get (kv :: cap) "amount" (JInt 0) = JNull \/
       get (kv :: cap) "amount" (JInt 0) = JInt 0 \/
       get (kv :: cap) "amount" (JInt 0) = JBool false \/
       exists sign,
         get (kv :: cap) "amount" (JInt 0) = JFloat (S754_zero sign))).
  { exists ("currency", JStr "USD"), []. split; [reflexivity|].
    right. now left. }
  split; [exact H|].
  pose proof (liability_cap_rule "x" Sample.cap_without_amount) as R.
  assert (E : audit_contract None "x" Sample.cap_without_amount
              = Ok [cap_finding]) by reflexivity.
  rewrite E in R. destruct R as (_ & Iff).
  destruct (proj2 Iff H) as (f & Hin & Hs).
  exists [cap_finding], f. split; [reflexivity|]. now split.
Defined.

(** **** Without a client *)

Lemma basic_extraction_auto_renewal (text : string) :
  get (_basic_extraction text) "auto_renewal" JNull
  = if contains "auto" (lower text) && contains "renew" (lower text)
    then JBool true else JNull.
Proof. reflexivity. Qed.

Lemma basic_extraction_other (text key : string) :
  key <> "auto_renewal" ->
  truthy (get (_basic_extraction text) key JNull) = false.
Proof.
  intros Hk. unfold get, _basic_extraction. cbn [find fst snd].
  repeat match goal with
  | |- context [String.eqb ?a key] =>
      destruct (String.eqb_spec a key) as [E|_];
        [try (exfalso; apply Hk; now rewrite <- E); try reflexivity|]
  end.
  reflexivity.
Qed.

Lemma fallback_findings_length (text : string) (fs : list Finding) :
  audit_contract None text (_basic_extraction text) = Ok fs ->
  (List.length fs <= 2)%nat.
Proof.
  intros E. apply audit_contract_ok in E as (a & Ea & ->).
  assert (Hcap : check_liability_cap (_basic_extraction text) [] = [])
    by reflexivity.
  assert (Hind : check_indemnity (_basic_extraction text) [] = [])
    by reflexivity.
  rewrite !length_app, Hcap, Hind. cbn [List.length].
  assert (List.length a <= 1)%nat.
  { apply NoticeFacts.check_auto_renewal_ok in Ea
      as [->|(_ & _ & _ & m & _ & ->)]; cbn; lia. }
  assert (List.length (check_unlimited_liability text []) <= 1)%nat.
  { unfold check_unlimited_liability. destruct (_ && _); cbn; lia. }
  lia.
Qed.

Lemma extract_fields_fallback (client : option Extraction) (text : string) :
  match client with
  | Some create => create (slice text 0 8000) = None
  | None => True
  end ->
  extract_fields client text = _basic_extraction text.
Proof.
  destruct client as [create|]; [|reflexivity].
  unfold extract_fields. now intros ->.
Qed.

(** X14: when no client is configured, or the completion of
    [extract_fields] fails, the audit of the extracted fields can only
    report an auto-renewal and an unlimited liability: [auto_renewal] is
    set exactly when "auto" and "renew" occur in the text in whatever case,
    every other field is empty, and the rule findings [audit_contract]
    returns are at most two, all of severity "high", of category
    "auto_renewal" or "liability", without character range. *)
Theorem audit_of_fallback_fields (client : option Extraction)
  (text : string) :
  match client with
  | Some create => create (slice text 0 8000) = None
  | None => True
  end ->
  let fields := extract_fields client text in
  (truthy (get fields "auto_renewal" JNull) = true
   <-> occurs_ci "auto" text /\ occurs_ci "renew" text) /\
  (forall key, key <> "auto_renewal" ->
               truthy (get fields key JNull) = false) /\
  (forall fs, audit_contract None text fields = Ok fs ->
     (forall f, In f fs ->
                severity f = "high" /\
                (category f = "auto_renewal" \/ category f = "liability") /\
                char_range f = None) /\
     (List.length fs <= 2)%nat).
Proof.
  intros Hc. cbv zeta. rewrite (extract_fields_fallback client text Hc).
  assert (Hcap : check_liability_cap (_basic_extraction text) [] = [])
    by reflexivity.
  assert (Hind : check_indemnity (_basic_extraction text) [] = [])
    by reflexivity.
  split; [|split].
  - rewrite basic_extraction_auto_renewal.
    rewrite <- (contains_occurs "auto" text), <- (contains_occurs "renew" text)
      by reflexivity.
    destruct (contains "auto" (lower text)), (contains "renew" (lower text));
      cbn [andb truthy]; intuition discriminate.
  - apply basic_extraction_other.
  - intros fs E. split.
    + intros f Hin.
      apply (rule_finding_origin _ _ fs f E) in Hin
        as [(m & ->)|[(_ & ->)|[(Hin & _)|(Hin & _)]]].
      * cbn. auto.
      * cbn. auto.
      * rewrite Hcap in Hin. destruct Hin.
      * rewrite Hind in Hin. destruct Hin.
    + apply (fallback_findings_length text fs E).
Qed.

Lemma audit_of_fallback_fields_witness :
  Sample.unreachable (slice Sample.renewal_clause 0 8000) = None /\
  (forall key, key <> "auto_renewal" ->
               truthy (get (extract_fields (Some Sample.unreachable)
                                           Sample.renewal_clause) key JNull)
               = false) /\
  exists fs,
    audit_contract None Sample.renewal_clause
      (extract_fields (Some Sample.unreachable) Sample.renewal_clause)
    = Ok fs /\
    (List.length fs <= 2)%nat.
Proof.
  split; [reflexivity|].
  pose proof (audit_of_fallback_fields (Some Sample.unreachable)
                Sample.renewal_clause eq_refl) as H.
  cbv zeta in H. destruct H as (_ & Hkey & Hfs).
  split; [exact Hkey|]. exists []. split; [reflexivity|].
  now apply Hfs.
Defined.

End RuleFacts.


(** * Facts about the routes *)

Module RouteFacts.

Import Py PDFService LLMService Http Spec Props PyFacts PDFFacts.

(** ** The audit route *)

Lemma format_findings_stored (d : DataDir) (id : string) (md : Metadata)
  (fs acc : list Finding) :
  d id = Some md ->
  AuditRouter.format_findings d id fs acc
  = Done (acc ++ map (located (page_offsets md)) fs)%list.
Proof.
  intros Hd. revert acc. induction fs as [|f fs IH]; intros acc.
  - cbn. now rewrite app_nil_r.
  - cbn [AuditRouter.format_findings map].
    assert (E : AuditRouter.format_finding d id f
                = Done (located (page_offsets md) f)).
    { unfold AuditRouter.format_finding, located,
        get_page_for_char_position, get_metadata. rewrite Hd.
      now destruct (char_range f) as [[start e]|]. }
    rewrite E, IH, <- app_assoc. reflexivity.
Qed.

Lemma nonempty_false (s : string) : nonempty s = false <-> s = "".
Proof. destruct s; split; intros H; try reflexivity; discriminate. Qed.

Lemma audit_route_stored (d : DataDir) (client : option OpenAI)
  (id : string) (md : Metadata) :
  d id = Some md ->
  AuditRouter.audit_contract d client id
  = if nonempty (full md)
    then
      match audit_contract (option_map llm_audit client) (full md)
              (extract_fields (option_map extraction client) (full md)) with
      | Ok fs =>
          Returns
            {| AuditRouter.response_document_id := id;
               AuditRouter.findings := map (located (page_offsets md)) fs |}
      | Raise _ => HTTPException 500
      end
    else HTTPException 500.
Proof.
  intros Hd. unfold AuditRouter.audit_contract, AuditRouter.audit_body,
    get_metadata. rewrite Hd.
  destruct (nonempty (full md)); cbn [negb]; [|reflexivity].
  pose proof (AuditFacts.audit_contract_outcome
                (option_map llm_audit client) (full md)
                (extract_fields (option_map extraction client) (full md)))
    as O.
  destruct (audit_contract _ _ _) as [fs|e].
  - now rewrite (format_findings_stored d id md _ [] Hd).
  - destruct O as (-> & _). reflexivity.
Qed.

(** X15: the audit route answers 404 exactly when no metadata is stored for
    the document, and 500 exactly when the stored text is empty or
    [audit_contract] raises, which it does when the conversion of a match
    raises in the auto-renewal rule: the 404 the route raises for an empty
    text is caught by its own handler.  In every other case it returns the
    findings of [audit_contract] on the stored text and the extracted
    fields, in their order, each with the page of the start of its
    character range (and no page when it has no range). *)
Theorem audit_route_status (d : DataDir) (client : option OpenAI)
  (id : string) :
  (AuditRouter.audit_contract d client id = HTTPException 404
   <-> d id = None) /\
  (AuditRouter.audit_contract d client id = HTTPException 500
   <-> exists md,
         d id = Some md /\
         (full md = "" \/
          notice_raises (full md)
            (extract_fields (option_map extraction client) (full md)))) /\
  (forall md, d id = Some md -> full md <> "" ->
     ~ notice_raises (full md)
         (extract_fields (option_map extraction client) (full md)) ->
     exists fs,
       audit_contract (option_map llm_audit client) (full md)
         (extract_fields (option_map extraction client) (full md)) = Ok fs /\
       AuditRouter.audit_contract d client id
       = Returns
           {| AuditRouter.response_document_id := id;
              AuditRouter.findings :=
                map (located (page_offsets md)) fs |}).
Proof.
  destruct (d id) as [md|] eqn:Hd.
  - rewrite (audit_route_stored d client id md Hd).
    pose proof (AuditFacts.audit_contract_outcome
                  (option_map llm_audit client) (full md)
                  (extract_fields (option_map extraction client) (full md)))
      as O.
    destruct (nonempty (full md)) eqn:Hn.
    + assert (Hne : full md <> "")
        by (intros E; rewrite E in Hn; discriminate).
      destruct (audit_contract _ _ _) as [fs|e] eqn:Ea.
      * destruct O as (N & _). split; [split; discriminate|]. split.
        -- split; [discriminate|].
           intros (md' & [= <-] & [E|R]); contradiction.
        -- intros md' [= <-] _ _. exists fs. now split.
      * destruct O as (_ & R). split; [split; discriminate|]. split.
        -- split; [|reflexivity]. intros _. exists md. now split; [|right].
        -- intros md' [= <-] _ N. contradiction.
    + apply nonempty_false in Hn. split; [split; discriminate|]. split.
      * split; [|reflexivity]. intros _. exists md. now split; [|left].
      * intros md' [= <-] Hne. contradiction.
  - unfold AuditRouter.audit_contract, AuditRouter.audit_body, get_metadata.
    rewrite Hd. cbn. repeat split; try discriminate.
    intros (md & [=] & _).
Qed.

Lemma audit_route_status_witness :
  Sample.contract_data "c1" = Some Sample.contract_metadata /\
  full Sample.contract_metadata <> "" /\
  AuditRouter.audit_contract Sample.contract_data (Some Sample.analyst) "c1"
  = Returns
      {| AuditRouter.response_document_id := "c1";
         AuditRouter.findings :=
           [located [0; 30] Sample.located_finding] |} /\
  LLMService.page (located [0; 30] Sample.located_finding) = Some 2.
Proof.
  split; [reflexivity|]. split; [discriminate|].
  destruct (audit_route_status Sample.contract_data (Some Sample.analyst)
              "c1") as (_ & _ & H).
  split; [|reflexivity].
  destruct (H Sample.contract_metadata) as (fs & E & ->);
    [reflexivity | discriminate | |].
  - intros (_ & G & _). discriminate G.
  - assert (E' : audit_contract (option_map llm_audit (Some Sample.analyst))
                   (full Sample.contract_metadata)
                   (extract_fields
                      (option_map extraction (Some Sample.analyst))
                      (full Sample.contract_metadata))
                 = Ok [Sample.located_finding]) by reflexivity.
    rewrite E' in E. injection E as <-. reflexivity.
Defined.

(** The route on a stored text with a number the conversion refuses. *)
Example audit_route_overlong_number :
  AuditRouter.audit_contract
    (snd (extract_text (Sample.file_on_disk "o1" Sample.overlong)
                       Sample.no_data "o1"))
    None "o1"
  = HTTPException 500.
Proof. vm_compute. reflexivity. Qed.

Lemma flat_empty (ps : list Page) : flat ps = "" <-> ps = [].
Proof.
  destruct ps as [|p ps]; [now split|]. split; [|discriminate].
  cbn [flat]. destruct (text p); discriminate.
Qed.

Lemma count_le_length (table : list Z) (pos : Z) :
  0 <= count_le table pos <= llen table.
Proof.
  unfold count_le, llen. pose proof (filter_length_le (fun o => o <=? pos) table).
  lia.
Qed.

(** X16: once [extract_text] has stored a document, the audit route never
    answers 404 for it.  For a file without pages it answers 500.  For a
    file with pages it answers 500 when [audit_contract] raises (the
    conversion of a match in the auto-renewal rule), and otherwise returns
    one finding for each finding of [audit_contract]; every finding with a
    character range carries a page between 1 and the number of stored
    pages, every other finding no page. *)
Theorem audit_after_extract (up : Uploads) (d d' : DataDir) (id : string)
  (md : Metadata) (client : option OpenAI) :
  extract_text up d id = (Ok md, d') ->
  AuditRouter.audit_contract d' client id <> HTTPException 404 /\
  (pages md = [] ->
   AuditRouter.audit_contract d' client id = HTTPException 500) /\
  (pages md <> [] ->
   match audit_contract (option_map llm_audit client) (full md)
           (extract_fields (option_map extraction client) (full md)) with
   | Raise e =>
       e = ValueError /\
       notice_raises (full md)
         (extract_fields (option_map extraction client) (full md)) /\
       AuditRouter.audit_contract d' client id = HTTPException 500
   | Ok data =>
       exists fs,
         AuditRouter.audit_contract d' client id
         = Returns {| AuditRouter.response_document_id := id;
                      AuditRouter.findings := fs |} /\
         List.length fs = List.length data /\
         forall f, In f fs ->
           match char_range f with
           | Some _ => exists n, page f = Some n /\ 1 <= n <= llen (pages md)
           | None => page f = None
           end
   end).
Proof.
  intros E.
  destruct (resolver_after_extract up d d' id md 0 E)
    as (Hlaid & Hoff & _ & Hfull & _).
  apply extract_text_ok in E as (f & a & _ & _ & _ & ->).
  assert (Hd : write d id md id = Some md)
    by (unfold write; now rewrite String.eqb_refl).
  rewrite (audit_route_stored _ client id md Hd).
  pose proof (AuditFacts.audit_contract_outcome
                (option_map llm_audit client) (full md)
                (extract_fields (option_map extraction client) (full md)))
    as O.
  split; [|split].
  - destruct (nonempty (full md)); [|discriminate].
    destruct (audit_contract _ _ _); discriminate.
  - intros Hp. rewrite Hfull, Hp. reflexivity.
  - intros Hp.
    assert (Hn : nonempty (full md) = true).
    { destruct (nonempty (full md)) eqn:Hn; [reflexivity|].
      apply nonempty_false in Hn. rewrite Hfull in Hn.
      apply flat_empty in Hn. contradiction. }
    rewrite Hn. destruct (audit_contract _ _ _) as [data|e].
    + eexists. split; [reflexivity|]. split; [apply length_map|].
      intros g Hg. apply in_map_iff in Hg as (g0 & <- & _).
      unfold located. cbn [char_range page].
      destruct (char_range g0) as [[start e]|]; [|reflexivity].
      eexists. split; [reflexivity|].
      rewrite page_of_sorted
        by (rewrite Hoff; eapply laid_out_sorted; exact Hlaid).
      pose proof (count_le_length (page_offsets md) start) as Hc.
      assert (Hl : llen (page_offsets md) = llen (pages md))
        by (rewrite Hoff; unfold llen; now rewrite length_map).
      assert (1 <= llen (pages md)).
      { unfold llen. destruct (pages md); [contradiction|].
        cbn [List.length]. lia. }
      unfold llen in *. lia.
    + destruct O as (-> & R). split; [reflexivity|].
    split; [exact R | reflexivity].
Qed.

Lemma audit_after_extract_witness :
  extract_text (Sample.file_on_disk "c1" Sample.contract) Sample.no_data "c1"
  = (Ok Sample.contract_metadata, Sample.contract_data) /\
  pages Sample.contract_metadata <> [] /\
  exists fs,
    AuditRouter.audit_contract Sample.contract_data (Some Sample.analyst)
                               "c1"
    = Returns {| AuditRouter.response_document_id := "c1";
                 AuditRouter.findings := fs |} /\
    forall f, In f fs ->
      match char_range f with
      | Some _ => exists n, page f = Some n /\ 1 <= n <= 2
      | None => page f = None
      end.
Proof.
  split; [reflexivity|]. split; [discriminate|].
  destruct (audit_after_extract
              (Sample.file_on_disk "c1" Sample.contract) Sample.no_data
              Sample.contract_data "c1" Sample.contract_metadata
              (Some Sample.analyst) eq_refl) as (_ & _ & H).
  assert (E : audit_contract (option_map llm_audit (Some Sample.analyst))
                (full Sample.contract_metadata)
                (extract_fields (option_map extraction (Some Sample.analyst))
                   (full Sample.contract_metadata))
              = Ok [Sample.located_finding]) by reflexivity.
  rewrite E in H. destruct H as (fs & Er & _ & Hp); [discriminate|].
  exists fs. split; [exact Er | exact Hp].
Defined.

Lemma located_without_range (table : list Z) (f : Finding) :
  char_range f = None -> page f = None -> located table f = f.
Proof. destruct f as [a b c e r pg]. cbn. now intros -> ->. Qed.

(** X17: when no client is configured, the audit route answers for a
    stored document with text either 500, when [audit_contract] raises on
    the fields of [_basic_extraction] (the conversion of a match in the
    auto-renewal rule), or exactly the rule findings of [audit_contract]
    on these fields: at most two findings, none of which has a character
    range or a page. *)
Theorem audit_route_without_client (d : DataDir) (id : string)
  (md : Metadata) :
  d id = Some md -> full md <> "" ->
  match audit_contract None (full md) (_basic_extraction (full md)) with
  | Raise e =>
      e = ValueError /\
      notice_raises (full md) (_basic_extraction (full md)) /\
      AuditRouter.audit_contract d None id = HTTPException 500
  | Ok fs =>
      AuditRouter.audit_contract d None id
      = Returns {| AuditRouter.response_document_id := id;
                   AuditRouter.findings := fs |} /\
      (List.length fs <= 2)%nat /\
      forall f, In f fs -> char_range f = None /\ page f = None
  end.
Proof.
  intros Hd Hne.
  rewrite (audit_route_stored d None id md Hd).
  destruct (nonempty (full md)) eqn:Hn;
    [|apply nonempty_false in Hn; contradiction].
  cbn [option_map extract_fields].
  pose proof (AuditFacts.audit_contract_outcome None (full md)
                (_basic_extraction (full md))) as O.
  destruct (audit_contract None (full md) (_basic_extraction (full md)))
    as [fs|e] eqn:E.
  - assert (Hnone : forall f, In f fs ->
                      char_range f = None /\ page f = None).
    { intros f Hin.
      apply (RuleFacts.rule_finding_origin _ _ fs f E) in Hin
        as [(m & ->)|[(_ & ->)|[(_ & ->)|(_ & s & _ & ->)]]];
        now split. }
    split; [|split; [|exact Hnone]].
    + do 2 f_equal. rewrite <- (map_id fs) at 2.
      apply map_ext_in. intros f Hin.
      apply located_without_range; now apply Hnone.
    + apply (RuleFacts.fallback_findings_length (full md) fs E).
  - destruct O as (-> & R). split; [reflexivity|].
    split; [exact R | reflexivity].
Qed.

Lemma audit_route_without_client_witness :
  Sample.contract_data "c1" = Some Sample.contract_metadata /\
  full Sample.contract_metadata <> "" /\
  AuditRouter.audit_contract Sample.contract_data None "c1"
  = Returns
      {| AuditRouter.response_document_id := "c1";
         AuditRouter.findings := [] |}.
Proof.
  split; [reflexivity|]. split; [discriminate|].
  pose proof (audit_route_without_client Sample.contract_data "c1"
                Sample.contract_metadata eq_refl) as H.
  assert (E : audit_contract None (full Sample.contract_metadata)
                (_basic_extraction (full Sample.contract_metadata))
              = Ok []) by reflexivity.
  rewrite E in H. apply H. discriminate.
Defined.

(** ** Retrieval and the ask route *)

Import RAGService.

Lemma context_loop_parts (results : list Chunk) (parts : list string)
  (cits : list Citation) :
  fst (context_loop results parts cits)
  = (parts ++ map chunk results)%list.
Proof.
  revert parts cits. induction results as [|r rs IH]; intros parts cits.
  - cbn. now rewrite app_nil_r.
  - cbn [context_loop map]. rewrite IH, <- app_assoc. reflexivity.
Qed.

Lemma context_loop_citations (results : list Chunk) (parts : list string)
  (cits : list Citation) :
  exists new,
    snd (context_loop results parts cits) = (cits ++ new)%list /\
    Forall2
      (fun r c =>
         citation_document_id c = chunk_document_id r /\
         citation_page c = Some (chunk_page r) /\
         citation_char_range c = Some (chunk_start r, chunk_end r) /\
         exists rest,
           chunk r = citation_text c ++ rest /\
           len (citation_text c) = Z.min 200 (len (chunk r)))
      results new.
Proof.
  revert parts cits. induction results as [|r rs IH]; intros parts cits.
  - exists []. cbn. now rewrite app_nil_r.
  - cbn [context_loop].
    destruct (IH (parts ++ [chunk r])%list
                 (cits ++
                  [{| citation_document_id := chunk_document_id r;
                      citation_page := Some (chunk_page r);
                      citation_char_range :=
                        Some (chunk_start r, chunk_end r);
                      citation_text := slice (chunk r) 0 200 |}])%list)
      as (new & E & F).
    eexists (_ :: new). split.
    + rewrite E, <- app_assoc. reflexivity.
    + constructor; [|exact F]. cbn.
      repeat split. apply RuleFacts.slice_prefix. lia.
Qed.

Lemma join_empty (sep : string) (l : list string) :
  sep <> "" ->
  join sep l = "" <-> l = [] \/ l = [""].
Proof.
  intros Hsep. unfold join. split.
  - destruct l as [|x [|y l]]; cbn [String.concat].
    + now left.
    + intros ->. now right.
    + intros E. exfalso. destruct x; [|discriminate].
      destruct sep; [contradiction | discriminate].
  - intros [->| ->]; reflexivity.
Qed.

(** X18: [get_context_for_question] fails only when the search does.
    Otherwise the context is the texts of the results joined by an empty
    line, and there is one citation per result, in the order of the
    results, with the document, page and character range of the result
    and with the first 200 characters of its text (all of it when it is
    shorter).  The context is empty only when there is no result, or a
    single result whose text is empty. *)
Theorem context_and_citations (search : Search) (question : string)
  (document_ids : option (list string)) (top_k : Z) :
  match search question document_ids top_k with
  | None =>
      get_context_for_question search question document_ids top_k = None
  | Some results =>
      exists citations,
        get_context_for_question search question document_ids top_k
        = Some (join paragraph (map chunk results), citations) /\
        Forall2
          (fun r c =>
             citation_document_id c = chunk_document_id r /\
             citation_page c = Some (chunk_page r) /\
             citation_char_range c = Some (chunk_start r, chunk_end r) /\
             exists rest,
               chunk r = citation_text c ++ rest /\
               len (citation_text c) = Z.min 200 (len (chunk r)))
          results citations /\
        (join paragraph (map chunk results) = "" <->
         results = [] \/ exists r, results = [r] /\ chunk r = "")
  end.
Proof.
  unfold get_context_for_question.
  destruct (search question document_ids top_k) as [results|]; [|reflexivity].
  pose proof (context_loop_parts results [] []) as P.
  destruct (context_loop_citations results [] []) as (new & C & F).
  destruct (context_loop results [] []) as [parts cits].
  cbn [fst snd app] in P, C. subst parts cits.
  exists new. split; [reflexivity|]. split; [exact F|].
  rewrite join_empty by discriminate. split.
  - intros [E|E]; [left|right].
    + now destruct results.
    + destruct results as [|r [|r' rs]]; try discriminate.
      exists r. now injection E as ->.
  - intros [->|(r & -> & E)]; [now left|right]. cbn. now rewrite E.
Qed.

Lemma get_context_some (search : Search) (question : string)
  (document_ids : option (list string)) (top_k : Z) (results : list Chunk) :
  search question document_ids top_k = Some results ->
  exists citations,
    get_context_for_question search question document_ids top_k
    = Some (join paragraph (map chunk results), citations) /\
    List.length citations = List.length results.
Proof.
  intros E. unfold get_context_for_question. rewrite E.
  pose proof (context_loop_parts results [] []) as P.
  destruct (context_loop_citations results [] []) as (new & C & F).
  destruct (context_loop results [] []) as [parts cits].
  cbn [fst snd app] in P, C. subst parts cits.
  exists new. split; [reflexivity|].
  symmetry. eapply Forall2_length; exact F.
Qed.

Lemma indexed_not_empty (d : DataDir) (c : Chunk) :
  indexed d c -> chunk c <> "".
Proof.
  intros (id & text & chunks & E & Hin) Hc.
  unfold index_document in E. destruct (get_metadata d id) as [md|]; [|discriminate].
  apply (RAGFacts.chunk_pages_In _ _ _ _ _ _ c E) in Hin
    as [[]|(p & starts & i & _ & _ & _ & W)].
  apply ChunkFacts.window_some in W as (Hblank & ->).
  cbn [chunk] in Hc. rewrite Hc in Hblank. discriminate.
Qed.

(** X19: the ask route answers 500 exactly when the search raises.  When
    the search finds nothing it returns the fixed answer without citations
    and without consulting the client; when it finds chunks that
    [index_document] has stored, it returns the answer of
    [answer_question] for the joined chunk texts, with one citation per
    chunk. *)
Theorem ask_route_cases (d : DataDir) (search : Search)
  (client : option OpenAI) (question : string)
  (document_ids : option (list string)) :
  (AskRouter.ask_question search client question document_ids
   = HTTPException 500
   <-> search question document_ids 5 = None) /\
  (search question document_ids 5 = Some [] ->
   AskRouter.ask_question search client question document_ids
   = Returns {| AskRouter.answer := AskRouter.no_information;
                AskRouter.citations := [] |}) /\
  (forall results,
     search question document_ids 5 = Some results ->
     results <> [] ->
     (forall r, In r results -> indexed d r) ->
     exists citations,
       AskRouter.ask_question search client question document_ids
       = Returns
           {| AskRouter.answer :=
                answer_question (option_map chat client) question
                  (join paragraph (map chunk results));
              AskRouter.citations := citations |} /\
       List.length citations = List.length results).
Proof.
  unfold AskRouter.ask_question.
  destruct (search question document_ids 5) as [results|] eqn:S5.
  - destruct (get_context_some search question document_ids 5 results S5)
      as (cits & -> & Hlen).
    split; [|split].
    + destruct (negb _); split; discriminate.
    + intros [= ->]. reflexivity.
    + intros results' [= <-] Hne Hidx.
      destruct results as [|r rs]; [contradiction|].
      assert (Hr : chunk r <> "")
        by (apply (indexed_not_empty d); apply Hidx; now left).
      assert (Hn : nonempty (join paragraph (map chunk (r :: rs))) = true).
      { destruct (nonempty _) eqn:Hn; [reflexivity|].
        apply nonempty_false in Hn.
        apply join_empty in Hn; [|discriminate]. cbn [map] in Hn.
        destruct Hn as [Hn|Hn]; [discriminate|].
        injection Hn as Hn _. contradiction. }
      rewrite Hn. cbn [negb]. exists cits. now split.
  - unfold get_context_for_question. rewrite S5. split; [|split].
    + now split.
    + discriminate.
    + discriminate.
Qed.

Lemma ask_route_cases_witness :
  Sample.librarian "When does it renew?" None 5 = Some Sample.contract_index
  /\
  Sample.contract_index <> [] /\
  (forall r, In r Sample.contract_index -> indexed Sample.contract_data r) /\
  exists citations,
    AskRouter.ask_question Sample.librarian (Some Sample.analyst)
                           "When does it renew?" None
    = Returns
        {| AskRouter.answer :=
             answer_question (Some (chat Sample.analyst))
               "When does it renew?"
               (join paragraph (map chunk Sample.contract_index));
           AskRouter.citations := citations |} /\
    List.length citations = 2%nat.
Proof.
  assert (Hidx : forall r, In r Sample.contract_index ->
                           indexed Sample.contract_data r).
  { intros r Hr. exists "c1", "", Sample.contract_index.
    split; [reflexivity | exact Hr]. }
  split; [reflexivity|]. split; [discriminate|]. split; [exact Hidx|].
  destruct (ask_route_cases Sample.contract_data Sample.librarian
              (Some Sample.analyst) "When does it renew?" None)
    as (_ & _ & H).
  apply (H Sample.contract_index); [reflexivity | discriminate | exact Hidx].
Defined.

(** ** The ingest route *)

Import IngestRouter.

Lemma ingest_step_ok (uuid4 : nat -> string) (file : UploadFile)
  (rest : list UploadFile) (st : Store) (acc : list string) (a : Acc) :
  endswith (upload_filename file) ".pdf" = true ->
  run_parsers (content file) = Ok a ->
  ingest_loop uuid4 (file :: rest) st acc
  = ingest_loop uuid4 rest
      {| uploads := snd (save_pdf (uploads st) (uuid4 (drawn st))
                                  (content file));
         data := write (data st) (uuid4 (drawn st))
                       (metadata_of (uuid4 (drawn st)) a);
         drawn := S (drawn st) |}
      (acc ++ [uuid4 (drawn st)])%list.
Proof.
  intros He Hr. cbn [ingest_loop]. rewrite He. cbn [negb].
  unfold save_pdf, extract_text. cbn [snd].
  rewrite String.eqb_refl, Hr. reflexivity.
Qed.

Lemma ingest_step_raise (uuid4 : nat -> string) (file : UploadFile)
  (rest : list UploadFile) (st : Store) (acc : list string) (e : exn) :
  endswith (upload_filename file) ".pdf" = true ->
  run_parsers (content file) = Raise e ->
  ingest_loop uuid4 (file :: rest) st acc
  = (HTTPException 500,
     {| uploads := snd (save_pdf (uploads st) (uuid4 (drawn st))
                                 (content file));
        data := data st;
        drawn := S (drawn st) |}).
Proof.
  intros He Hr. cbn [ingest_loop]. rewrite He. cbn [negb].
  unfold save_pdf, extract_text. cbn [snd].
  rewrite String.eqb_refl, Hr. reflexivity.
Qed.

Lemma ingest_step_name (uuid4 : nat -> string) (file : UploadFile)
  (rest : list UploadFile) (st : Store) (acc : list string) :
  endswith (upload_filename file) ".pdf" = false ->
  ingest_loop uuid4 (file :: rest) st acc = (HTTPException 400, st).
Proof. intros He. cbn [ingest_loop]. now rewrite He. Qed.

Lemma stored_write (d : DataDir) (id id' : string) (a : Acc) :
  stored d id -> stored (write d id' (metadata_of id' a)) id.
Proof.
  intros (md & Hd & Hid). unfold stored, write.
  destruct (String.eqb_spec id id') as [->|_].
  - eexists. split; reflexivity.
  - now exists md.
Qed.

Lemma stored_write_same (d : DataDir) (id : string) (a : Acc) :
  stored (write d id (metadata_of id a)) id.
Proof.
  unfold stored, write. rewrite String.eqb_refl.
  eexists. split; reflexivity.
Qed.

Lemma saved_save_pdf (up : Uploads) (u id : string) (f : PdfFile) :
  up id <> None -> snd (save_pdf up u f) id <> None.
Proof.
  intros H. cbn. destruct (String.eqb id u); [discriminate | exact H].
Qed.

Lemma saved_save_pdf_same (up : Uploads) (u : string) (f : PdfFile) :
  snd (save_pdf up u f) u = Some f.
Proof. cbn. now rewrite String.eqb_refl. Qed.

(** The loop over a run of acceptable files. *)
Lemma ingest_loop_good (uuid4 : nat -> string) (good tail : list UploadFile) :
  Forall ingestible good ->
  forall (st : Store) (acc : list string),
  exists st1,
    ingest_loop uuid4 (good ++ tail) st acc
    = ingest_loop uuid4 tail st1
        (acc ++ map uuid4 (seq (drawn st) (List.length good)))%list /\
    drawn st1 = (drawn st + List.length good)%nat /\
    (forall id, stored (data st) id -> stored (data st1) id) /\
    (forall id, uploads st id <> None -> uploads st1 id <> None) /\
    (forall i, (i < List.length good)%nat ->
               stored (data st1) (uuid4 (drawn st + i)%nat) /\
               uploads st1 (uuid4 (drawn st + i)%nat) <> None).
Proof.
  induction 1 as [|file good (He & a & Hr) _ IH]; intros st acc.
  - exists st. cbn [app List.length seq map]. rewrite app_nil_r.
    repeat split; auto; lia.
  - cbn [app]. rewrite (ingest_step_ok uuid4 file _ st acc a He Hr).
    destruct (IH
      {| uploads := snd (save_pdf (uploads st) (uuid4 (drawn st))
                                  (content file));
         data := write (data st) (uuid4 (drawn st))
                       (metadata_of (uuid4 (drawn st)) a);
         drawn := S (drawn st) |}
      (acc ++ [uuid4 (drawn st)])%list)
      as (st1 & E & Hn & Hdata & Hup & Hnew).
    cbn [uploads data drawn] in *.
    exists st1. split; [|split; [|split; [|split]]].
    + rewrite E, <- app_assoc. reflexivity.
    + cbn [List.length]. lia.
    + intros id Hid. apply Hdata. now apply stored_write.
    + intros id Hid. apply Hup. now apply saved_save_pdf.
    + intros [|i] Hi.
      * rewrite Nat.add_0_r. split.
        -- apply Hdata, stored_write_same.
        -- apply Hup. rewrite saved_save_pdf_same. discriminate.
      * cbn [List.length] in Hi.
        replace (drawn st + S i)%nat with (S (drawn st) + i)%nat by lia.
        apply Hnew. lia.
Qed.

Lemma run_parsers_cases (f : PdfFile) :
  (exists a, run_parsers f = Ok a) \/ run_parsers f = Raise PdfReadError.
Proof.
  unfold run_parsers.
  destruct (pdfplumber f); [left; eauto|].
  destruct (pypdf2 f); [left; eauto | now right].
Qed.

Lemma ingest_loop_returns (uuid4 : nat -> string) (files : list UploadFile) :
  forall (st st' : Store) (acc ids : list string),
  ingest_loop uuid4 files st acc = (Returns ids, st') ->
  Forall ingestible files.
Proof.
  induction files as [|file files IH]; intros st st' acc ids E;
    [constructor|].
  destruct (endswith (upload_filename file) ".pdf") eqn:He.
  - destruct (run_parsers_cases (content file)) as [(a & Hr)|Hr].
    + rewrite (ingest_step_ok uuid4 file files st acc a He Hr) in E.
      constructor; [split; eauto|]. eapply IH; exact E.
    + rewrite (ingest_step_raise uuid4 file files st acc _ He Hr) in E.
      discriminate.
  - rewrite (ingest_step_name uuid4 file files st acc He) in E.
    discriminate.
Qed.

(** X20: when the ingest route returns, there was at least one file, every
    file name ends in ".pdf", and the response lists one identifier per
    file, in the order of the files: the identifiers drawn for them.  For
    each of them the PDF is saved and metadata is stored under the
    identifier, so that the audit route does not answer 404 for it. *)
Theorem ingest_response (uuid4 : nat -> string) (files : list UploadFile)
  (st st' : Store) (resp : DocumentIngestResponse)
  (client : option OpenAI) :
  ingest_documents uuid4 files st = (Returns resp, st') ->
  files <> [] /\
  Forall (fun file => endswith (upload_filename file) ".pdf" = true) files /\
  document_ids resp = map uuid4 (seq (drawn st) (List.length files)) /\
  message resp
  = "Successfully ingested " ++ str (llen files) ++ " document(s)" /\
  drawn st' = (drawn st + List.length files)%nat /\
  forall id, In id (document_ids resp) ->
    stored (data st') id /\ uploads st' id <> None /\
    AuditRouter.audit_contract (data st') client id <> HTTPException 404.
Proof.
  unfold ingest_documents. intros E.
  assert (Hne : files <> []) by (destruct files; [discriminate | discriminate]).
  replace (match files with
           | [] => (HTTPException 400, st)
           | _ :: _ =>
               match ingest_loop uuid4 files st [] with
               | (Returns ids, st'0) =>
                   (Returns
                      {| document_ids := ids;
                         message := "Successfully ingested "
                                    ++ str (llen ids) ++ " document(s)" |},
                    st'0)
               | (HTTPException status_code, st'0) =>
                   (HTTPException status_code, st'0)
               end
           end)
    with (match ingest_loop uuid4 files st [] with
          | (Returns ids, st'0) =>
              (Returns
                 {| document_ids := ids;
                    message := "Successfully ingested "
                               ++ str (llen ids) ++ " document(s)" |},
               st'0)
          | (HTTPException status_code, st'0) =>
              (HTTPException status_code, st'0)
          end) in E
    by (destruct files; [contradiction | reflexivity]).
  destruct (ingest_loop uuid4 files st []) as [[ids|code] st1] eqn:L;
    [|discriminate].
  injection E as <- <-.
  pose proof (ingest_loop_returns uuid4 files st st1 [] ids L) as Hgood.
  destruct (ingest_loop_good uuid4 files [] Hgood st [])
    as (st2 & E2 & Hn & _ & _ & Hnew).
  rewrite app_nil_r, L in E2. cbn [ingest_loop app] in E2.
  injection E2 as -> ->.
  cbn [document_ids message].
  split; [exact Hne|]. split.
  { eapply Forall_impl; [|exact Hgood]. now intros f (He & _). }
  split; [reflexivity|]. split.
  { unfold llen. now rewrite length_map, length_seq. }
  split; [exact Hn|].
  intros id Hid. apply in_map_iff in Hid as (n & <- & Hin).
  apply in_seq in Hin.
  destruct (Hnew (n - drawn st)%nat ltac:(lia)) as (Hs & Hu).
  replace (drawn st + (n - drawn st))%nat with n in * by lia.
  split; [exact Hs|]. split; [exact Hu|].
  intros E404. destruct Hs as (md & Hd & _).
  rewrite (audit_route_stored (data st2) client (uuid4 n) md Hd) in E404.
  destruct (nonempty (full md)); [|discriminate].
  destruct (audit_contract _ _ _); discriminate.
Qed.

Lemma ingest_response_witness :
  exists resp st',
    ingest_documents Sample.uuids [Sample.upload_contract] Sample.empty_store
    = (Returns resp, st') /\
    document_ids resp = ["c1"] /\
    message resp = "Successfully ingested 1 document(s)" /\
    stored (data st') "c1".
Proof.
  eexists. eexists. split; [reflexivity|].
  pose proof (ingest_response Sample.uuids [Sample.upload_contract]
                Sample.empty_store _ _ None eq_refl)
    as (_ & _ & Hids & Hmsg & _ & H).
  split; [exact Hids|]. split; [exact Hmsg|].
  apply H. now left.
Defined.

(** X21: the ingest route does not undo what it has done.  When the files
    [good] are accepted and the next file is refused, for its name (400)
    or because both parsers fail on it (500, with its PDF already saved),
    the request fails, but each of the files before it keeps its saved PDF
    and its stored metadata, and so does every document stored before the
    request. *)
Theorem ingest_partial (uuid4 : nat -> string)
  (good : list UploadFile) (bad : UploadFile) (rest : list UploadFile)
  (st : Store) :
  Forall ingestible good ->
  ~ ingestible bad ->
  let res := ingest_documents uuid4 (good ++ bad :: rest) st in
  let n := (drawn st + List.length good)%nat in
  (if endswith (upload_filename bad) ".pdf"
   then fst res = HTTPException 500 /\
        uploads (snd res) (uuid4 n) = Some (content bad) /\
        drawn (snd res) = S n
   else fst res = HTTPException 400 /\ drawn (snd res) = n) /\
  (forall i, (i < List.length good)%nat ->
             stored (data (snd res)) (uuid4 (drawn st + i)%nat) /\
             uploads (snd res) (uuid4 (drawn st + i)%nat) <> None) /\
  (forall id, stored (data st) id -> stored (data (snd res)) id) /\
  (forall id, uploads st id <> None -> uploads (snd res) id <> None).
Proof.
  intros Hgood Hbad. cbv zeta. unfold ingest_documents.
  replace (match (good ++ bad :: rest)%list with
           | [] => (HTTPException 400, st)
           | _ :: _ =>
               match ingest_loop uuid4 (good ++ bad :: rest) st [] with
               | (Returns ids, st'0) =>
                   (Returns
                      {| document_ids := ids;
                         message := "Successfully ingested "
                                    ++ str (llen ids) ++ " document(s)" |},
                    st'0)
               | (HTTPException status_code, st'0) =>
                   (HTTPException status_code, st'0)
               end
           end)
    with (match ingest_loop uuid4 (good ++ bad :: rest) st [] with
          | (Returns ids, st'0) =>
              (Returns
                 {| document_ids := ids;
                    message := "Successfully ingested "
                               ++ str (llen ids) ++ " document(s)" |},
               st'0)
          | (HTTPException status_code, st'0) =>
              (HTTPException status_code, st'0)
          end)
    by (destruct good; reflexivity).
  destruct (ingest_loop_good uuid4 good (bad :: rest) Hgood st [])
    as (st1 & -> & Hn & Hdata & Hup & Hnew).
  destruct (endswith (upload_filename bad) ".pdf") eqn:He.
  - destruct (run_parsers_cases (content bad)) as [(a & Hr)|Hr];
      [exfalso; apply Hbad; split; eauto|].
    rewrite (ingest_step_raise uuid4 bad rest st1 _ _ He Hr).
    cbn [fst snd uploads data drawn]. rewrite Hn.
    split; [|split; [|split]].
    + split; [reflexivity|]. split; [|reflexivity].
      apply saved_save_pdf_same.
    + intros i Hi. destruct (Hnew i Hi) as (Hs & Hu). split; [exact Hs|].
      now apply saved_save_pdf.
    + exact Hdata.
    + intros id Hid. now apply saved_save_pdf, Hup.
  - rewrite (ingest_step_name uuid4 bad rest st1 _ He).
    cbn [fst snd]. auto.
Qed.

Lemma ingest_partial_witness :
  Forall ingestible [Sample.upload_contract] /\
  ~ ingestible Sample.upload_notes /\
  fst (ingest_documents Sample.uuids
         [Sample.upload_contract; Sample.upload_notes] Sample.empty_store)
  = HTTPException 400 /\
  stored (data (snd (ingest_documents Sample.uuids
                       [Sample.upload_contract; Sample.upload_notes]
                       Sample.empty_store))) "c1".
Proof.
  assert (Hgood : Forall ingestible [Sample.upload_contract]).
  { constructor; [|constructor]. split; [reflexivity|].
    eexists. reflexivity. }
  assert (Hbad : ~ ingestible Sample.upload_notes).
  { intros (He & _). discriminate He. }
  split; [exact Hgood|]. split; [exact Hbad|].
  pose proof (ingest_partial Sample.uuids [Sample.upload_contract]
                Sample.upload_notes [] Sample.empty_store Hgood Hbad)
    as (Hres & Hnew & _).
  cbv zeta in Hres, Hnew. split.
  - apply Hres.
  - apply (Hnew 0%nat). cbn. lia.
Defined.

End RouteFacts.


(** * Facts about the evaluation script *)

Module EvalFacts.

Import Py RunEval Spec Props PyFacts.

Lemma find_append {A : Type} (f : A -> bool) (l1 l2 : list A) :
  find f (l1 ++ l2)
  = match find f l1 with
    | Some x => Some x
    | None => find f l2
    end.
Proof.
  induction l1 as [|x l1 IH]; [reflexivity|]. cbn [app find].
  now destruct (f x).
Qed.

Section Dict.

Context {V : Type}.

Lemma lookup_setitem (d : list (string * V)) (k k' : string) (v : V) :
  lookup (setitem d k v) k'
  = if String.eqb k k' then Some v else lookup d k'.
Proof.
  unfold lookup. induction d as [|[k0 v0] d IH]; cbn [setitem find fst snd].
  - now destruct (String.eqb k k').
  - destruct (String.eqb_spec k0 k) as [->|Hk0]; cbn [find fst snd].
    + now destruct (String.eqb k k').
    + destruct (String.eqb_spec k0 k') as [->|Hk0'].
      * destruct (String.eqb_spec k k') as [->|_]; [contradiction|].
        reflexivity.
      * exact IH.
Qed.

Lemma keys_setitem (d : list (string * V)) (k : string) (v : V) :
  map fst (setitem d k v)
  = if existsb (String.eqb k) (map fst d) then map fst d
    else (map fst d ++ [k])%list.
Proof.
  induction d as [|[k0 v0] d IH]; cbn [setitem map fst existsb app];
    [reflexivity|].
  rewrite (String.eqb_sym k k0).
  destruct (String.eqb k0 k); cbn [map fst orb]; [reflexivity|].
  rewrite IH. now destruct (existsb _ _).
Qed.

Lemma existsb_eqb (k : string) (l : list string) :
  existsb (String.eqb k) l = true <-> In k l.
Proof.
  rewrite existsb_exists. split.
  - intros (x & Hx & E). apply String.eqb_eq in E. now subst.
  - intros H. exists k. split; [exact H | apply String.eqb_refl].
Qed.

Lemma NoDup_setitem (d : list (string * V)) (k : string) (v : V) :
  NoDup (map fst d) -> NoDup (map fst (setitem d k v)).
Proof.
  intros H. rewrite keys_setitem.
  destruct (existsb _ _) eqn:E; [exact H|].
  apply NoDup_app; [exact H | constructor; [intros [] | constructor] |].
  intros x Hx [<-|[]]. apply existsb_eqb in Hx. congruence.
Qed.

Lemma In_keys_setitem (d : list (string * V)) (k k' : string) (v : V) :
  In k' (map fst (setitem d k v)) <-> k' = k \/ In k' (map fst d).
Proof.
  rewrite keys_setitem. destruct (existsb _ _) eqn:E.
  - apply existsb_eqb in E. split; [auto|]. now intros [->|H].
  - rewrite in_app_iff. cbn [In]. split.
    + intros [H|[<-|[]]]; auto.
    + intros [->|H]; auto.
Qed.

Variable id : V -> string.

Lemma fold_setitem (rows : list V) (d : list (string * V)) (k : string) :
  NoDup (map fst d) ->
  let d' := fold_left (fun d row => setitem d (id row) row) rows d in
  NoDup (map fst d') /\
  (In k (map fst d') <-> In k (map id rows) \/ In k (map fst d)) /\
  lookup d' k
  = match find (fun row => String.eqb (id row) k) (rev rows) with
    | Some row => Some row
    | None => lookup d k
    end.
Proof.
  cbv zeta. revert d. induction rows as [|r rows IH]; intros d Hd.
  - cbn. tauto.
  - cbn [fold_left map rev].
    destruct (IH (setitem d (id r) r) (NoDup_setitem d (id r) r Hd))
      as (N & I & L).
    split; [exact N|]. split.
    + rewrite I, In_keys_setitem. cbn [In]. split.
      * intros [H|[->|H]]; auto.
      * intros [[<-|H]|H]; auto.
    + rewrite L, lookup_setitem, find_append. cbn [find].
      destruct (find _ (rev rows)); [reflexivity|].
      now destruct (String.eqb (id r) k).
Qed.

Lemma by_id_facts (rows : list V) (k : string) :
  NoDup (map fst (by_id id rows)) /\
  (In k (map fst (by_id id rows)) <-> In k (map id rows)) /\
  lookup (by_id id rows) k
  = find (fun row => String.eqb (id row) k) (rev rows).
Proof.
  destruct (fold_setitem rows [] k (NoDup_nil _)) as (N & I & L).
  split; [exact N|]. split.
  - unfold by_id. rewrite I. cbn. tauto.
  - unfold by_id. rewrite L. now destruct (find _ _).
Qed.

Lemma lookup_In (d : list (string * V)) (k : string) (v : V) :
  NoDup (map fst d) -> (In (k, v) d <-> lookup d k = Some v).
Proof.
  unfold lookup. induction d as [|[k0 v0] d IH]; intros N.
  - cbn. split; [intros [] | discriminate].
  - inversion N as [|? ? Hnot N']; subst. cbn [find fst snd In].
    destruct (String.eqb_spec k0 k) as [->|Hk].
    + split.
      * intros [[= ->]|H]; [reflexivity|].
        exfalso. apply Hnot. change k with (fst (k, v)). now apply in_map.
      * intros [= ->]. now left.
    + rewrite <- (IH N'). split.
      * intros [[= -> _]|H]; [contradiction | exact H].
      * auto.
Qed.

End Dict.

Lemma score_loop_spec (preds : list (string * PredRow))
  (items : list (string * GoldRow)) (h : Z) (m : list string) :
  score_loop preds items h m
  = (h + llen (filter (hit preds) items),
     (m ++ map fst (filter (fun kv => negb (hit preds kv)) items))%list).
Proof.
  revert h m. induction items as [|[qid g] items IH]; intros h m.
  - cbn. now rewrite Z.add_0_r, app_nil_r.
  - cbn [score_loop filter].
    change (contains (lower (expected_substring g))
                     (lower (answer_of (lookup preds qid))))
      with (hit preds (qid, g)).
    destruct (hit preds (qid, g)); cbn [negb]; rewrite IH.
    + rewrite llen_cons. f_equal. lia.
    + cbn [map fst]. now rewrite <- app_assoc.
Qed.

Lemma filter_split_length {A : Type} (f : A -> bool) (l : list A) :
  (List.length (filter f l) + List.length (filter (fun x => negb (f x)) l)
   = List.length l)%nat.
Proof.
  induction l as [|x l IH]; [reflexivity|]. cbn [filter].
  destruct (f x); cbn [negb List.length]; lia.
Qed.

Lemma NoDup_map_filter {A B : Type} (g : A -> B) (f : A -> bool)
  (l : list A) :
  NoDup (map g l) -> NoDup (map g (filter f l)).
Proof.
  induction l as [|x l IH]; intros N; [constructor|].
  inversion N as [|? ? Hnot N']; subst. cbn [filter].
  destruct (f x); [|now apply IH].
  cbn [map]. constructor; [|now apply IH].
  intros H. apply Hnot. apply in_map_iff in H as (y & E & Hy).
  apply filter_In in Hy as (Hy & _). rewrite <- E. now apply in_map.
Qed.

(** X22: in the tally of the evaluation every question counts once,
    however often its identifier appears in the gold file: the total is
    the number of different identifiers, every question is either a hit
    or listed as missed, and no identifier is listed twice. *)
Theorem eval_tally (gold_rows : list GoldRow) (pred_rows : list PredRow) :
  let t := main gold_rows pred_rows in
  hits t + llen (missing t) = total t /\
  0 <= hits t /\
  total t = llen (nodup string_dec (map gold_id gold_rows)) /\
  NoDup (missing t) /\
  forall qid, In qid (missing t) -> In qid (map gold_id gold_rows).
Proof.
  cbv zeta. unfold main. rewrite score_loop_spec. cbn [total hits missing app].
  set (gold := by_id gold_id gold_rows).
  set (preds := by_id pred_id pred_rows).
  assert (N : NoDup (map fst gold))
    by apply (by_id_facts gold_id gold_rows "").
  split; [|split; [|split; [|split]]].
  - unfold llen. rewrite length_map.
    pose proof (filter_split_length (hit preds) gold). lia.
  - unfold llen. lia.
  - unfold llen. f_equal. rewrite <- (length_map fst gold).
    apply Nat.le_antisymm; apply NoDup_incl_length;
      try exact N; try apply NoDup_nodup; intros k Hk.
    + apply nodup_In. now apply (by_id_facts gold_id gold_rows k).
    + apply nodup_In in Hk. now apply (by_id_facts gold_id gold_rows k).
  - now apply NoDup_map_filter.
  - intros qid Hq. apply in_map_iff in Hq as (kv & <- & Hkv).
    apply filter_In in Hkv as (Hkv & _).
    apply (by_id_facts gold_id gold_rows (fst kv)). now apply in_map.
Qed.

(** X23: a question is listed as missed exactly when, for the last gold
    row and the last prediction with its identifier, the expected
    substring does not occur in the predicted answer, in whatever case; a
    question without prediction, or whose prediction has no answer, is
    judged on the empty answer. *)
Theorem eval_missed (gold_rows : list GoldRow) (pred_rows : list PredRow)
  (qid : string) :
  In qid (missing (main gold_rows pred_rows)) <->
  exists g,
    find (fun row => String.eqb (gold_id row) qid) (rev gold_rows) = Some g /\
    ~ occurs_ci (expected_substring g)
        (answer_of (find (fun row => String.eqb (pred_id row) qid)
                         (rev pred_rows))).
Proof.
  unfold main. rewrite score_loop_spec. cbn [missing app].
  destruct (by_id_facts gold_id gold_rows qid) as (N & _ & L).
  destruct (by_id_facts pred_id pred_rows qid) as (_ & _ & Lp).
  rewrite <- L, <- Lp. split.
  - intros H. apply in_map_iff in H as ([k g] & E & Hkv). cbn [fst] in E.
    subst k. apply filter_In in Hkv as (Hin & Hh).
    exists g. split; [now apply lookup_In|].
    unfold hit in Hh. cbn [fst snd] in Hh. intros Ho.
    apply AuditFacts.contains_lower_occurs in Ho. rewrite Ho in Hh.
    discriminate.
  - intros (g & Hg & Hno). apply lookup_In in Hg; [|exact N].
    apply in_map_iff. exists (qid, g). split; [reflexivity|].
    apply filter_In. split; [exact Hg|].
    unfold hit. cbn [fst snd].
    destruct (contains _ _) eqn:E; [|reflexivity].
    exfalso. apply Hno. now apply AuditFacts.contains_lower_occurs.
Qed.

(** The two questions of the sample: "q1" is judged on its second gold row
    and is a hit, "q2" has no prediction and is missed. *)
Example eval_sample :
  main Sample.questions Sample.predictions
  = {| total := 2; hits := 1; missing := ["q2"] |}.
Proof. reflexivity. Qed.

End EvalFacts.
